(** * twitch-wheel: the vote ledger, the top-K selector, the spin engine and
    the pointer resolver of [src/main.py], embedded as executable functions.

    Conventions of the embedding.
    - A Python [str] is a [string]: one [ascii] per code point, so the model
      covers text whose code points are below 256 (Latin-1).
    - A Python [dict] is an insertion-ordered association list ([dict]):
      assignment to a present key keeps its position, assignment to an absent
      key appends, [pop] removes.
    - A Python [int] is a [Z]; the interpreter's limit of 4300 digits on the
      decimal numerals it reads and writes is part of [int_of_str] and
      [str_of_Z].
    - A Python [float] is the rational it denotes ([Q]).  The clock, the
      velocity and the accumulated rotation are computed exactly: what is
      stated about them does not depend on rounding.  The pointer resolution
      and the arcs of the wheel are computed in double precision
      ([Double]), as the program computes them, because there a rounded sum
      decides which phrase is shown.
    - Tk widgets that only display (status line, timer label, chat log) are
      left out; the table ([tree]) and the wheel canvas are kept because the
      handlers read them back. *)

From Stdlib Require Import List String Ascii Bool Arith NArith ZArith QArith Qround.
From Stdlib Require Import DecimalString DecimalNat Lia Lqa Permutation Sorted.
Import ListNotations.

Close Scope Q_scope.
Local Open Scope string_scope.
Local Open Scope list_scope.

(** ** Python string primitives *)

Module PyStr.

Definition code (c : ascii) : N := N_of_ascii c.

Definition between (lo hi : N) (c : ascii) : bool :=
  (N.leb lo (code c) && N.leb (code c) hi)%bool.

(** [str.isspace] on code points below 256. *)
Definition isspace (c : ascii) : bool :=
  (between 9 13 c || between 28 32 c || N.eqb (code c) 133 || N.eqb (code c) 160)%bool.

(** One character of [str.lower] on code points below 256. *)
Definition lower_char (c : ascii) : ascii :=
  if (between 65 90 c || (between 192 222 c && negb (N.eqb (code c) 215)))%bool
  then ascii_of_N (code c + 32)
  else c.

Definition chars := list_ascii_of_string.
Definition str := string_of_list_ascii.

Fixpoint dropwhile (p : ascii -> bool) (l : list ascii) : list ascii :=
  match l with
  | [] => []
  | c :: l' => if p c then dropwhile p l' else l
  end.

Definition strip_chars (p : ascii -> bool) (l : list ascii) : list ascii :=
  rev (dropwhile p (rev (dropwhile p l))).

(** [s.strip()] *)
Definition strip (s : string) : string := str (strip_chars isspace (chars s)).

(** [s.lower()] *)
Definition lower (s : string) : string := str (map lower_char (chars s)).

(** [s.split()]: the maximal runs of non-whitespace characters. *)
Fixpoint words (cur : list ascii) (l : list ascii) : list string :=
  match l with
  | [] => match cur with [] => [] | _ => [str (rev cur)] end
  | c :: l' =>
      if isspace c
      then match cur with [] => words [] l' | _ => str (rev cur) :: words [] l' end
      else words (c :: cur) l'
  end.

Definition split_ws (s : string) : list string := words [] (chars s).

(** [sep.join(parts)] *)
Definition join (sep : string) (parts : list string) : string := String.concat sep parts.

(** [s.split(sep)] for a one-character separator; never empty. *)
Fixpoint split_on (sep : ascii) (s : string) : list string :=
  match s with
  | EmptyString => [EmptyString]
  | String c s' =>
      let r := split_on sep s' in
      if Ascii.eqb c sep then EmptyString :: r
      else match r with
           | h :: t => String c h :: t
           | [] => [String c EmptyString]
           end
  end.

(** [s.rsplit(sep, 1)]: cut at the last separator, if there is one. *)
Definition rsplit1 (sep : ascii) (s : string) : list string :=
  let parts := split_on sep s in
  match parts with
  | [] | [_] => [s]
  | _ => [join (String sep EmptyString) (removelast parts); last parts EmptyString]
  end.

(** [needle in hay] *)
Fixpoint contains (needle hay : string) : bool :=
  (String.prefix needle hay ||
   match hay with
   | EmptyString => false
   | String _ hay' => contains needle hay'
   end)%bool.

(** [s.startswith(p)] *)
Definition startswith (p s : string) : bool := String.prefix p s.

(** Truth value of a string: non-empty. *)
Definition truthy (s : string) : bool :=
  match s with EmptyString => false | _ => true end.

Definition is_digit (c : ascii) : bool := between 48 57 c.
Definition is_lower_az (c : ascii) : bool := between 97 122 c.

(** [int(s)] for a string, in base 10: optional surrounding whitespace, an
    optional sign, digits with single underscores between them, and no more
    than [int_max_str_digits] digits in all.  [None] stands for
    [ValueError]. *)
Definition int_space (c : ascii) : bool :=
  (between 9 13 c || N.eqb (code c) 32 || N.eqb (code c) 133 || N.eqb (code c) 160)%bool.

Fixpoint digits_val (acc : Z) (after_digit : bool) (l : list ascii) : option Z :=
  match l with
  | [] => if after_digit then Some acc else None
  | c :: l' =>
      if is_digit c
      then digits_val (10 * acc + Z.of_N (code c - 48))%Z true l'
      else if (Ascii.eqb c "_" && after_digit)%bool
           then digits_val acc false l'
           else None
  end.

(** The interpreter's limit on the digits of a decimal numeral that it
    converts to an integer or writes for one
    ([sys.int_info.default_max_str_digits]; the program does not change
    it). *)
Definition int_max_str_digits : nat := 4300.

(** The digits of a numeral. *)
Definition count_digits (l : list ascii) : nat := List.length (filter is_digit l).

Definition int_of_str (s : string) : option Z :=
  let l := strip_chars int_space (chars s) in
  if Nat.ltb int_max_str_digits (count_digits l) then None
  else
    match l with
    | "-"%char :: l => option_map Z.opp (digits_val 0 false l)
    | "+"%char :: l => digits_val 0 false l
    | l => digits_val 0 false l
    end.

(** [str(n)] for a natural number. *)
Definition str_of_nat (n : nat) : string := NilEmpty.string_of_uint (Nat.to_uint n).

End PyStr.

(** ** Python dictionaries, in insertion order *)

Section Dict.
Context {V : Type}.

Definition dict := list (string * V).

(** [d.get(k)] *)
Fixpoint dict_get (d : dict) (k : string) : option V :=
  match d with
  | [] => None
  | (k', v) :: d' => if String.eqb k' k then Some v else dict_get d' k
  end.

(** [k in d] *)
Definition dict_mem (d : dict) (k : string) : bool :=
  match dict_get d k with Some _ => true | None => false end.

(** [d.get(k, dflt)] *)
Definition dict_get_or (d : dict) (k : string) (dflt : V) : V :=
  match dict_get d k with Some v => v | None => dflt end.

(** [d[k] = v] *)
Fixpoint dict_set (d : dict) (k : string) (v : V) : dict :=
  match d with
  | [] => [(k, v)]
  | (k', v') :: d' =>
      if String.eqb k' k then (k', v) :: d' else (k', v') :: dict_set d' k v
  end.

(** [d.pop(k, None)] *)
Fixpoint dict_pop (d : dict) (k : string) : dict :=
  match d with
  | [] => []
  | (k', v') :: d' =>
      if String.eqb k' k then d' else (k', v') :: dict_pop d' k
  end.

Definition dict_keys (d : dict) : list string := map fst d.
Definition dict_values (d : dict) : list V := map snd d.

(** [dict(items)] *)
Definition dict_of_items (items : list (string * V)) : dict :=
  fold_left (fun d kv => dict_set d (fst kv) (snd kv)) items [].

(** The keys of a dictionary are pairwise distinct. *)
Definition dict_wf (d : dict) : Prop := NoDup (dict_keys d).
End Dict.

Arguments dict V : clear implicits.

(** ** [difflib.SequenceMatcher(None, a, b).ratio()]

    The standard library's matcher with no junk predicate and the default
    [autojunk]: in a [b] of 200 characters or more, a character occurring
    more than [len(b) // 100 + 1] times is left out of the index [b2j]. *)

Module Difflib.

Definition popular (b : list ascii) (c : ascii) : bool :=
  (Nat.leb 200 (List.length b) &&
   Nat.ltb (List.length b / 100 + 1) (count_occ ascii_dec b c))%bool.

(** One pass of the inner loop of [find_longest_match]: [row] is [j2len] as
    a list indexed by [j] (0 for an absent index), the result is [newj2len]. *)
Definition next_row (b : list ascii) (blo bhi : nat) (ai : ascii) (row : list nat) : list nat :=
  map (fun jbp : nat * ascii * nat =>
         let '(j, bj, prev) := jbp in
         if (Ascii.eqb ai bj && negb (popular b bj) && Nat.leb blo j && Nat.ltb j bhi)%bool
         then S prev else 0)
      (combine (combine (seq 0 (List.length b)) b) (0 :: row)).

Definition better (i : nat) (best : nat * nat * nat) (jk : nat * nat) : nat * nat * nat :=
  let '(_, _, bestsize) := best in
  let '(j, k) := jk in
  if Nat.ltb bestsize k then (i + 1 - k, j + 1 - k, k) else best.

(** The [for i in range(alo, ahi)] loop, over the characters [a[alo:ahi]]. *)
Fixpoint scan (b : list ascii) (blo bhi : nat) (ai_s : list ascii) (i : nat)
         (row : list nat) (best : nat * nat * nat) : nat * nat * nat :=
  match ai_s with
  | [] => best
  | ai :: rest =>
      let row' := next_row b blo bhi ai row in
      let best' := fold_left (better i) (combine (seq 0 (List.length b)) row') best in
      scan b blo bhi rest (S i) row' best'
  end.

Definition same_at (a b : list ascii) (i j : nat) : bool :=
  match nth_error a i, nth_error b j with
  | Some x, Some y => Ascii.eqb x y
  | _, _ => false
  end.

(** First [while]: grow the block to the left ([n] bounds the iterations). *)
Fixpoint extend_left (a b : list ascii) (alo blo : nat) (n : nat)
         (best : nat * nat * nat) : nat * nat * nat :=
  let '(besti, bestj, bestsize) := best in
  match n with
  | O => best
  | S n' =>
      if (Nat.ltb alo besti && Nat.ltb blo bestj && same_at a b (besti - 1) (bestj - 1))%bool
      then extend_left a b alo blo n' (besti - 1, bestj - 1, S bestsize)
      else best
  end.

(** Second [while]: grow the block to the right. *)
Fixpoint extend_right (a b : list ascii) (ahi bhi : nat) (n : nat)
         (best : nat * nat * nat) : nat * nat * nat :=
  let '(besti, bestj, bestsize) := best in
  match n with
  | O => best
  | S n' =>
      if (Nat.ltb (besti + bestsize) ahi && Nat.ltb (bestj + bestsize) bhi &&
          same_at a b (besti + bestsize) (bestj + bestsize))%bool
      then extend_right a b ahi bhi n' (besti, bestj, S bestsize)
      else best
  end.

(** [find_longest_match(alo, ahi, blo, bhi)]; the two loops over junk never
    run, the junk set being empty. *)
Definition find_longest_match (a b : list ascii) (alo ahi blo bhi : nat) : nat * nat * nat :=
  let best := scan b blo bhi (firstn (ahi - alo) (skipn alo a)) alo
                   (repeat 0 (List.length b)) (alo, blo, 0) in
  let best := extend_left a b alo blo (List.length a) best in
  extend_right a b ahi bhi (List.length a) best.

(** Total size of the blocks [get_matching_blocks] collects.  The window of
    [a] loses at least one character at each level, so [n], started at the
    length of [a] plus one, bounds the depth. *)
Fixpoint blocks_total (a b : list ascii) (n : nat) (alo ahi blo bhi : nat) : nat :=
  match n with
  | O => 0
  | S n' =>
      let '(i, j, k) := find_longest_match a b alo ahi blo bhi in
      match k with
      | O => 0
      | _ =>
          k
          + (if (Nat.ltb alo i && Nat.ltb blo j)%bool
             then blocks_total a b n' alo i blo j else 0)
          + (if (Nat.ltb (i + k) ahi && Nat.ltb (j + k) bhi)%bool
             then blocks_total a b n' (i + k) ahi (j + k) bhi else 0)
      end
  end.

(** [M]: the number of matched characters. *)
Definition matches (a b : string) : nat :=
  let la := list_ascii_of_string a in
  let lb := list_ascii_of_string b in
  blocks_total la lb (S (List.length la)) 0 (List.length la) 0 (List.length lb).

(** [ratio() >= 0.86].  [ratio()] is [2.0 * M / T], or [1.0] when [T] is 0;
    the comparison of the two doubles agrees with the comparison of the
    rationals [2M/T] and [86/100] for every [T] a string can have. *)
Definition ratio_ge_086 (a b : string) : bool :=
  let T := String.length a + String.length b in
  match T with
  | O => true
  | _ => Nat.leb (86 * T) (200 * matches a b)
  end.

End Difflib.

(** ** Lists, integers and floats as Python uses them *)

Section Sorted.
Context {A : Type} (leb : A -> A -> bool).

Fixpoint insert_by (x : A) (l : list A) : list A :=
  match l with
  | [] => [x]
  | y :: l' => if leb x y then x :: l else y :: insert_by x l'
  end.

(** [sorted(l)] under the order [leb]; stable: of two elements with equal
    keys the one that came first stays first. *)
Definition sorted_by (l : list A) : list A := fold_right insert_by [] l.
End Sorted.

(** [l[:n]] *)
Definition slice_to {A : Type} (l : list A) (n : Z) : list A :=
  if (0 <=? n)%Z then firstn (Z.to_nat n) l
  else firstn (List.length l - Z.to_nat (- n)) l.

(** [l[i]] for an index in range ([dflt] stands for [IndexError]). *)
Definition item_at {A : Type} (l : list A) (i : Z) (dflt : A) : A :=
  if (0 <=? i)%Z then nth (Z.to_nat i) l dflt
  else if (- Z.of_nat (List.length l) <=? i)%Z
       then nth (List.length l - Z.to_nat (- i)) l dflt
       else dflt.

Definition sum_Z (l : list Z) : Z := fold_right Z.add 0%Z l.

Definition Qlt_bool (x y : Q) : bool := negb (Qle_bool y x).

(** [x % 360] *)
Definition mod360 (x : Q) : Q := (x - 360 * inject_Z (Qfloor (x / 360)))%Q.

(** [int(x)]: truncation towards zero. *)
Definition Qtrunc (x : Q) : Z :=
  if Qle_bool 0 x then Qfloor x else (- Qfloor (- x))%Z.

(** ** Floats in double precision

    Where rounding decides what the program does, the arithmetic of floats
    is carried out as the machine does it: every operation returns the
    double nearest to the exact result, the one with an even last bit of two
    that are equally near (binary64, with its subnormal numbers).  A double
    is held as the rational number it stands for.  Results beyond the largest
    double do not occur here: the quantities are angles below 360, quotients
    of a count by a total that is not smaller, and quotients of an angle by a
    positive double. *)
Module Double.

(** [2 ** e] *)
Definition pow2 (e : Z) : Q :=
  if (0 <=? e)%Z then inject_Z (2 ^ e) else (1 # Z.to_pos (2 ^ (- e)))%Q.

(** The [e] with [2 ** e <= x < 2 ** (e + 1)], for a positive [x]. *)
Definition ilog2 (x : Q) : Z :=
  let e := (Z.log2 (Qnum x) - Z.log2 (Zpos (Qden x)))%Z in
  if Qlt_bool x (pow2 e) then (e - 1)%Z else e.

(** The nearest integer, the even one of two that are equally near. *)
Definition rint (x : Q) : Z :=
  let f := Qfloor x in
  match ((x - inject_Z f)%Q ?= (1 # 2))%Q with
  | Lt => f
  | Gt => (f + 1)%Z
  | Eq => if Z.even f then f else (f + 1)%Z
  end.

(** A positive [x] rounded to 53 significant bits, or to a multiple of
    [2 ** -1074] where it is smaller than [2 ** -1022]. *)
Definition round_pos (x : Q) : Q :=
  let q := Z.max (ilog2 x - 52) (-1074) in
  Qred (inject_Z (rint (x / pow2 q)) * pow2 q).

(** The double nearest to [x]. *)
Definition b64 (x : Q) : Q :=
  match Qnum x with
  | Z0 => 0%Q
  | Zpos _ => round_pos x
  | Zneg _ => (- round_pos (- x))%Q
  end.

Definition add (x y : Q) : Q := b64 (x + y).
Definition sub (x y : Q) : Q := b64 (x - y).
Definition mul (x y : Q) : Q := b64 (x * y).
Definition div (x y : Q) : Q := b64 (x / y).

(** [float(n)] *)
Definition of_int (n : Z) : Q := b64 (inject_Z n).

(** [a / b] for two integers: the quotient, rounded once. *)
Definition div_int (a b : Z) : Q := b64 (inject_Z a / inject_Z b).

(** [x % 360.0] for a double [x]: the remainder of the division is exact
    and has the sign of [x]; to a negative one 360.0 is added, and this sum
    is rounded. *)
Definition rem360 (x : Q) : Q :=
  if Qlt_bool x 0 then b64 (mod360 x) else mod360 x.

End Double.

(** [safe_int(text, default)] *)
Definition safe_int (text : string) (default : Z) : Z :=
  match PyStr.int_of_str text with
  | Some n => n
  | None => default
  end.

(** ** The application state *)

Record WheelCanvas := mkCanvas {
  canvas_rotation : Q;
  canvas_entries : dict Z;
  current_phrase : string;
  current_voted_by : string
}.

(** The fields of [App] the handlers read and write.  [tree] is the table
    widget: one row [(phrase, votes)] per displayed segment. *)
Record App := mkApp {
  voting_active : bool;
  vote_end_at : Q;
  spinning : bool;
  rotation : Q;
  spin_velocity : Q;
  vote_counts : dict Z;
  user_votes : dict string;
  max_phrases_var : string;
  tree : list (string * Z);
  wheel_canvas : WheelCanvas
}.

Definition with_voting (active : bool) (end_at : Q) (st : App) : App :=
  mkApp active end_at (spinning st) (rotation st) (spin_velocity st)
        (vote_counts st) (user_votes st) (max_phrases_var st) (tree st) (wheel_canvas st).

Definition with_spin (spin : bool) (rot vel : Q) (st : App) : App :=
  mkApp (voting_active st) (vote_end_at st) spin rot vel
        (vote_counts st) (user_votes st) (max_phrases_var st) (tree st) (wheel_canvas st).

Definition with_ledger (vc : dict Z) (uv : dict string) (st : App) : App :=
  mkApp (voting_active st) (vote_end_at st) (spinning st) (rotation st) (spin_velocity st)
        vc uv (max_phrases_var st) (tree st) (wheel_canvas st).

Definition with_tree (rows : list (string * Z)) (st : App) : App :=
  mkApp (voting_active st) (vote_end_at st) (spinning st) (rotation st) (spin_velocity st)
        (vote_counts st) (user_votes st) (max_phrases_var st) rows (wheel_canvas st).

Definition with_canvas (c : WheelCanvas) (st : App) : App :=
  mkApp (voting_active st) (vote_end_at st) (spinning st) (rotation st) (spin_velocity st)
        (vote_counts st) (user_votes st) (max_phrases_var st) (tree st) c.

(** [App.__init__]: the state the handlers start from. *)
Definition init : App :=
  mkApp false 0 false 0 0 [] [] "10" [] (mkCanvas 0 [] "" "").

(** ** PhraseNormalizer and FuzzyMatcher *)

(** [normalize_phrase] *)
Definition normalize_phrase (text : string) : string :=
  let lowered := PyStr.join " " (PyStr.split_ws (PyStr.lower (PyStr.strip text))) in
  PyStr.strip
    (PyStr.str
       (filter (fun c => (PyStr.is_lower_az c || PyStr.is_digit c || PyStr.isspace c)%bool)
               (PyStr.chars lowered))).

(** The three tests of [find_matching_phrase] on one existing phrase. *)
Definition qualifies (phrase existing : string) : bool :=
  (String.eqb phrase existing
   || (PyStr.contains phrase existing || PyStr.contains existing phrase)
   || Difflib.ratio_ge_086 phrase existing)%bool.

(** The [for existing in self.vote_counts] loop. *)
Fixpoint first_match (phrase ignore_phrase : string) (keys : list string) : option string :=
  match keys with
  | [] => None
  | existing :: rest =>
      if (PyStr.truthy ignore_phrase && String.eqb existing ignore_phrase)%bool
      then first_match phrase ignore_phrase rest
      else if String.eqb phrase existing then Some existing
      else if (PyStr.contains phrase existing || PyStr.contains existing phrase)%bool
           then Some existing
      else if Difflib.ratio_ge_086 phrase existing then Some existing
      else first_match phrase ignore_phrase rest
  end.

(** [find_matching_phrase(phrase, ignore_phrase)] over the tally map [vc]. *)
Definition find_matching_phrase (vc : dict Z) (phrase ignore_phrase : string) : option string :=
  if negb (PyStr.truthy phrase) then None
  else first_match phrase ignore_phrase (dict_keys vc).

(** [matched or phrase] *)
Definition or_else (matched : option string) (phrase : string) : string :=
  match matched with
  | Some m => if PyStr.truthy m then m else phrase
  | None => phrase
  end.

(** ** SegmentSelector *)

(** The sort key [(-count, phrase)], compared as Python compares tuples. *)
Definition key_leb (x y : string * Z) : bool :=
  ((snd y <? snd x)%Z || ((snd x =? snd y)%Z && String.leb (fst x) (fst y)))%bool.

(** [dict(sorted(vc.items(), key=lambda x: (-x[1], x[0]))[:k])] *)
Definition top_votes (vc : dict Z) (k : Z) : dict Z :=
  dict_of_items (slice_to (sorted_by key_leb vc) k).

Definition max_phrases (st : App) : Z := Z.max 1 (safe_int (max_phrases_var st) 10).

(** [get_top_votes] *)
Definition get_top_votes (st : App) : dict Z := top_votes (vote_counts st) (max_phrases st).

(** ** PointerResolver *)

Definition unknown_label (i : nat) : string :=
  ("unknown-" ++ PyStr.str_of_nat (i + 1))%string.

(** The body of the [if running <= wheel_angle < running + extent] branch.
    [slot_extent] rounds to zero only for a list of slots far longer than a
    list can be, so the division by it is taken as total. *)
Definition pick_voter (uv : dict string) (phrase : string) (votes : Z)
           (wheel_angle running extent : Q) : string * string :=
  let phrase_users :=
    sorted_by String.leb (map fst (filter (fun e => String.eqb (snd e) phrase) uv)) in
  let voter_slots := slice_to phrase_users votes in
  let voter_slots :=
    if (Z.of_nat (List.length voter_slots) <? votes)%Z
    then let missing := (votes - Z.of_nat (List.length voter_slots))%Z in
         (voter_slots ++ map unknown_label (seq 0 (Z.to_nat missing)))%list
    else voter_slots in
  match voter_slots with
  | [] => (phrase, "voted by: -")
  | _ =>
      let local_angle := Double.sub wheel_angle running in
      let slot_extent :=
        Double.div extent (Double.of_int (Z.of_nat (List.length voter_slots))) in
      let slot_idx := Z.min (Z.of_nat (List.length voter_slots) - 1)
                            (Qtrunc (Double.div local_angle slot_extent)) in
      (phrase, ("voted by: " ++ item_at voter_slots slot_idx "")%string)
  end.

(** [360.0 * (votes / total)] *)
Definition extent_of (total votes : Z) : Q :=
  Double.mul 360 (Double.div_int votes total).

(** The [for phrase, votes in top_votes.items()] loop; [None] when it runs
    to its end. *)
Fixpoint pointer_scan (uv : dict string) (total : Z) (wheel_angle : Q)
         (items : dict Z) (running : Q) : option (string * string) :=
  match items with
  | [] => None
  | (phrase, votes) :: rest =>
      let extent := extent_of total votes in
      if (Qle_bool running wheel_angle
          && Qlt_bool wheel_angle (Double.add running extent))%bool
      then Some (pick_voter uv phrase votes wheel_angle running extent)
      else pointer_scan uv total wheel_angle rest (Double.add running extent)
  end.

(** [(pointer_angle - (self.rotation % 360)) % 360] *)
Definition wheel_angle_of (rot : Q) : Q :=
  Double.rem360 (Double.sub 90 (Double.rem360 rot)).


(** [pointer_details] *)
Definition pointer_details (st : App) : string * string :=
  let top := get_top_votes st in
  let total := sum_Z (dict_values top) in
  if (total <=? 0)%Z then ("", "")
  else
    match pointer_scan (user_votes st) total (wheel_angle_of (rotation st)) top 0 with
    | Some r => r
    | None => (match dict_keys top with k :: _ => k | [] => "" end, "voted by: -")
    end.

(** ** The wheel canvas *)

(** [WheelCanvas.set_entries] *)
Definition set_entries (entries : dict Z) (c : WheelCanvas) : WheelCanvas :=
  mkCanvas (canvas_rotation c) (filter (fun e => (0 <? snd e)%Z) entries)
           (current_phrase c) (current_voted_by c).

(** [WheelCanvas.set_rotation] *)
Definition set_rotation (rot : Q) (c : WheelCanvas) : WheelCanvas :=
  mkCanvas (mod360 rot) (canvas_entries c) (current_phrase c) (current_voted_by c).

(** [WheelCanvas.set_current_info] *)
Definition set_current_info (info : string * string) (c : WheelCanvas) : WheelCanvas :=
  mkCanvas (canvas_rotation c) (canvas_entries c) (fst info) (snd info).

(** [refresh_table_from_votes] *)
Definition refresh_table_from_votes (st : App) : App :=
  let top := get_top_votes st in
  let all_votes := dict_of_items (sorted_by key_leb (vote_counts st)) in
  let st := with_tree all_votes st in
  let st := with_canvas (set_entries top (wheel_canvas st)) st in
  with_canvas (set_current_info (pointer_details st) (wheel_canvas st)) st.

(** ** VoteLedger *)

(** Lines 437-441 of [consume_vote]: give up the previous vote. *)
Definition withdraw (previous_phrase : option string) (vc : dict Z) : dict Z :=
  match previous_phrase with
  | Some prev =>
      if (PyStr.truthy prev && dict_mem vc prev)%bool
      then let vc := dict_set vc prev (dict_get_or vc prev 0 - 1)%Z in
           if (dict_get_or vc prev 0 <=? 0)%Z then dict_pop vc prev else vc
      else vc
  | None => vc
  end.

Definition same_phrase (previous_phrase : option string) (target : string) : bool :=
  match previous_phrase with
  | Some prev => String.eqb prev target
  | None => false
  end.

(** [consume_vote(username, message)] *)
Definition consume_vote (username message : string) (st : App) : App :=
  if negb (voting_active st) then st
  else
    let username := PyStr.lower (PyStr.strip username) in
    if negb (PyStr.truthy username) then st
    else
      let phrase := normalize_phrase message in
      if negb (PyStr.truthy phrase) then st
      else
        let matched_phrase := find_matching_phrase (vote_counts st) phrase "" in
        let target_phrase := or_else matched_phrase phrase in
        let previous_phrase := dict_get (user_votes st) username in
        if same_phrase previous_phrase target_phrase then st
        else
          let vc := withdraw previous_phrase (vote_counts st) in
          let vc := dict_set vc target_phrase (dict_get_or vc target_phrase 0 + 1)%Z in
          let uv := dict_set (user_votes st) username target_phrase in
          refresh_table_from_votes (with_ledger vc uv st).

(** [start_vote]; [now] is the reading of [time.time()]. *)
Definition VOTE_DURATION_SECONDS : Q := 120.

Definition start_vote (now : Q) (st : App) : App :=
  with_voting true (now + VOTE_DURATION_SECONDS)%Q st.

(** [clear_vote] *)
Definition clear_vote (st : App) : App :=
  refresh_table_from_votes (with_ledger [] [] (with_voting false 0 st)).

(** [stop_vote] *)
Definition stop_vote (st : App) : App :=
  if negb (voting_active st) then st else with_voting false 0 st.

(** [update_timer]; [now] is the reading of [time.time()]. *)
Definition update_timer (now : Q) (st : App) : App :=
  if voting_active st
  then let remaining := Z.max 0 (Qtrunc (vote_end_at st - now)%Q) in
       if (remaining <=? 0)%Z then with_voting false (vote_end_at st) st else st
  else st.

(** [add_or_update_segment]; the arguments are the contents of the two entry
    fields. *)
Definition add_or_update_segment (new_phrase new_votes : string) (st : App) : App :=
  let phrase := normalize_phrase new_phrase in
  let votes := safe_int new_votes 1 in
  if negb (PyStr.truthy phrase) then st
  else
    let vc := vote_counts st in
    let matched_phrase := find_matching_phrase vc phrase "" in
    let '(vc, target_phrase) :=
      match matched_phrase with
      | Some m =>
          if (PyStr.truthy m && negb (String.eqb m phrase))%bool
          then (dict_set vc m (Z.max 0 (dict_get_or vc m 0 + votes))%Z, m)
          else (dict_set vc phrase (Z.max 0 votes)%Z, phrase)
      | None => (dict_set vc phrase (Z.max 0 votes)%Z, phrase)
      end in
    let vc := if (dict_get_or vc target_phrase 0 <=? 0)%Z then dict_pop vc target_phrase else vc in
    refresh_table_from_votes (with_ledger vc (user_votes st) st).

(** [remove_selected]; [selection] holds the indices of the selected rows
    of the table. *)
Definition remove_selected (selection : list nat) (st : App) : App :=
  match selection with
  | [] => st
  | _ =>
      let vc :=
        fold_left (fun vc item =>
                     match nth_error (tree st) item with
                     | Some row => dict_pop vc (fst row)
                     | None => vc
                     end)
                  selection (vote_counts st) in
      refresh_table_from_votes (with_ledger vc (user_votes st) st)
  end.

(** ** The table-cell editor *)

Inductive column := ColPhrase | ColVotes.

(** [save_edit] of [edit_tree_cell], for the row [item] and the column
    [col] ("#1" or "#2"); [editor_text] is what the entry widget holds.  A
    row that is no longer in the table makes Tk raise, and nothing changes.
    The votes cell holds the integer [refresh_table_from_votes] put there,
    which is what [safe_int] reads back. *)
Definition save_edit (item : nat) (col : column) (editor_text : string) (st : App) : App :=
  match nth_error (tree st) item with
  | None => st
  | Some (phrase_old, votes_old) =>
      let new_value := PyStr.strip editor_text in
      let vc := vote_counts st in
      match col with
      | ColPhrase =>
          let phrase_new := normalize_phrase new_value in
          if negb (PyStr.truthy phrase_new) then st
          else if negb (String.eqb phrase_new phrase_old)
          then
            let vc := dict_pop vc phrase_old in
            let matched_phrase := find_matching_phrase vc phrase_new phrase_old in
            let target_phrase := or_else matched_phrase phrase_new in
            let vc := dict_set vc target_phrase (dict_get_or vc target_phrase 0 + votes_old)%Z in
            refresh_table_from_votes (with_ledger vc (user_votes st) st)
          else refresh_table_from_votes st
      | ColVotes =>
          let votes_new := safe_int new_value votes_old in
          let vc :=
            if dict_mem vc phrase_old
            then if (votes_new <=? 0)%Z then dict_pop vc phrase_old
                 else dict_set vc phrase_old votes_new
            else vc in
          refresh_table_from_votes (with_ledger vc (user_votes st) st)
      end
  end.

(** ** Import *)

Definition tab : ascii := ascii_of_nat 9.

(** [imported[target] = imported.get(target, 0) + votes], the target being
    resolved against the ledger as it is before the import. *)
Definition add_segment (vc : dict Z) (phrase : string) (votes : Z) (imported : dict Z) : dict Z :=
  let existing := find_matching_phrase vc phrase "" in
  let target := or_else existing phrase in
  dict_set imported target (dict_get_or imported target 0 + votes)%Z.

(** The untagged forms: [phrase<TAB>count], else [phrase count]. *)
Definition untagged_line (vc : dict Z) (line : string) (imported : dict Z) : dict Z :=
  let cut :=
    if PyStr.contains (String tab "") line then PyStr.rsplit1 tab line
    else PyStr.rsplit1 " " line in
  match cut with
  | [phrase_raw; votes_raw] =>
      let phrase := normalize_phrase phrase_raw in
      let votes := safe_int (PyStr.strip votes_raw) 0 in
      if (negb (PyStr.truthy phrase) || (votes <=? 0)%Z)%bool then imported
      else add_segment vc phrase votes imported
  | _ => imported
  end.

(** One turn of [for raw in f]. *)
Definition import_line (vc : dict Z) (acc : dict Z * dict string) (raw : string)
  : dict Z * dict string :=
  let '(imported, imported_user_votes) := acc in
  let line := PyStr.strip raw in
  if (negb (PyStr.truthy line) || PyStr.startswith "#" line)%bool then acc
  else
    match PyStr.split_on tab line with
    | tag :: p1 :: p2 :: _ =>
        if String.eqb tag "SEGMENT"
        then
          let phrase := normalize_phrase p1 in
          let votes := safe_int (PyStr.strip p2) 0 in
          if (PyStr.truthy phrase && (0 <? votes)%Z)%bool
          then (add_segment vc phrase votes imported, imported_user_votes)
          else acc
        else if String.eqb tag "USERVOTE"
        then
          let username := PyStr.lower (PyStr.strip p1) in
          let phrase := normalize_phrase p2 in
          if (PyStr.truthy username && PyStr.truthy phrase)%bool
          then (imported, dict_set imported_user_votes username phrase)
          else acc
        else (untagged_line vc line imported, imported_user_votes)
    | _ => (untagged_line vc line imported, imported_user_votes)
    end.

(** The whole reading loop: the segments and the sender votes of the file. *)
Definition read_import (vc : dict Z) (lines : list string) : dict Z * dict string :=
  fold_left (import_line vc) lines ([], []).

(** The sender votes that are kept (lines 633-637). *)
Definition keep_user_votes (vc : dict Z) (imported_user_votes : dict string) : dict string :=
  dict_of_items
    (filter (fun e => (dict_mem vc (snd e) && (0 <? dict_get_or vc (snd e) 0)%Z)%bool)
            imported_user_votes).

(** Lines 639-641: a phrase some kept vote names and the tally map lacks
    is entered with tally 1. *)
Definition materialize (phrases : list string) (vc : dict Z) : dict Z :=
  fold_left (fun vc phrase => if dict_mem vc phrase then vc else dict_set vc phrase 1%Z)
            phrases vc.

(** [import_segments], for a file that was chosen and read: [lines] are its
    lines.  (A cancelled dialog or an [OSError] changes nothing.) *)
Definition import_segments (lines : list string) (st : App) : App :=
  let '(imported, imported_user_votes) := read_import (vote_counts st) lines in
  let uv := keep_user_votes imported imported_user_votes in
  let vc := materialize (dict_values uv) imported in
  refresh_table_from_votes (with_ledger vc uv st).

(** ** SpinEngine *)

(** [min(x, y)] of Python: the first argument unless the second is smaller. *)
Definition py_min (x y : Q) : Q := if Qlt_bool y x then y else x.

Definition no_segments_dialog : string * string :=
  ("No segments", "Add at least one phrase with votes before spinning.").

(** [spin_wheel]; [impulse] is the value [random.uniform(18, 28)] returns.
    The second component is the dialog [messagebox.showinfo] shows, if any. *)
Definition spin_wheel (impulse : Q) (st : App) : App * option (string * string) :=
  let top := get_top_votes st in
  if negb (existsb (fun v => (0 <? v)%Z) (dict_values top))
  then (st, Some no_segments_dialog)
  else
    let vel := (spin_velocity st + impulse)%Q in
    (with_spin true (rotation st) (py_min vel 120) st, None).

(** [update_spin_state]: one tick. *)
Definition update_spin_state (st : App) : App :=
  let st :=
    if (spinning st || Qlt_bool 0 (spin_velocity st))%bool
    then
      let rot := (rotation st + spin_velocity st)%Q in
      let vel := (spin_velocity st * (985 # 1000))%Q in
      let st := if Qlt_bool vel (5 # 100)
                then with_spin false rot 0 st
                else with_spin (spinning st) rot vel st in
      with_canvas (set_rotation (rotation st) (wheel_canvas st)) st
    else st in
  with_canvas (set_current_info (pointer_details st) (wheel_canvas st)) st.

(** ** Events: the handlers as one transition function *)

Inductive event :=
| Chat (username message : string)
| AddOrUpdate (new_phrase new_votes : string)
| RemoveSelected (selection : list nat)
| SaveEdit (item : nat) (col : column) (editor_text : string)
| Import (lines : list string)
| ClearVote
| StartVote (now : Q)
| StopVote
| TimerTick (now : Q)
| SetMaxPhrases (text : string)
| Spin (impulse : Q)
| SpinTick.

(** Typing into the "Top phrases on wheel" entry: the variable changes and
    [on_top_phrases_changed] refreshes the table. *)
Definition set_max_phrases (text : string) (st : App) : App :=
  refresh_table_from_votes
    (mkApp (voting_active st) (vote_end_at st) (spinning st) (rotation st) (spin_velocity st)
           (vote_counts st) (user_votes st) text (tree st) (wheel_canvas st)).

Definition handle (st : App) (e : event) : App :=
  match e with
  | Chat u m => consume_vote u m st
  | AddOrUpdate p v => add_or_update_segment p v st
  | RemoveSelected sel => remove_selected sel st
  | SaveEdit item col text => save_edit item col text st
  | Import lines => import_segments lines st
  | ClearVote => clear_vote st
  | StartVote now => start_vote now st
  | StopVote => stop_vote st
  | TimerTick now => update_timer now st
  | SetMaxPhrases text => set_max_phrases text st
  | Spin impulse => fst (spin_wheel impulse st)
  | SpinTick => update_spin_state st
  end.

Definition run (es : list event) (st : App) : App := fold_left handle es st.

(** ** Predicates on the ledger *)

(** The tally of a phrase, 0 when it has no entry. *)
Definition tally (vc : dict Z) (p : string) : Z := dict_get_or vc p 0%Z.

(** How many senders currently vote for [p]. *)
Definition senders_of (uv : dict string) (p : string) : nat :=
  List.length (filter (fun e => String.eqb (snd e) p) uv).

(** Every stored tally is positive. *)
Definition tallies_positive (rows : list (string * Z)) : Prop :=
  Forall (fun e => (0 < snd e)%Z) rows.

(** No sender is mapped to a phrase that has no entry in the tally map. *)
Definition no_orphans (vc : dict Z) (uv : dict string) : Prop :=
  forall u p, In (u, p) uv -> dict_mem vc p = true.

(** The invariant the claim names. *)
Definition ledger_ok (st : App) : Prop :=
  tallies_positive (vote_counts st) /\ no_orphans (vote_counts st) (user_votes st).

(** Every phrase has at least as many votes as senders. *)
Definition supported (vc : dict Z) (uv : dict string) : Prop :=
  forall p, (Z.of_nat (senders_of uv p) <= tally vc p)%Z.

(** The keys of a dictionary after [pop]: the first occurrence is gone. *)
Fixpoint remove_first (k : string) (l : list string) : list string :=
  match l with
  | [] => []
  | x :: l' => if String.eqb x k then l' else x :: remove_first k l'
  end.

(** ** What the matcher tests, as propositions *)

(** [a] occurs in [b] as a contiguous block. *)
Definition substring (a b : string) : Prop :=
  exists pre post, b = (pre ++ a ++ post)%string.

(** [2 * M / T >= 0.86], with [M] the matched characters and [T] the sum of
    the two lengths. *)
Definition similar (a b : string) : Prop :=
  86 * (String.length a + String.length b) <= 200 * Difflib.matches a b.

Definition matches_phrase (phrase existing : string) : Prop :=
  phrase = existing \/ substring phrase existing \/ substring existing phrase
  \/ similar phrase existing.

(** The phrase the caller asked to leave out ([ignore_phrase], when given). *)
Definition excluded (ignore_phrase x : string) : Prop :=
  ignore_phrase <> "" /\ x = ignore_phrase.

(** ** The order of the top-K view *)

(** The relation a boolean comparison decides. *)
Definition holds {A : Type} (leb : A -> A -> bool) (x y : A) : Prop := leb x y = true.


(** [x] comes no later than [y]: a larger count first, and among equal
    counts the smaller phrase first. *)
Definition key_le (x y : string * Z) : Prop :=
  (snd y < snd x)%Z \/ (snd x = snd y /\ String.leb (fst x) (fst y) = true).

(** ** Angles *)

(** [x] lies in [[0, 360)]. *)
Definition in_turn (x : Q) : Prop := (0 <= x /\ x < 360)%Q.

(** A state in which the wheel has just been spun: one vote, impulse 20. *)
Definition spun_once : App := run [StartVote 0; Chat "alice" "cats"; Spin 20] init.



(** The handlers are unfolded by name in the proofs, never by [simpl]. *)
Arguments refresh_table_from_votes : simpl never.
Arguments pointer_details : simpl never.
Arguments get_top_votes : simpl never.
Arguments top_votes : simpl never.
Arguments normalize_phrase : simpl never.
Arguments find_matching_phrase : simpl never.
Arguments withdraw : simpl never.
Arguments consume_vote : simpl never.
Arguments read_import : simpl never.
Arguments PyStr.strip : simpl never.
Arguments PyStr.lower : simpl never.
Arguments Difflib.ratio_ge_086 : simpl never.
Arguments mod360 : simpl never.
Arguments wheel_angle_of : simpl never.



(** The lines [export_segments] writes. *)
Definition segment_line (phrase votes : string) : string :=
  ("SEGMENT" ++ String tab (phrase ++ String tab votes))%string.

Definition uservote_line (username phrase : string) : string :=
  ("USERVOTE" ++ String tab (username ++ String tab phrase))%string.

(** One vote has been cast: alice for cats. *)
Definition one_vote : App := run [StartVote 0; Chat "alice" "cats"] init.

(** ** Conservation *)

(** The invariant behind conservation: well-formed maps, every phrase
    supported, no sender on the empty phrase, and as many votes counted as
    there are senders. *)
Definition conserved (vc : dict Z) (uv : dict string) : Prop :=
  dict_wf vc /\ dict_wf uv /\ supported vc uv
  /\ (forall u, ~ In (u, "") uv)
  /\ sum_Z (dict_values vc) = Z.of_nat (List.length uv).

(** A sequence of chat votes, applied in order. *)
Definition apply_votes (votes : list (string * string)) (st : App) : App :=
  fold_left (fun s v => consume_vote (fst v) (snd v) s) votes st.

(** The number of distinct senders with an entry in the sender map. *)
Definition distinct_senders (uv : dict string) : nat :=
  List.length (nodup string_dec (dict_keys uv)).

(** ** What the windows show *)

(** The table lists the tally map in sorted order, the wheel holds the
    entries of the top-K view with a positive count, and the caption under
    the wheel is what [pointer_details] returns for the state. *)
Definition display_in_sync (st : App) : Prop :=
  tree st = dict_of_items (sorted_by key_leb (vote_counts st))
  /\ canvas_entries (wheel_canvas st) = filter (fun e => (0 <? snd e)%Z) (get_top_votes st)
  /\ (current_phrase (wheel_canvas st), current_voted_by (wheel_canvas st))
     = pointer_details st.

(** ** The spin engine *)

(** Either the wheel is spinning with a velocity between 0.05 and 120, or
    it is at rest with velocity 0. *)
Definition spin_ok (st : App) : Prop :=
  (spinning st = true /\ (5 # 100 <= spin_velocity st)%Q /\ (spin_velocity st <= 120)%Q)
  \/ (spinning st = false /\ spin_velocity st = 0%Q).

(** [random.uniform(18, 28)] returns a value between its bounds. *)
Definition impulse_ok (e : event) : Prop :=
  match e with
  | Spin impulse => (18 <= impulse /\ impulse <= 28)%Q
  | _ => True
  end.

(** [v] after [k] multiplications by the decay factor. *)
Fixpoint decayed (k : nat) (v : Q) : Q :=
  match k with
  | O => v
  | S k' => (decayed k' v * (985 # 1000))%Q
  end.

(** [n] ticks in a row. *)
Definition ticks (n : nat) (st : App) : App := Nat.iter n update_spin_state st.

(** ** The effect of one vote *)

(** The sender key and the target phrase [consume_vote] works with. *)
Definition sender_of (username : string) : string := PyStr.lower (PyStr.strip username).

Definition vote_target (vc : dict Z) (message : string) : string :=
  or_else (find_matching_phrase vc (normalize_phrase message) "") (normalize_phrase message).

(** The phrase [q] loses the vote the sender had on it: the sender's
    previous phrase is [q], it is not empty and it has an entry. *)
Definition gave_up (prev : option string) (vc : dict Z) (q : string) : bool :=
  match prev with
  | Some p => (String.eqb p q && PyStr.truthy p && dict_mem vc p)%bool
  | None => false
  end.

(** Every tally is the number of senders on the phrase. *)
Definition tallies_count_senders (vc : dict Z) (uv : dict string) : Prop :=
  forall p, tally vc p = Z.of_nat (senders_of uv p).

(** ** Manual edits *)

(** The phrase [add_or_update_segment] writes to: the first fuzzy match when
    it differs from the typed phrase, else the typed phrase. *)
Definition segment_target (vc : dict Z) (phrase : string) : string :=
  match find_matching_phrase vc phrase "" with
  | Some m => if (PyStr.truthy m && negb (String.eqb m phrase))%bool then m else phrase
  | None => phrase
  end.

(** The count it writes: votes are added to a fuzzy match and replace the
    count of an exact one; never below 0. *)
Definition segment_count (vc : dict Z) (phrase : string) (votes : Z) : Z :=
  match find_matching_phrase vc phrase "" with
  | Some m => if (PyStr.truthy m && negb (String.eqb m phrase))%bool
              then Z.max 0 (tally vc m + votes) else Z.max 0 votes
  | None => Z.max 0 votes
  end.

(** The phrase [q] is in one of the selected rows of the table. *)
Definition selected (rows : list (string * Z)) (selection : list nat) (q : string) : bool :=
  existsb (fun item => match nth_error rows item with
                       | Some row => String.eqb (fst row) q
                       | None => false
                       end) selection.

(** The phrase a renamed segment ends up under. *)
Definition rename_target (vc : dict Z) (phrase_old text : string) : string :=
  let phrase_new := normalize_phrase (PyStr.strip text) in
  or_else (find_matching_phrase (dict_pop vc phrase_old) phrase_new phrase_old) phrase_new.

(** Three votes on two phrases: dogs 2, cats 1. *)
Definition three_votes : App :=
  run [StartVote 0; Chat "alice" "cats"; Chat "bob" "dogs"; Chat "carol" "dogs"] init.

(** ** The alphabet of phrases *)

(** A lower-case letter, a digit or a space. *)
Definition phrase_char (c : ascii) : bool :=
  (PyStr.is_lower_az c || PyStr.is_digit c || Ascii.eqb c " ")%bool.

(** No whitespace at either end. *)
Definition trimmed (l : list ascii) : Prop :=
  PyStr.dropwhile PyStr.isspace l = l /\ PyStr.dropwhile PyStr.isspace (rev l) = rev l.

(** ** Chat lines *)

(** [s[n:]] *)
Fixpoint drop (n : nat) (s : string) : string :=
  match n, s with
  | O, _ => s
  | S n', String _ s' => drop n' s'
  | S _, EmptyString => EmptyString
  end.

(** [s.split(sep, 1)] for a non-empty separator: [None] when [sep] does not
    occur (the list has one element), else the text before and after its
    first occurrence. *)
Fixpoint split_first (sep s : string) : option (string * string) :=
  if String.prefix sep s then Some (EmptyString, drop (String.length sep) s)
  else match s with
       | EmptyString => None
       | String c s' =>
           match split_first sep s' with
           | Some (a, b) => Some (String c a, b)
           | None => None
           end
       end.

(** [s.lstrip(":")] *)
Definition lstrip_colons (s : string) : string :=
  PyStr.str (PyStr.dropwhile (fun c => Ascii.eqb c ":") (PyStr.chars s)).

(** [TwitchIRCClient._parse_privmsg] *)
Definition parse_privmsg (raw_line : string) : string * string :=
  if (negb (PyStr.contains "PRIVMSG" raw_line) || negb (PyStr.contains "!" raw_line))%bool
  then ("", "")
  else
    let username :=
      PyStr.strip (lstrip_colons (match split_first "!" raw_line with
                                  | Some (before, _) => before
                                  | None => raw_line
                                  end)) in
    match split_first " PRIVMSG " raw_line with
    | None => ("", "")
    | Some (_, tail) =>
        match split_first " :" tail with
        | None => ("", "")
        | Some (_, message) => (username, PyStr.strip message)
        end
    end.

(** What the reader thread does with one complete line (lines 84-92). *)
Inductive line_action :=
| Skip
| Pong
| OnChat (username message : string).

Definition handle_line (line : string) : line_action :=
  if negb (PyStr.truthy line) then Skip
  else if PyStr.startswith "PING" line then Pong
  else if PyStr.contains "PRIVMSG" line
       then let '(username, message) := parse_privmsg line in
            if (PyStr.truthy username && PyStr.truthy message)%bool
            then OnChat username message else Skip
       else Skip.

(** No character of [s] is [c]. *)
Definition lacks (c : ascii) (s : string) : Prop := ~ In c (PyStr.chars s).


(** ** Export *)

Definition newline : ascii := ascii_of_nat 10.
Definition carriage_return : ascii := ascii_of_nat 13.

(** The decimal numeral of an integer. *)
Definition numeral (n : Z) : string :=
  match n with
  | Zneg p => ("-" ++ PyStr.str_of_nat (Pos.to_nat p))%string
  | _ => PyStr.str_of_nat (Z.to_nat n)
  end.

(** The number of its digits. *)
Definition digits_of (n : Z) : nat := PyStr.count_digits (PyStr.chars (numeral n)).

(** The integer can be written and read back: its numeral is within the
    interpreter's limit. *)
Definition printable (n : Z) : Prop := digits_of n <= PyStr.int_max_str_digits.

(** [str(n)] for an integer, also as an f-string does it; [None] stands for
    the [ValueError] raised for a numeral beyond the limit. *)
Definition str_of_Z (n : Z) : option string :=
  if Nat.ltb PyStr.int_max_str_digits (digits_of n) then None else Some (numeral n).

(** [(username, phrase)] pairs in the order Python gives tuples. *)
Definition pair_leb (x y : string * string) : bool :=
  match String.compare (fst x) (fst y) with
  | Lt => true
  | Gt => false
  | Eq => String.leb (snd x) (snd y)
  end.

(** A line and its newline, as one [f.write] puts it. *)
Definition write_line (line : string) : string := (line ++ String newline "")%string.

(** The sender votes the export writes: in sender order, those whose
    phrase is in the view. *)
Definition exported_user_votes (st : App) : dict string :=
  filter (fun e => dict_mem (get_top_votes st) (snd e))
         (sorted_by pair_leb (user_votes st)).

(** The loop that writes the [SEGMENT] lines: the strings written, and
    whether it ran to its end.  It does not when a count cannot be
    formatted. *)
Fixpoint write_segments (rows : list (string * Z)) : list string * bool :=
  match rows with
  | [] => ([], true)
  | (phrase, votes) :: rest =>
      match str_of_Z votes with
      | None => ([], false)
      | Some text =>
          let '(writes, completed) := write_segments rest in
          (write_line (segment_line phrase text) :: writes, completed)
      end
  end.

(** [export_segments], for a file that was chosen and could be opened: the
    strings it writes, one per [f.write], and whether it ran to its end.  (A
    cancelled dialog writes nothing; an [OSError] is shown in a dialog; the
    [ValueError] of a count that cannot be formatted is not caught, and
    leaves the file with what was written before.) *)
Definition export_segments (st : App) : list string * bool :=
  let top_votes := get_top_votes st in
  let '(segments, completed) := write_segments (sorted_by key_leb top_votes) in
  if completed
  then (write_line "# TWITCH_WHEEL_EXPORT_V2"
        :: segments
        ++ map (fun e => write_line (uservote_line (fst e) (snd e)))
               (exported_user_votes st),
        true)
  else (write_line "# TWITCH_WHEEL_EXPORT_V2" :: segments, false).

(** The text of a file after these writes. *)
Definition written (writes : list string) : string :=
  fold_right String.append "" writes.

(** Reading in text mode: a carriage return, alone or before a newline, is
    read as a newline. *)
Fixpoint read_text (after_cr : bool) (l : list ascii) : list ascii :=
  match l with
  | [] => []
  | c :: l' =>
      if Ascii.eqb c carriage_return then newline :: read_text true l'
      else if (Ascii.eqb c newline && after_cr)%bool then read_text false l'
           else c :: read_text false l'
  end.

(** [for raw in f]: the lines, each with its newline; the last one may have
    none. *)
Fixpoint lines_of (cur : list ascii) (l : list ascii) : list string :=
  match l with
  | [] => match cur with [] => [] | _ => [PyStr.str (rev cur)] end
  | c :: l' =>
      if Ascii.eqb c newline then PyStr.str (rev (c :: cur)) :: lines_of [] l'
      else lines_of (c :: cur) l'
  end.

Definition file_lines (content : string) : list string :=
  lines_of [] (read_text false (PyStr.chars content)).

(** No tab and no line break. *)
Definition plain (s : string) : Prop :=
  lacks tab s /\ lacks newline s /\ lacks carriage_return s.

(** A ledger an export file can hold: distinct keys, positive tallies with
    numerals within the interpreter's limit, phrases that normalizing leaves
    alone, sender names in the form [consume_vote] stores them and without
    tabs or line breaks. *)
Definition exportable (st : App) : Prop :=
  dict_wf (vote_counts st) /\ dict_wf (user_votes st)
  /\ tallies_positive (vote_counts st)
  /\ Forall printable (dict_values (vote_counts st))
  /\ Forall (fun p => normalize_phrase p = p /\ p <> "") (dict_keys (vote_counts st))
  /\ Forall (fun u => sender_of u = u /\ u <> "" /\ plain u) (dict_keys (user_votes st)).

(** Against the tally map [vc], each of [phrases] is matched to itself or
    to nothing. *)
Definition resolve_to_themselves (vc : dict Z) (phrases : list string) : Prop :=
  Forall (fun p => or_else (find_matching_phrase vc p "") p = p) phrases.

(** ** The reader's buffer *)

Definition crlf : string := String carriage_return (String newline "").

(** The inner loop of [run] (lines 82-84), the lines it takes off the
    buffer in order and the buffer it leaves:
    [while crlf in read_buffer: line, read_buffer = read_buffer.split(crlf, 1)].
    Every turn shortens the buffer; [fuel] bounds the number of turns. *)
Fixpoint drain (fuel : nat) (read_buffer : string) : list string * string :=
  match fuel with
  | O => ([], read_buffer)
  | S fuel' =>
      if PyStr.contains crlf read_buffer
      then match split_first crlf read_buffer with
           | Some (line, rest) =>
               let '(lines, buffer) := drain fuel' rest in (line :: lines, buffer)
           | None => ([], read_buffer)
           end
      else ([], read_buffer)
  end.

(** The buffer is drained with one turn for each of its characters at hand. *)
Definition take_lines (read_buffer : string) : list string * string :=
  drain (String.length read_buffer) read_buffer.

(** On bytes below 128, UTF-8 gives the characters with these codes. *)
Definition is_ascii (b : Byte.byte) : bool := N.ltb (Byte.to_N b) 128.

Definition ascii_text (data : list Byte.byte) : string := string_of_list_byte data.

(** What the program relies on for [bytes.decode("utf-8", errors="ignore")]:
    nothing, except where a statement names this property. *)
Definition decodes_ascii (decode : list Byte.byte -> string) : Prop :=
  forall data, forallb is_ascii data = true -> decode data = ascii_text data.

(** The outer loop over what [recv] returns, one list of bytes for each
    call that returns (a timeout is no packet): an empty one ends the loop
    (the server closed the connection); any other is decoded by itself, the
    text is appended to the buffer, and the buffer is drained.  [decode]
    stands for [bytes.decode("utf-8", errors="ignore")], which leaves out
    what is no valid UTF-8, so also the bytes of a character that the end of
    the packet cuts in two.  The result: all lines taken, and the buffer at
    the end. *)
Fixpoint receive (decode : list Byte.byte -> string) (read_buffer : string)
         (packets : list (list Byte.byte)) : list string * string :=
  match packets with
  | [] => ([], read_buffer)
  | data :: packets' =>
      match data with
      | [] => ([], read_buffer)
      | _ =>
          let '(lines, buffer) := take_lines (read_buffer ++ decode data) in
          let '(lines', buffer') := receive decode buffer packets' in
          (lines ++ lines', buffer')
      end
  end.

(** The text that [lines], each with its line end, and [buffer] make up. *)
Definition unsplit (lines : list string) (buffer : string) : string :=
  fold_right (fun line text => (line ++ crlf ++ text)%string) buffer lines.

(** A chat line that arrives in three packets, its line end cut in two. *)
Definition three_packets : list (list Byte.byte) :=
  map list_byte_of_string
      [":alice!alice@tmi PRIVMSG #wheel :piz";
       ("za" ++ String carriage_return "")%string;
       String newline "PING"].

(** A decoder for packets of ASCII, on which it agrees with UTF-8. *)
Definition ascii_only (data : list Byte.byte) : string :=
  ascii_text (filter is_ascii data).

(** ** Drawing the wheel *)






(** Facts about closed terms: evaluate the lists, then every element's
    property. *)
Ltac closed_fact :=
  repeat match goal with
         | |- _ /\ _ => split
         | |- Forall _ [] => constructor
         | |- Forall _ (_ :: _) => constructor; [cbv beta|]
         | |- Forall ?P ?l =>
             let l' := eval vm_compute in l in
             replace l with l' by (vm_compute; reflexivity)
         | |- NoDup [] => constructor
         | |- NoDup (_ :: _) => constructor
         | |- NoDup ?l =>
             let l' := eval vm_compute in l in
             replace l with l' by (vm_compute; reflexivity)
         | |- ~ _ => let H := fresh in intros H; vm_compute in H; intuition discriminate
         | |- _ = _ => vm_compute; reflexivity
         | |- (_ < _)%Z => reflexivity
         | |- (_ <= _)%nat => apply Nat.leb_le; vm_compute; reflexivity
         end.
(** ** Facts about dictionaries *)

Section DictFacts.
Context {V : Type}.
Implicit Types (d : dict V) (k : string) (v : V).

Lemma dict_get_In d k v : dict_get d k = Some v -> In (k, v) d.
Proof.
  induction d as [|[k' v'] d IH]; simpl; [discriminate|].
  destruct (String.eqb_spec k' k) as [->|Hne]; intros H.
  - injection H as ->. now left.
  - right. now apply IH.
Qed.

Lemma dict_get_None d k : dict_get d k = None <-> ~ In k (dict_keys d).
Proof.
  induction d as [|[k' v'] d IH]; simpl; [tauto|].
  destruct (String.eqb_spec k' k) as [->|Hne].
  - split; [discriminate|]. intros H. exfalso. apply H. now left.
  - rewrite IH. tauto.
Qed.

Lemma dict_mem_In d k : dict_mem d k = true <-> In k (dict_keys d).
Proof.
  unfold dict_mem. destruct (dict_get d k) eqn:E.
  - split; [intros _|reflexivity].
    apply dict_get_In in E. change k with (fst (k, v)). now apply in_map.
  - apply dict_get_None in E. split; [discriminate|tauto].
Qed.

Lemma In_dict_get d k v : dict_wf d -> In (k, v) d -> dict_get d k = Some v.
Proof.
  unfold dict_wf. induction d as [|[k' v'] d IH]; simpl; [tauto|].
  intros Hnd [H|H]; inversion Hnd as [|? ? Hnot Hnd']; subst.
  - injection H as -> ->. now rewrite String.eqb_refl.
  - destruct (String.eqb_spec k' k) as [->|Hne]; [|now apply IH].
    exfalso. apply Hnot. change k with (fst (k, v)). now apply in_map.
Qed.

Lemma dict_get_set_same d k v : dict_get (dict_set d k v) k = Some v.
Proof.
  induction d as [|[k' v'] d IH]; simpl.
  - now rewrite String.eqb_refl.
  - destruct (String.eqb_spec k' k) as [->|Hne]; simpl.
    + now rewrite String.eqb_refl.
    + destruct (String.eqb_spec k' k); [contradiction|exact IH].
Qed.

Lemma dict_get_set_other d k k' v : k <> k' -> dict_get (dict_set d k v) k' = dict_get d k'.
Proof.
  intros Hne. induction d as [|[k0 v0] d IH]; simpl.
  - destruct (String.eqb_spec k k'); [contradiction|reflexivity].
  - destruct (String.eqb_spec k0 k) as [->|Hk]; simpl.
    + destruct (String.eqb_spec k k'); [contradiction|reflexivity].
    + destruct (String.eqb_spec k0 k'); [reflexivity|exact IH].
Qed.

Lemma dict_get_pop_other d k k' : k <> k' -> dict_get (dict_pop d k) k' = dict_get d k'.
Proof.
  intros Hne. induction d as [|[k0 v0] d IH]; simpl; [reflexivity|].
  destruct (String.eqb_spec k0 k) as [->|Hk]; simpl.
  - destruct (String.eqb_spec k k'); [contradiction|reflexivity].
  - destruct (String.eqb_spec k0 k'); [reflexivity|exact IH].
Qed.

Lemma dict_keys_set d k v :
  dict_keys (dict_set d k v) =
  if dict_mem d k then dict_keys d else (dict_keys d ++ [k])%list.
Proof.
  unfold dict_mem. induction d as [|[k0 v0] d IH]; simpl; [reflexivity|].
  destruct (String.eqb_spec k0 k) as [->|Hk]; simpl; [reflexivity|].
  rewrite IH. now destruct (dict_get d k).
Qed.

Lemma dict_keys_pop d k : dict_keys (dict_pop d k) = remove_first k (dict_keys d).
Proof.
  induction d as [|[k0 v0] d IH]; simpl; [reflexivity|].
  destruct (String.eqb k0 k); simpl; [reflexivity|now rewrite IH].
Qed.

Lemma In_remove_first k x l : In x (remove_first k l) -> In x l.
Proof.
  induction l as [|y l IH]; simpl; [tauto|].
  destruct (String.eqb y k); simpl; tauto.
Qed.

Lemma NoDup_remove_first k l : NoDup l -> NoDup (remove_first k l).
Proof.
  induction 1 as [|y l Hnot Hnd IH]; simpl; [constructor|].
  destruct (String.eqb y k); [assumption|].
  constructor; [|assumption]. intros H. apply Hnot. eapply In_remove_first; eassumption.
Qed.

Lemma remove_first_not_In k l : NoDup l -> ~ In k (remove_first k l).
Proof.
  induction 1 as [|y l Hnot Hnd IH]; simpl; [tauto|].
  destruct (String.eqb_spec y k) as [->|Hne]; [assumption|].
  simpl. intros [H|H]; [contradiction|]. now apply IH.
Qed.

Lemma dict_wf_set d k v : dict_wf d -> dict_wf (dict_set d k v).
Proof.
  unfold dict_wf. rewrite dict_keys_set. intros H.
  destruct (dict_mem d k) eqn:E; [assumption|].
  apply NoDup_app; [assumption|repeat constructor; simpl; tauto|].
  intros x Hx [<-|[]]. apply dict_mem_In in Hx. congruence.
Qed.

Lemma dict_wf_pop d k : dict_wf d -> dict_wf (dict_pop d k).
Proof. unfold dict_wf. rewrite dict_keys_pop. apply NoDup_remove_first. Qed.

Lemma dict_get_pop_same d k : dict_wf d -> dict_get (dict_pop d k) k = None.
Proof.
  intros H. apply dict_get_None. rewrite dict_keys_pop. now apply remove_first_not_In.
Qed.

Lemma In_dict_set d k v e : In e (dict_set d k v) -> In e d \/ e = (k, v).
Proof.
  induction d as [|[k0 v0] d IH]; simpl.
  - intros [<-|[]]. now right.
  - destruct (String.eqb_spec k0 k) as [->|Hk]; simpl.
    + intros [<-|H]; [now right|left; now right].
    + intros [<-|H]; [left; now left|]. destruct (IH H); [left; now right|now right].
Qed.

Lemma In_dict_pop d k e : In e (dict_pop d k) -> In e d.
Proof.
  induction d as [|[k0 v0] d IH]; simpl; [tauto|].
  destruct (String.eqb k0 k); simpl; tauto.
Qed.

Lemma dict_of_items_acc (items acc : list (string * V)) :
  NoDup (dict_keys (acc ++ items)) ->
  fold_left (fun d kv => dict_set d (fst kv) (snd kv)) items acc = (acc ++ items)%list.
Proof.
  revert acc. induction items as [|[k v] items IH]; intros acc Hnd; simpl.
  - now rewrite app_nil_r.
  - assert (Hset : dict_set acc k v = (acc ++ [(k, v)])%list).
    { clear IH. induction acc as [|[k0 v0] acc IHa]; simpl; [reflexivity|].
      simpl in Hnd. inversion Hnd as [|? ? Hnot Hnd']; subst.
      destruct (String.eqb_spec k0 k) as [->|Hk].
      - exfalso. apply Hnot. unfold dict_keys. rewrite map_app, in_app_iff.
        right. now left.
      - f_equal. now apply IHa. }
    rewrite Hset, IH; rewrite <- app_assoc; [reflexivity|exact Hnd].
Qed.

(** Building a dictionary from items with distinct keys keeps the items. *)
Lemma dict_of_items_id (items : list (string * V)) :
  dict_wf items -> dict_of_items items = items.
Proof. intros H. unfold dict_of_items. now rewrite dict_of_items_acc. Qed.

Lemma In_dict_of_items_acc (items acc : list (string * V)) e :
  In e (fold_left (fun d kv => dict_set d (fst kv) (snd kv)) items acc) ->
  In e acc \/ In e items.
Proof.
  revert acc. induction items as [|[k v] items IH]; intros acc; simpl; [tauto|].
  intros H. apply IH in H. destruct H as [H|H]; [|tauto].
  apply In_dict_set in H. destruct H as [H| ->]; tauto.
Qed.

Lemma In_dict_of_items (items : list (string * V)) e :
  In e (dict_of_items items) -> In e items.
Proof. intros H. apply In_dict_of_items_acc in H. simpl in H. tauto. Qed.

Lemma dict_wf_of_items_acc (items acc : list (string * V)) :
  dict_wf acc -> dict_wf (fold_left (fun d kv => dict_set d (fst kv) (snd kv)) items acc).
Proof.
  revert acc. induction items as [|[k v] items IH]; intros acc H; simpl; [assumption|].
  apply IH. now apply dict_wf_set.
Qed.

Lemma dict_wf_of_items (items : list (string * V)) : dict_wf (dict_of_items items).
Proof. apply dict_wf_of_items_acc. constructor. Qed.
End DictFacts.

(** ** Facts about the matcher *)

Lemma truthy_true s : PyStr.truthy s = true <-> s <> "".
Proof. destruct s; simpl; split; congruence. Qed.

Lemma truthy_false s : PyStr.truthy s = false <-> s = "".
Proof. destruct s; simpl; split; congruence. Qed.

Lemma prefix_spec a b : String.prefix a b = true <-> exists post, b = (a ++ post)%string.
Proof.
  revert b. induction a as [|c a IH]; intros b; simpl.
  - destruct b; split; eauto.
  - destruct b as [|c' b]; simpl.
    + split; [discriminate|]. intros [post H]. discriminate.
    + destruct (ascii_dec c c') as [->|Hne].
      * rewrite IH. split; intros [post H]; exists post; congruence.
      * split; [discriminate|]. intros [post H]. congruence.
Qed.

(** [needle in hay] holds exactly when [needle] is a contiguous block of
    [hay]. *)
Lemma contains_spec a b : PyStr.contains a b = true <-> substring a b.
Proof.
  unfold substring. induction b as [|c b IH].
  - cbn [PyStr.contains]. rewrite orb_false_r, prefix_spec. split.
    + intros [post H]. exists "", post. exact H.
    + intros [pre [post H]]. destruct pre; simpl in H; [eauto|discriminate].
  - cbn [PyStr.contains]. rewrite orb_true_iff, prefix_spec, IH. split.
    + intros [[post H]|[pre [post H]]].
      * exists "", post. exact H.
      * exists (String c pre), post. simpl. now rewrite H.
    + intros [pre [post H]]. destruct pre as [|c' pre]; simpl in H.
      * left. eauto.
      * right. exists pre, post. congruence.
Qed.

Lemma ratio_ge_086_spec a b : Difflib.ratio_ge_086 a b = true <-> similar a b.
Proof.
  unfold Difflib.ratio_ge_086, similar.
  destruct (String.length a + String.length b) eqn:E.
  - split; [intros _; lia|reflexivity].
  - apply Nat.leb_le.
Qed.

Lemma qualifies_spec phrase existing :
  qualifies phrase existing = true <-> matches_phrase phrase existing.
Proof.
  unfold qualifies, matches_phrase.
  rewrite !orb_true_iff, String.eqb_eq, !contains_spec, ratio_ge_086_spec. tauto.
Qed.

Lemma qualifies_refl phrase : qualifies phrase phrase = true.
Proof. unfold qualifies. now rewrite String.eqb_refl. Qed.

Lemma excluded_spec ignore_phrase x :
  (PyStr.truthy ignore_phrase && String.eqb x ignore_phrase)%bool = true
  <-> excluded ignore_phrase x.
Proof. unfold excluded. now rewrite andb_true_iff, truthy_true, String.eqb_eq. Qed.

(** The loop is a search for the first phrase that passes [qualifies],
    the excluded phrase set aside. *)
Lemma first_match_step phrase ignore_phrase existing rest :
  first_match phrase ignore_phrase (existing :: rest) =
  if (PyStr.truthy ignore_phrase && String.eqb existing ignore_phrase)%bool
  then first_match phrase ignore_phrase rest
  else if qualifies phrase existing then Some existing
       else first_match phrase ignore_phrase rest.
Proof.
  unfold qualifies. simpl.
  destruct (PyStr.truthy ignore_phrase && String.eqb existing ignore_phrase)%bool; [reflexivity|].
  destruct (String.eqb phrase existing); [reflexivity|].
  destruct (PyStr.contains phrase existing || PyStr.contains existing phrase)%bool; [reflexivity|].
  now destruct (Difflib.ratio_ge_086 phrase existing).
Qed.

Lemma first_match_find phrase keys :
  first_match phrase "" keys = find (qualifies phrase) keys.
Proof.
  induction keys as [|x keys IH]; [reflexivity|].
  rewrite first_match_step. simpl. now rewrite IH.
Qed.

Lemma first_match_spec phrase ignore_phrase keys :
  match first_match phrase ignore_phrase keys with
  | Some e =>
      exists before after,
        keys = before ++ e :: after /\
        ~ excluded ignore_phrase e /\
        matches_phrase phrase e /\
        forall x, In x before -> excluded ignore_phrase x \/ ~ matches_phrase phrase x
  | None =>
      forall x, In x keys -> excluded ignore_phrase x \/ ~ matches_phrase phrase x
  end.
Proof.
  induction keys as [|x keys IH]; [simpl; tauto|].
  rewrite first_match_step.
  destruct (PyStr.truthy ignore_phrase && String.eqb x ignore_phrase)%bool eqn:Ex.
  - apply excluded_spec in Ex.
    destruct (first_match phrase ignore_phrase keys) as [e|].
    + destruct IH as (before & after & -> & Hne & Hm & Hb).
      exists (x :: before), after. repeat split; try assumption.
      intros y [<-|Hy]; [now left|now apply Hb].
    + intros y [<-|Hy]; [now left|now apply IH].
  - assert (Hnx : ~ excluded ignore_phrase x).
    { intros H. apply excluded_spec in H. congruence. }
    destruct (qualifies phrase x) eqn:Eq.
    + apply qualifies_spec in Eq. exists [], keys. simpl. tauto.
    + assert (Hnq : ~ matches_phrase phrase x).
      { intros H. apply qualifies_spec in H. congruence. }
      destruct (first_match phrase ignore_phrase keys) as [e|].
      * destruct IH as (before & after & -> & Hne & Hm & Hb).
        exists (x :: before), after. repeat split; try assumption.
        intros y [<-|Hy]; [now right|now apply Hb].
      * intros y [<-|Hy]; [now right|now apply IH].
Qed.

(** C5.  For a non-empty candidate, [find_matching_phrase] returns the first
    phrase of the tally map, in insertion order and leaving out the excluded
    phrase, that equals the candidate, contains it or is contained in it, or
    has a similarity ratio [2M/T] of at least 0.86; it returns [None] exactly
    when no phrase of the map qualifies. *)
Theorem find_matching_phrase_first_qualifying
        (vc : dict Z) (phrase ignore_phrase : string) (Hne : phrase <> "") :
  match find_matching_phrase vc phrase ignore_phrase with
  | Some e =>
      exists before after,
        dict_keys vc = before ++ e :: after /\
        ~ excluded ignore_phrase e /\
        matches_phrase phrase e /\
        forall x, In x before -> excluded ignore_phrase x \/ ~ matches_phrase phrase x
  | None =>
      forall x, In x (dict_keys vc) -> excluded ignore_phrase x \/ ~ matches_phrase phrase x
  end.
Proof.
  unfold find_matching_phrase.
  apply truthy_true in Hne. rewrite Hne. simpl.
  apply first_match_spec.
Qed.

Lemma find_matching_phrase_first_qualifying_witness :
  find_matching_phrase [("cats", 2%Z); ("pizza", 1%Z); ("pizzas", 4%Z)] "piza" "" = Some "pizza"
  /\ exists before after,
       dict_keys [("cats", 2%Z); ("pizza", 1%Z); ("pizzas", 4%Z)] = before ++ "pizza" :: after /\
       ~ excluded "" "pizza" /\
       matches_phrase "piza" "pizza" /\
       forall x, In x before -> excluded "" x \/ ~ matches_phrase "piza" x.
Proof.
  split; [reflexivity|].
  apply (find_matching_phrase_first_qualifying
           [("cats", 2%Z); ("pizza", 1%Z); ("pizzas", 4%Z)] "piza" "").
  discriminate.
Defined.

(** ** The voting window *)

Lemma Qle_bool_false x y : Qle_bool x y = false <-> (y < x)%Q.
Proof.
  split; intros H.
  - apply Qnot_le_lt. intros Hle. apply Qle_bool_iff in Hle. congruence.
  - destruct (Qle_bool x y) eqn:E; [|reflexivity].
    apply Qle_bool_iff in E. exfalso. eapply Qlt_not_le; eassumption.
Qed.

Lemma Qlt_bool_iff x y : Qlt_bool x y = true <-> (x < y)%Q.
Proof. unfold Qlt_bool. rewrite negb_true_iff. apply Qle_bool_false. Qed.

Lemma Qlt_bool_false x y : Qlt_bool x y = false <-> (y <= x)%Q.
Proof. unfold Qlt_bool. rewrite negb_false_iff. apply Qle_bool_iff. Qed.

Lemma Qfloor_nonpos x : (x <= 0)%Q -> (Qfloor x <= 0)%Z.
Proof.
  intros H. change 0%Z with (Qfloor 0). now apply Qfloor_resp_le.
Qed.

Lemma Qfloor_nonneg x : (0 <= x)%Q -> (0 <= Qfloor x)%Z.
Proof.
  intros H. change 0%Z with (Qfloor 0). now apply Qfloor_resp_le.
Qed.

Lemma Qtrunc_nonpos x : (x <= 0)%Q -> (Qtrunc x <= 0)%Z.
Proof.
  intros H. unfold Qtrunc. destruct (Qle_bool 0 x) eqn:E.
  - now apply Qfloor_nonpos.
  - apply Qle_bool_false in E.
    assert (0 <= Qfloor (- x))%Z; [|lia].
    apply Qfloor_nonneg. apply (Qopp_le_compat x 0) in H. exact H.
Qed.


Lemma consume_vote_closed st u m :
  voting_active st = false -> consume_vote u m st = st.
Proof. intros H. unfold consume_vote. now rewrite H. Qed.

Lemma update_timer_expired st t0 t1 :
  (t0 + VOTE_DURATION_SECONDS <= t1)%Q ->
  voting_active (update_timer t1 (start_vote t0 st)) = false.
Proof.
  intros H. unfold update_timer. cbn [start_vote with_voting voting_active vote_end_at].
  assert (Ht : (Qtrunc (t0 + VOTE_DURATION_SECONDS - t1) <= 0)%Z).
  { apply Qtrunc_nonpos. apply (Qplus_le_l _ _ t1). ring_simplify. exact H. }
  destruct (Z.max 0 (Qtrunc (t0 + VOTE_DURATION_SECONDS - t1)) <=? 0)%Z eqn:E.
  - reflexivity.
  - apply Z.leb_gt in E. lia.
Qed.

(** C10.  Chat votes reach the ledger only while a voting window is open.
    The window is closed in the initial state and after [stop_vote], after
    [clear_vote], and after a timer tick 120 seconds or more past
    [start_vote]; with the window closed, or with a sender name that is empty
    after trim and lower-casing, or with a message that normalizes to the
    empty string, [consume_vote] returns the state as it was. *)
Theorem chat_votes_need_open_window
        (st : App) (username message : string) (t0 t1 : Q)
        (Hexpired : (t0 + 120 <= t1)%Q) :
  voting_active init = false
  /\ voting_active (stop_vote st) = false
  /\ voting_active (clear_vote st) = false
  /\ voting_active (update_timer t1 (start_vote t0 st)) = false
  /\ (voting_active st = false
      \/ PyStr.lower (PyStr.strip username) = ""
      \/ normalize_phrase message = "" ->
      consume_vote username message st = st
      /\ vote_counts (consume_vote username message st) = vote_counts st
      /\ user_votes (consume_vote username message st) = user_votes st).
Proof.
  split; [reflexivity|].
  split; [unfold stop_vote; destruct (voting_active st) eqn:E; simpl; auto|].
  split; [reflexivity|].
  split; [now apply update_timer_expired|].
  intros H.
  assert (Hsame : consume_vote username message st = st).
  { unfold consume_vote. destruct (voting_active st); [cbn [negb]|reflexivity].
    destruct H as [H|[H|H]]; [discriminate| |].
    - rewrite H. reflexivity.
    - destruct (PyStr.truthy (PyStr.lower (PyStr.strip username))); [cbn [negb]|reflexivity].
      rewrite H. reflexivity. }
  rewrite Hsame. repeat split.
Qed.

Lemma chat_votes_need_open_window_witness :
  let st := consume_vote "alice" "cats" (start_vote 0 init) in
  voting_active (update_timer 120 (start_vote 0 st)) = false
  /\ consume_vote "bob" " ?! " st = st
  /\ consume_vote "  " "dogs" st = st
  /\ consume_vote "bob" "dogs" (stop_vote st) = stop_vote st.
Proof.
  cbv zeta.
  assert (H120 : (0 + 120 <= 120)%Q) by (vm_compute; discriminate).
  pose proof (chat_votes_need_open_window
                (consume_vote "alice" "cats" (start_vote 0 init)) "bob" " ?! " 0 120 H120) as H1.
  pose proof (chat_votes_need_open_window
                (consume_vote "alice" "cats" (start_vote 0 init)) "  " "dogs" 0 120 H120) as H2.
  pose proof (chat_votes_need_open_window
                (stop_vote (consume_vote "alice" "cats" (start_vote 0 init)))
                "bob" "dogs" 0 120 H120) as H3.
  destruct H1 as (_ & _ & _ & Ht & Hm).
  destruct H2 as (_ & _ & _ & _ & Hu).
  destruct H3 as (_ & _ & _ & _ & Hs).
  split; [exact Ht|].
  split; [apply Hm; right; right; reflexivity|].
  split; [apply Hu; right; left; reflexivity|].
  apply Hs. left. reflexivity.
Defined.

(** ** Idempotence of a repeated vote *)

Section FindFacts.
Variable f : string -> bool.

Lemma find_remove_first_some l t p :
  find f l = Some t -> t <> p -> find f (remove_first p l) = Some t.
Proof.
  induction l as [|x l IH]; simpl; [discriminate|].
  destruct (f x) eqn:Ex; intros H Hne.
  - injection H as ->. destruct (String.eqb_spec t p); [contradiction|].
    simpl. now rewrite Ex.
  - destruct (String.eqb x p); [assumption|]. simpl. rewrite Ex. now apply IH.
Qed.

Lemma find_remove_first_none l p :
  find f l = None -> find f (remove_first p l) = None.
Proof.
  induction l as [|x l IH]; simpl; [reflexivity|].
  destruct (f x) eqn:Ex; [discriminate|]. intros H.
  destruct (String.eqb x p); [assumption|]. simpl. rewrite Ex. now apply IH.
Qed.

Lemma find_app_some l l' t : find f l = Some t -> find f (l ++ l') = Some t.
Proof.
  induction l as [|x l IH]; simpl; [discriminate|].
  destruct (f x); [trivial|exact IH].
Qed.

Lemma find_app_none l l' : find f l = None -> find f (l ++ l') = find f l'.
Proof.
  induction l as [|x l IH]; simpl; [reflexivity|].
  destruct (f x); [discriminate|exact IH].
Qed.

Lemma find_none_not_In l x : find f l = None -> f x = true -> ~ In x l.
Proof.
  intros H Hx Hin. eapply find_none in H; [|exact Hin]. congruence.
Qed.
End FindFacts.

Lemma withdraw_keys prev vc :
  dict_keys (withdraw prev vc) = dict_keys vc
  \/ exists p, prev = Some p /\ p <> "" /\
               dict_keys (withdraw prev vc) = remove_first p (dict_keys vc).
Proof.
  unfold withdraw. destruct prev as [p|]; [|now left].
  destruct (PyStr.truthy p) eqn:Et; [|now left]. simpl.
  destruct (dict_mem vc p) eqn:Em; [|now left].
  assert (Hk : dict_keys (dict_set vc p (dict_get_or vc p 0 - 1)%Z) = dict_keys vc).
  { rewrite dict_keys_set. now rewrite Em. }
  destruct (dict_get_or _ p 0 <=? 0)%Z.
  - right. exists p. split; [reflexivity|]. split; [now apply truthy_true|].
    now rewrite dict_keys_pop, Hk.
  - now left.
Qed.

Lemma same_phrase_false prev target :
  same_phrase prev target = false -> prev <> Some target.
Proof.
  destruct prev as [p|]; simpl; [|discriminate].
  intros H Heq. injection Heq as ->. now rewrite String.eqb_refl in H.
Qed.

Lemma same_phrase_true prev target :
  same_phrase prev target = true <-> prev = Some target.
Proof.
  destruct prev as [p|]; simpl.
  - rewrite String.eqb_eq. split; congruence.
  - split; discriminate.
Qed.

(** After a vote went through, the same phrase resolves to the same target. *)
Lemma resolve_stable vc phrase prev v :
  PyStr.truthy phrase = true ->
  let target := or_else (find_matching_phrase vc phrase "") phrase in
  same_phrase prev target = false ->
  or_else (find_matching_phrase (dict_set (withdraw prev vc) target v) phrase "") phrase
  = target.
Proof.
  intros Hp target Hprev. subst target. revert Hprev.
  unfold find_matching_phrase. rewrite Hp. simpl.
  rewrite !first_match_find, dict_keys_set.
  set (keys := dict_keys vc). set (keys1 := dict_keys (withdraw prev vc)).
  assert (Hsub : forall x, In x keys1 -> In x keys).
  { intros x. subst keys keys1. destruct (withdraw_keys prev vc) as [->|(p & _ & _ & ->)];
      [trivial|apply In_remove_first]. }
  destruct (find (qualifies phrase) keys) as [t|] eqn:Ef.
  - (* a phrase of the map qualified *)
    intros Hprev.
    assert (Hf1 : find (qualifies phrase) keys1 = Some t).
    { subst keys keys1. destruct (withdraw_keys prev vc) as [->|(p & -> & Hpne & ->)];
        [exact Ef|].
      apply find_remove_first_some; [exact Ef|].
      intros ->. simpl in Hprev. destruct (PyStr.truthy p) eqn:Et.
      - simpl in Hprev. now rewrite String.eqb_refl in Hprev.
      - apply truthy_false in Et. contradiction. }
    destruct (dict_mem (withdraw prev vc) (or_else (Some t) phrase)).
    + fold keys1. now rewrite Hf1.
    + fold keys1. erewrite find_app_some by exact Hf1. reflexivity.
  - (* nothing qualified: the phrase itself becomes the key *)
    intros _. simpl.
    assert (Hf1 : find (qualifies phrase) keys1 = None).
    { subst keys keys1. destruct (withdraw_keys prev vc) as [->|(p & _ & _ & ->)];
        [exact Ef|now apply find_remove_first_none]. }
    assert (Hnot : dict_mem (withdraw prev vc) phrase = false).
    { destruct (dict_mem (withdraw prev vc) phrase) eqn:Em; [|reflexivity].
      apply dict_mem_In in Em. exfalso.
      eapply find_none_not_In; [exact Hf1|apply qualifies_refl|exact Em]. }
    rewrite Hnot. fold keys1. rewrite find_app_none by exact Hf1.
    simpl. rewrite qualifies_refl. simpl. now destruct (PyStr.truthy phrase).
Qed.

Lemma refresh_voting st : voting_active (refresh_table_from_votes st) = voting_active st.
Proof. reflexivity. Qed.

Lemma refresh_vote_counts st : vote_counts (refresh_table_from_votes st) = vote_counts st.
Proof. reflexivity. Qed.

Lemma refresh_user_votes st : user_votes (refresh_table_from_votes st) = user_votes st.
Proof. reflexivity. Qed.

Lemma refresh_tree st :
  tree (refresh_table_from_votes st) = dict_of_items (sorted_by key_leb (vote_counts st)).
Proof. reflexivity. Qed.

(** The body of [consume_vote], for rewriting. *)
Lemma consume_vote_unfold username message st :
  consume_vote username message st =
  if negb (voting_active st) then st
  else
    let username := PyStr.lower (PyStr.strip username) in
    if negb (PyStr.truthy username) then st
    else
      let phrase := normalize_phrase message in
      if negb (PyStr.truthy phrase) then st
      else
        let target_phrase := or_else (find_matching_phrase (vote_counts st) phrase "") phrase in
        let previous_phrase := dict_get (user_votes st) username in
        if same_phrase previous_phrase target_phrase then st
        else
          let vc := withdraw previous_phrase (vote_counts st) in
          let vc := dict_set vc target_phrase (dict_get_or vc target_phrase 0 + 1)%Z in
          let uv := dict_set (user_votes st) username target_phrase in
          refresh_table_from_votes (with_ledger vc uv st).
Proof. reflexivity. Qed.

(** C8.  Applying the same (sender, message) vote twice in a row changes the
    ledger once: the second call finds the sender already on the resolved
    target and returns the state unchanged. *)
Theorem consume_vote_idempotent (st : App) (username message : string) :
  let st1 := consume_vote username message st in
  consume_vote username message st1 = st1
  /\ vote_counts (consume_vote username message st1) = vote_counts st1
  /\ user_votes (consume_vote username message st1) = user_votes st1.
Proof.
  cbv zeta.
  assert (H : consume_vote username message (consume_vote username message st)
              = consume_vote username message st); [|rewrite H; repeat split].
  rewrite (consume_vote_unfold username message st).
  destruct (voting_active st) eqn:Ea; cbn [negb];
    [|now apply consume_vote_closed].
  cbv zeta.
  set (user := PyStr.lower (PyStr.strip username)).
  set (phrase := normalize_phrase message).
  destruct (PyStr.truthy user) eqn:Eu; cbn [negb].
  2:{ rewrite consume_vote_unfold, Ea. cbn [negb]. cbv zeta. fold user.
      rewrite Eu. reflexivity. }
  destruct (PyStr.truthy phrase) eqn:Ep; cbn [negb].
  2:{ rewrite consume_vote_unfold, Ea. cbn [negb]. cbv zeta. fold user phrase.
      rewrite Eu, Ep. reflexivity. }
  set (target := or_else (find_matching_phrase (vote_counts st) phrase "") phrase).
  set (prev := dict_get (user_votes st) user).
  destruct (same_phrase prev target) eqn:Es.
  - (* already on the target: both calls return at once *)
    rewrite consume_vote_unfold, Ea. cbn [negb]. cbv zeta. fold user phrase.
    rewrite Eu, Ep. cbn [negb]. fold target prev. rewrite Es. reflexivity.
  - (* the first call moved the vote *)
    rewrite consume_vote_unfold.
    rewrite refresh_voting, refresh_vote_counts, refresh_user_votes.
    cbn [with_ledger voting_active vote_counts user_votes].
    rewrite Ea. cbn [negb]. cbv zeta. fold user phrase. rewrite Eu, Ep. cbn [negb].
    fold target.
    pose proof (resolve_stable (vote_counts st) phrase prev
                  (dict_get_or (withdraw prev (vote_counts st)) target 0 + 1)%Z Ep Es) as Hst.
    fold target in Hst. rewrite Hst.
    rewrite dict_get_set_same. cbn [same_phrase].
    rewrite String.eqb_refl. reflexivity.
Qed.

(** ** Sorting *)

Section SortFacts.
Context {A : Type} (leb : A -> A -> bool).

Hypothesis leb_total : forall x y, leb x y = false -> leb y x = true.
Hypothesis leb_trans : forall x y z, (holds leb) x y -> (holds leb) y z -> (holds leb) x z.
Hypothesis leb_antisym : forall x y, (holds leb) x y -> (holds leb) y x -> x = y.

Lemma insert_by_perm x l : Permutation (insert_by leb x l) (x :: l).
Proof.
  induction l as [|y l IH]; simpl; [reflexivity|].
  destruct (leb x y); [reflexivity|].
  rewrite IH. apply perm_swap.
Qed.

Lemma sorted_by_perm l : Permutation (sorted_by leb l) l.
Proof.
  induction l as [|x l IH]; simpl; [reflexivity|].
  rewrite insert_by_perm. now constructor.
Qed.

Lemma insert_by_sorted x l : Sorted (holds leb) l -> Sorted (holds leb) (insert_by leb x l).
Proof.
  induction 1 as [|y l Hs IH Hhd]; simpl; [repeat constructor|].
  destruct (leb x y) eqn:E.
  - constructor; [now constructor|]. now constructor.
  - constructor; [exact IH|].
    destruct l as [|z l]; simpl.
    + constructor. now apply leb_total.
    + destruct (leb x z); constructor; [now apply leb_total|].
      now inversion Hhd.
Qed.

Lemma sorted_by_sorted l : StronglySorted (holds leb) (sorted_by leb l).
Proof.
  apply Sorted_StronglySorted; [exact leb_trans|].
  induction l as [|x l IH]; simpl; [constructor|now apply insert_by_sorted].
Qed.

(** A list has one sorted arrangement. *)
Lemma sorted_unique l1 l2 :
  StronglySorted (holds leb) l1 -> StronglySorted (holds leb) l2 -> Permutation l1 l2 -> l1 = l2.
Proof.
  intros H1. revert l2. induction H1 as [|a l1 Hs1 IH Ha]; intros l2 H2 Hp.
  - apply Permutation_nil in Hp. now subst.
  - destruct H2 as [|b l2 Hs2 Hb].
    + apply Permutation_sym, Permutation_nil in Hp. discriminate.
    + assert (Hab : a = b).
      { assert (Hin_a : In a (b :: l2)) by (eapply Permutation_in; [exact Hp|now left]).
        assert (Hin_b : In b (a :: l1))
          by (eapply Permutation_in; [apply Permutation_sym; exact Hp|now left]).
        destruct Hin_a as [->|Hin_a]; [reflexivity|].
        destruct Hin_b as [->|Hin_b]; [reflexivity|].
        rewrite Forall_forall in Ha, Hb.
        apply leb_antisym; [now apply Ha|now apply Hb]. }
      subst b. f_equal. apply IH; [assumption|].
      eapply Permutation_cons_inv; eassumption.
Qed.
End SortFacts.

Lemma ascii_compare_refl c : Ascii.compare c c = Eq.
Proof. unfold Ascii.compare. apply N.compare_refl. Qed.

Lemma string_compare_lt_trans a b c :
  String.compare a b = Lt -> String.compare b c = Lt -> String.compare a c = Lt.
Proof.
  revert b c. induction a as [|x a IH]; intros [|y b] [|z c]; simpl; try congruence.
  destruct (Ascii.compare x y) eqn:Exy; destruct (Ascii.compare y z) eqn:Eyz;
    try discriminate; intros H1 H2.
  - apply Ascii.compare_eq_iff in Exy, Eyz. subst.
    rewrite ascii_compare_refl. eauto.
  - apply Ascii.compare_eq_iff in Exy. subst. now rewrite Eyz.
  - apply Ascii.compare_eq_iff in Eyz. subst. now rewrite Exy.
  - unfold Ascii.compare in *. rewrite N.compare_lt_iff in *.
    assert (Hlt : (N_of_ascii x < N_of_ascii z)%N) by lia.
    apply N.compare_lt_iff in Hlt. now rewrite Hlt.
Qed.

Lemma string_leb_trans a b c :
  String.leb a b = true -> String.leb b c = true -> String.leb a c = true.
Proof.
  unfold String.leb.
  destruct (String.compare a b) eqn:Eab; [|
    |discriminate].
  - apply String.compare_eq_iff in Eab. now subst.
  - destruct (String.compare b c) eqn:Ebc; [| |discriminate]; intros _ _.
    + apply String.compare_eq_iff in Ebc. subst. now rewrite Eab.
    + now rewrite (string_compare_lt_trans a b c).
Qed.

Lemma key_leb_spec x y : key_leb x y = true <-> key_le x y.
Proof.
  unfold key_leb, key_le.
  now rewrite orb_true_iff, andb_true_iff, Z.ltb_lt, Z.eqb_eq.
Qed.

Lemma key_leb_total x y : key_leb x y = false -> key_leb y x = true.
Proof.
  intros H. apply key_leb_spec.
  assert (Hn : ~ key_le x y) by (rewrite <- key_leb_spec; congruence).
  unfold key_le in *.
  destruct (Z.lt_trichotomy (snd x) (snd y)) as [Hlt|[Heq|Hgt]]; [now left| |tauto].
  right. split; [congruence|].
  destruct (String.leb_total (fst x) (fst y)); tauto.
Qed.

Lemma key_leb_trans x y z :
  key_leb x y = true -> key_leb y z = true -> key_leb x z = true.
Proof.
  rewrite !key_leb_spec. unfold key_le.
  intros [H1|[H1 L1]] [H2|[H2 L2]]; try (left; lia).
  right. split; [congruence|]. eapply string_leb_trans; eassumption.
Qed.

Lemma key_leb_antisym x y :
  key_leb x y = true -> key_leb y x = true -> x = y.
Proof.
  rewrite !key_leb_spec. unfold key_le.
  intros [H1|[H1 L1]] [H2|[H2 L2]]; try lia.
  destruct x, y; simpl in *. f_equal; [now apply String.leb_antisym|assumption].
Qed.

Lemma StronglySorted_key_le l :
  StronglySorted key_le l <-> StronglySorted (holds key_leb) l.
Proof.
  split; induction 1 as [|a l Hs IH Ha]; constructor; try assumption;
    (eapply Forall_impl; [|exact Ha]); intros b Hb; now apply key_leb_spec.
Qed.

Lemma In_firstn {A : Type} n (l : list A) x : In x (firstn n l) -> In x l.
Proof.
  revert n. induction l as [|y l IH]; intros [|n]; simpl; try tauto.
  intros [H|H]; [now left|right; eapply IH; exact H].
Qed.

Lemma firstn_NoDup {A : Type} n (l : list A) : NoDup l -> NoDup (firstn n l).
Proof.
  intros H. revert n. induction H as [|x l Hnot Hnd IH]; intros [|n]; simpl; try constructor.
  - intros Hin. apply Hnot. eapply In_firstn; eassumption.
  - apply IH.
Qed.

Lemma slice_to_nonneg {A : Type} (l : list A) k :
  (0 <= k)%Z -> slice_to l k = firstn (Z.to_nat k) l.
Proof. intros H. unfold slice_to. apply Z.leb_le in H. now rewrite H. Qed.

Lemma top_votes_firstn vc k :
  dict_wf vc -> (0 <= k)%Z ->
  top_votes vc k = firstn (Z.to_nat k) (sorted_by key_leb vc).
Proof.
  intros Hwf Hk. unfold top_votes. rewrite slice_to_nonneg by assumption.
  apply dict_of_items_id. unfold dict_wf, dict_keys.
  rewrite <- firstn_map. apply firstn_NoDup.
  eapply Permutation_NoDup; [|exact Hwf].
  apply Permutation_sym, Permutation_map, sorted_by_perm.
Qed.

Lemma max_phrases_ge_1 st : (1 <= max_phrases st)%Z.
Proof. unfold max_phrases. lia. Qed.

(** C7.  For a tally map and K >= 1 the top-K view is the list of the
    entries sorted by count descending, then phrase ascending, cut to its
    first K entries: it is the K-prefix of every arrangement of the entries
    that is sorted in this order (so the view is determined by the entries and
    K alone); [get_top_votes] is this view at K = max(1, safe_int(...)); and
    the tally a:3, b:3, c:1 with K = 2 gives [(a,3); (b,3)] whatever the
    insertion order. *)
Theorem top_votes_is_sorted_prefix (vc : dict Z) (k : Z)
        (Hwf : dict_wf vc) (Hk : (1 <= k)%Z) :
  top_votes vc k = firstn (Z.to_nat k) (sorted_by key_leb vc)
  /\ Permutation (sorted_by key_leb vc) vc
  /\ StronglySorted key_le (sorted_by key_leb vc)
  /\ (forall l, Permutation l vc -> StronglySorted key_le l ->
                top_votes vc k = firstn (Z.to_nat k) l)
  /\ (forall st, vote_counts st = vc -> max_phrases st = k ->
                 get_top_votes st = top_votes vc k)
  /\ (Permutation vc [("a", 3%Z); ("b", 3%Z); ("c", 1%Z)] ->
      top_votes vc 2 = [("a", 3%Z); ("b", 3%Z)]).
Proof.
  assert (Hsorted : StronglySorted key_le (sorted_by key_leb vc)).
  { apply StronglySorted_key_le, sorted_by_sorted;
      [exact key_leb_total|exact key_leb_trans]. }
  assert (Huniq : forall l, Permutation l vc -> StronglySorted key_le l ->
                            sorted_by key_leb vc = l).
  { intros l Hp Hs. apply (sorted_unique key_leb key_leb_antisym).
    - now apply StronglySorted_key_le.
    - now apply StronglySorted_key_le.
    - rewrite sorted_by_perm. now apply Permutation_sym. }
  split; [apply top_votes_firstn; [assumption|lia]|].
  split; [apply sorted_by_perm|].
  split; [exact Hsorted|].
  split.
  { intros l Hp Hs. rewrite top_votes_firstn by (assumption || lia).
    now rewrite (Huniq l Hp Hs). }
  split.
  { intros st <- <-. reflexivity. }
  intros Hp. rewrite top_votes_firstn by (assumption || lia).
  rewrite (Huniq [("a", 3%Z); ("b", 3%Z); ("c", 1%Z)]).
  - reflexivity.
  - now apply Permutation_sym.
  - apply StronglySorted_key_le.
    repeat constructor.
Qed.

Lemma top_votes_is_sorted_prefix_witness :
  top_votes [("c", 1%Z); ("b", 3%Z); ("a", 3%Z)] 2 = [("a", 3%Z); ("b", 3%Z)]
  /\ top_votes [("a", 3%Z); ("b", 3%Z); ("c", 1%Z)] 2 = [("a", 3%Z); ("b", 3%Z)].
Proof.
  assert (Hwf1 : dict_wf [("c", 1%Z); ("b", 3%Z); ("a", 3%Z)]).
  { unfold dict_wf. simpl. repeat constructor; simpl; intuition discriminate. }
  assert (Hwf2 : dict_wf [("a", 3%Z); ("b", 3%Z); ("c", 1%Z)]).
  { unfold dict_wf. simpl. repeat constructor; simpl; intuition discriminate. }
  assert (Hk : (1 <= 2)%Z) by lia.
  split.
  - apply (top_votes_is_sorted_prefix [("c", 1%Z); ("b", 3%Z); ("a", 3%Z)] 2 Hwf1 Hk).
    apply Permutation_rev.
  - apply (top_votes_is_sorted_prefix [("a", 3%Z); ("b", 3%Z); ("c", 1%Z)] 2 Hwf2 Hk).
    apply Permutation_refl.
Defined.

(** ** The view draws on the tally map *)

Lemma In_slice_to {A : Type} (l : list A) k x : In x (slice_to l k) -> In x l.
Proof. unfold slice_to. destruct (0 <=? k)%Z; apply In_firstn. Qed.

Lemma In_top_votes vc k e : In e (top_votes vc k) -> In e vc.
Proof.
  intros H. apply In_dict_of_items, In_slice_to in H.
  eapply Permutation_in; [apply sorted_by_perm|exact H].
Qed.

Lemma sum_Z_zero l :
  Forall (fun v => (0 <= v)%Z) l -> sum_Z l = 0%Z ->
  existsb (fun v => (0 <? v)%Z) l = false.
Proof.
  induction 1 as [|v l Hv Hl IH]; simpl; [reflexivity|].
  intros Hs.
  assert (Hrest : (0 <= sum_Z l)%Z).
  { clear -Hl. induction Hl; simpl; [lia|]. unfold sum_Z in *. simpl. lia. }
  unfold sum_Z in *. simpl in Hs.
  assert (v = 0%Z) by lia. subst v. simpl. apply IH. lia.
Qed.

Lemma sum_Z_pos l :
  (0 < sum_Z l)%Z -> existsb (fun v => (0 <? v)%Z) l = true.
Proof.
  induction l as [|v l IH]; unfold sum_Z; simpl; [lia|].
  intros Hs. destruct (0 <? v)%Z eqn:E; [reflexivity|]. simpl.
  apply Z.ltb_ge in E. apply IH. unfold sum_Z. lia.
Qed.

(** C9.  With no negative tally in the ledger, a spin request made while the
    top-K view has total weight zero changes nothing (rotation, velocity and
    spinning flag included) and is answered by the "No segments" dialog, not
    by an exception; with a positive total it adds the impulse to the
    velocity (capped at 120), sets the spinning flag and shows no dialog. *)
Theorem spin_wheel_needs_weight (st : App) (impulse : Q)
        (Hnonneg : Forall (fun e => (0 <= snd e)%Z) (vote_counts st)) :
  let total := sum_Z (dict_values (get_top_votes st)) in
  (total = 0%Z ->
   spin_wheel impulse st = (st, Some no_segments_dialog))
  /\ ((0 < total)%Z ->
      let st' := fst (spin_wheel impulse st) in
      snd (spin_wheel impulse st) = None
      /\ spinning st' = true
      /\ spin_velocity st' = py_min (spin_velocity st + impulse) 120
      /\ rotation st' = rotation st
      /\ vote_counts st' = vote_counts st
      /\ user_votes st' = user_votes st).
Proof.
  cbv zeta. split.
  - intros Hz. unfold spin_wheel. rewrite sum_Z_zero; [reflexivity| |exact Hz].
    unfold dict_values. apply Forall_map. apply Forall_forall. intros e He.
    apply In_top_votes in He. rewrite Forall_forall in Hnonneg. now apply Hnonneg.
  - intros Hp. unfold spin_wheel. rewrite sum_Z_pos by exact Hp. simpl. tauto.
Qed.

Lemma spin_wheel_needs_weight_witness :
  spin_wheel 20 init = (init, Some no_segments_dialog)
  /\ spinning (fst (spin_wheel 20 (run [StartVote 0; Chat "alice" "cats"] init))) = true.
Proof.
  split.
  - apply (spin_wheel_needs_weight init 20); [constructor|reflexivity].
  - apply (spin_wheel_needs_weight (run [StartVote 0; Chat "alice" "cats"] init) 20).
    + repeat constructor. simpl. lia.
    + reflexivity.
Defined.

(** ** Rotation *)

Lemma mod360_in_turn x : in_turn (mod360 x).
Proof.
  unfold in_turn, mod360.
  pose proof (Qfloor_le (x / 360)) as Hlo.
  pose proof (Qlt_floor (x / 360)) as Hhi.
  rewrite inject_Z_plus in Hhi.
  assert (Hx : (x == 360 * (x / 360))%Q) by (field; discriminate).
  set (f := inject_Z (Qfloor (x / 360))) in *.
  set (y := (x / 360)%Q) in *.
  change (inject_Z 1) with 1%Q in Hhi.
  split; lra.
Qed.

(** C3, as stated, fails for [App.rotation]: 21 ticks after a spin of
    impulse 20 the stored angle has passed 360. *)
Lemma rotation_not_wrapped :
  ~ in_turn (rotation (run (repeat SpinTick 21) spun_once)).
Proof.
  unfold in_turn. intros [_ H]. apply Qlt_bool_iff in H.
  vm_compute in H. discriminate.
Qed.

(** C3, amended.  A tick that moves the wheel stores the accumulated angle
    in [App.rotation] as it is and its value modulo 360 in the wheel canvas;
    a tick that does not move it leaves both as they were.  So it is the
    canvas rotation that stays in [[0, 360)]. *)
Theorem canvas_rotation_wrapped (st : App)
        (Hin : in_turn (canvas_rotation (wheel_canvas st))) :
  let st' := update_spin_state st in
  in_turn (canvas_rotation (wheel_canvas st'))
  /\ (spinning st = true \/ (0 < spin_velocity st)%Q ->
      rotation st' = (rotation st + spin_velocity st)%Q
      /\ canvas_rotation (wheel_canvas st') = mod360 (rotation st'))
  /\ (spinning st = false /\ (spin_velocity st <= 0)%Q ->
      rotation st' = rotation st
      /\ canvas_rotation (wheel_canvas st') = canvas_rotation (wheel_canvas st)).
Proof.
  cbv zeta.
  assert (Hmove : spinning st = true \/ (0 < spin_velocity st)%Q ->
                  rotation (update_spin_state st) = (rotation st + spin_velocity st)%Q
                  /\ canvas_rotation (wheel_canvas (update_spin_state st))
                     = mod360 (rotation (update_spin_state st))).
  { intros H. unfold update_spin_state.
    assert (E : (spinning st || Qlt_bool 0 (spin_velocity st))%bool = true).
    { apply orb_true_iff. destruct H as [H|H]; [now left|right; now apply Qlt_bool_iff]. }
    rewrite E. destruct (Qlt_bool (spin_velocity st * (985 # 1000)) (5 # 100)); now simpl. }
  assert (Hstay : spinning st = false /\ (spin_velocity st <= 0)%Q ->
                  rotation (update_spin_state st) = rotation st
                  /\ canvas_rotation (wheel_canvas (update_spin_state st))
                     = canvas_rotation (wheel_canvas st)).
  { intros [Hs Hv]. unfold update_spin_state. apply Qlt_bool_false in Hv.
    rewrite Hs, Hv. now simpl. }
  split; [|split; [exact Hmove|exact Hstay]].
  destruct (spinning st) eqn:Es.
  - destruct Hmove as [_ ->]; [now left|apply mod360_in_turn].
  - destruct (Qlt_le_dec 0 (spin_velocity st)) as [Hv|Hv].
    + destruct Hmove as [_ ->]; [now right|apply mod360_in_turn].
    + destruct Hstay as [_ ->]; [now split|exact Hin].
Qed.

Lemma canvas_rotation_wrapped_witness :
  let st := run (repeat SpinTick 20) spun_once in
  in_turn (canvas_rotation (wheel_canvas (update_spin_state st)))
  /\ canvas_rotation (wheel_canvas (update_spin_state st))
     = mod360 (rotation (update_spin_state st)).
Proof.
  cbv zeta.
  assert (Hin : in_turn (canvas_rotation (wheel_canvas (run (repeat SpinTick 20) spun_once)))).
  { unfold in_turn. rewrite <- Qle_bool_iff, <- Qlt_bool_iff. split; vm_compute; reflexivity. }
  destruct (canvas_rotation_wrapped (run (repeat SpinTick 20) spun_once) Hin)
    as (H1 & H2 & _).
  split; [exact H1|].
  apply H2. left. vm_compute. reflexivity.
Defined.

(** ** The pointer *)



Lemma sum_values_cons (p : string) (v : Z) (d : dict Z) :
  sum_Z (dict_values ((p, v) :: d)) = (v + sum_Z (dict_values d))%Z.
Proof. reflexivity. Qed.

(** *** Rounding keeps the sign *)








(** *** The scan *)


Section Scan.
Variables (uv : dict string) (total : Z) (w : Q).


End Scan.





(** ** Tallies stay positive *)

Lemma tally_nonneg (d : dict Z) k : tallies_positive d -> (0 <= tally d k)%Z.
Proof.
  intros H. unfold tally, dict_get_or. destruct (dict_get d k) as [v|] eqn:E; [|lia].
  apply dict_get_In in E. unfold tallies_positive in H. rewrite Forall_forall in H.
  specialize (H _ E). simpl in H. lia.
Qed.

Lemma positive_incl (d d' : list (string * Z)) :
  (forall e, In e d' -> In e d) -> tallies_positive d -> tallies_positive d'.
Proof.
  unfold tallies_positive. rewrite !Forall_forall. intros Hin H e He. apply H, Hin, He.
Qed.

Lemma positive_set (d : dict Z) k v :
  tallies_positive d -> (0 < v)%Z -> tallies_positive (dict_set d k v).
Proof.
  unfold tallies_positive. rewrite !Forall_forall. intros H Hv e He.
  apply In_dict_set in He. destruct He as [He| ->]; [now apply H|exact Hv].
Qed.

Lemma positive_pop (d : dict Z) k : tallies_positive d -> tallies_positive (dict_pop d k).
Proof. apply positive_incl. intros e. apply In_dict_pop. Qed.

(** [pop] right after an assignment to the same key removes what was assigned. *)
Lemma In_pop_set {V : Type} (d : dict V) k v e :
  In e (dict_pop (dict_set d k v) k) -> In e d.
Proof.
  induction d as [|[k' v'] d IH]; simpl.
  - rewrite String.eqb_refl. tauto.
  - destruct (String.eqb_spec k' k) as [->|Hne]; simpl.
    + rewrite String.eqb_refl. tauto.
    + destruct (String.eqb_spec k' k); [contradiction|]. simpl. tauto.
Qed.

(** Assign, then drop the entry if what was assigned is not positive. *)
Lemma positive_set_or_pop (d : dict Z) k v :
  tallies_positive d ->
  tallies_positive
    (if (dict_get_or (dict_set d k v) k 0 <=? 0)%Z
     then dict_pop (dict_set d k v) k else dict_set d k v).
Proof.
  intros H. unfold dict_get_or. rewrite dict_get_set_same.
  destruct (v <=? 0)%Z eqn:E.
  - eapply positive_incl; [|exact H]. intros e. apply In_pop_set.
  - apply positive_set; [exact H|]. apply Z.leb_gt in E. exact E.
Qed.

Lemma positive_withdraw prev vc : tallies_positive vc -> tallies_positive (withdraw prev vc).
Proof.
  intros H. unfold withdraw. destruct prev as [p|]; [|exact H].
  destruct (PyStr.truthy p && dict_mem vc p)%bool; [|exact H].
  now apply positive_set_or_pop.
Qed.

Lemma positive_sorted (vc : dict Z) :
  tallies_positive vc -> tallies_positive (dict_of_items (sorted_by key_leb vc)).
Proof.
  apply positive_incl. intros e He. apply In_dict_of_items in He.
  eapply Permutation_in; [apply sorted_by_perm|exact He].
Qed.

(** The ledger and the table after [refresh_table_from_votes]. *)
Lemma positive_refresh st :
  tallies_positive (vote_counts st) ->
  tallies_positive (vote_counts (refresh_table_from_votes st))
  /\ tallies_positive (tree (refresh_table_from_votes st)).
Proof.
  intros H. rewrite refresh_vote_counts, refresh_tree. split; [exact H|now apply positive_sorted].
Qed.

Lemma positive_consume_vote u m st :
  tallies_positive (vote_counts st) -> tallies_positive (tree st) ->
  tallies_positive (vote_counts (consume_vote u m st))
  /\ tallies_positive (tree (consume_vote u m st)).
Proof.
  intros Hvc Htree. rewrite consume_vote_unfold. cbv zeta.
  destruct (negb (voting_active st)); [now split|].
  destruct (negb (PyStr.truthy (PyStr.lower (PyStr.strip u)))); [now split|].
  destruct (negb (PyStr.truthy (normalize_phrase m))); [now split|].
  destruct (same_phrase _ _); [now split|].
  apply positive_refresh. cbn [with_ledger vote_counts].
  apply positive_set; [now apply positive_withdraw|].
  pose proof (tally_nonneg (withdraw (dict_get (user_votes st) (PyStr.lower (PyStr.strip u)))
                                     (vote_counts st))
                           (or_else (find_matching_phrase (vote_counts st)
                                       (normalize_phrase m) "") (normalize_phrase m))
                           (positive_withdraw _ _ Hvc)) as Hn.
  unfold tally in Hn. lia.
Qed.

Lemma add_or_update_unfold new_phrase new_votes st :
  add_or_update_segment new_phrase new_votes st =
  let phrase := normalize_phrase new_phrase in
  let votes := safe_int new_votes 1 in
  if negb (PyStr.truthy phrase) then st
  else
    let vc := vote_counts st in
    let '(vc, target_phrase) :=
      match find_matching_phrase vc phrase "" with
      | Some m =>
          if (PyStr.truthy m && negb (String.eqb m phrase))%bool
          then (dict_set vc m (Z.max 0 (dict_get_or vc m 0 + votes))%Z, m)
          else (dict_set vc phrase (Z.max 0 votes)%Z, phrase)
      | None => (dict_set vc phrase (Z.max 0 votes)%Z, phrase)
      end in
    let vc := if (dict_get_or vc target_phrase 0 <=? 0)%Z then dict_pop vc target_phrase else vc in
    refresh_table_from_votes (with_ledger vc (user_votes st) st).
Proof. reflexivity. Qed.

Lemma positive_add_or_update a b st :
  tallies_positive (vote_counts st) -> tallies_positive (tree st) ->
  tallies_positive (vote_counts (add_or_update_segment a b st))
  /\ tallies_positive (tree (add_or_update_segment a b st)).
Proof.
  intros Hvc Htree. rewrite add_or_update_unfold. cbv zeta.
  destruct (negb (PyStr.truthy (normalize_phrase a))); [now split|].
  destruct (find_matching_phrase (vote_counts st) (normalize_phrase a) "") as [m|];
    [destruct (PyStr.truthy m && negb (String.eqb m (normalize_phrase a)))%bool|];
    apply positive_refresh; cbn [with_ledger vote_counts];
    now apply positive_set_or_pop.
Qed.

Lemma positive_remove_selected sel st :
  tallies_positive (vote_counts st) -> tallies_positive (tree st) ->
  tallies_positive (vote_counts (remove_selected sel st))
  /\ tallies_positive (tree (remove_selected sel st)).
Proof.
  intros Hvc Htree. unfold remove_selected. destruct sel as [|i sel]; [now split|].
  apply positive_refresh. cbn [with_ledger vote_counts].
  generalize (i :: sel). intros items. revert Hvc. generalize (vote_counts st).
  induction items as [|item items IH]; intros vc Hvc; simpl; [exact Hvc|].
  apply IH. destruct (nth_error (tree st) item); [now apply positive_pop|exact Hvc].
Qed.

Lemma positive_save_edit item col text st :
  tallies_positive (vote_counts st) -> tallies_positive (tree st) ->
  tallies_positive (vote_counts (save_edit item col text st))
  /\ tallies_positive (tree (save_edit item col text st)).
Proof.
  intros Hvc Htree. unfold save_edit.
  destruct (nth_error (tree st) item) as [[phrase_old votes_old]|] eqn:Erow; [|now split].
  assert (Hold : (0 < votes_old)%Z).
  { apply nth_error_In in Erow. unfold tallies_positive in Htree.
    rewrite Forall_forall in Htree. exact (Htree _ Erow). }
  cbv zeta. destruct col.
  - destruct (negb (PyStr.truthy (normalize_phrase (PyStr.strip text)))); [now split|].
    destruct (negb (String.eqb (normalize_phrase (PyStr.strip text)) phrase_old));
      [|now apply positive_refresh].
    apply positive_refresh. cbn [with_ledger vote_counts].
    apply positive_set; [now apply positive_pop|].
    match goal with |- (0 < dict_get_or ?d ?k 0 + _)%Z =>
      pose proof (tally_nonneg d k (positive_pop _ _ Hvc)) as Hn end.
    unfold tally in Hn. lia.
  - apply positive_refresh. cbn [with_ledger vote_counts].
    destruct (dict_mem (vote_counts st) phrase_old); [|exact Hvc].
    destruct (safe_int (PyStr.strip text) votes_old <=? 0)%Z eqn:E.
    + now apply positive_pop.
    + apply positive_set; [exact Hvc|]. apply Z.leb_gt in E. exact E.
Qed.

(** ** Import *)

Lemma positive_add_segment vc phrase votes imported :
  tallies_positive imported -> (0 < votes)%Z ->
  tallies_positive (add_segment vc phrase votes imported).
Proof.
  intros H Hv. unfold add_segment. cbv zeta. apply positive_set; [exact H|].
  match goal with |- (0 < dict_get_or ?d ?k 0 + _)%Z =>
    pose proof (tally_nonneg d k H) as Hn end.
  unfold tally in Hn. lia.
Qed.

Lemma positive_untagged_line vc line imported :
  tallies_positive imported -> tallies_positive (untagged_line vc line imported).
Proof.
  intros H. unfold untagged_line. cbv zeta.
  match goal with |- tallies_positive (match ?c with _ => _ end) => destruct c as [|a [|b [|? ?]]] end;
    try exact H.
  destruct (negb (PyStr.truthy (normalize_phrase a)) || (safe_int (PyStr.strip b) 0 <=? 0)%Z)%bool
    eqn:E; [exact H|].
  apply orb_false_iff in E. destruct E as [_ E]. apply Z.leb_gt in E.
  now apply positive_add_segment.
Qed.

(** What the reading loop keeps true of what it has collected. *)
Lemma import_line_inv vc acc raw :
  tallies_positive (fst acc) /\ dict_wf (snd acc) ->
  tallies_positive (fst (import_line vc acc raw)) /\ dict_wf (snd (import_line vc acc raw)).
Proof.
  destruct acc as [imported iuv]. cbn [fst snd]. intros [Hpos Hwf].
  unfold import_line.
  destruct (negb (PyStr.truthy (PyStr.strip raw)) || PyStr.startswith "#" (PyStr.strip raw))%bool;
    [now split|].
  destruct (PyStr.split_on tab (PyStr.strip raw)) as [|tag [|p1 [|p2 rest]]];
    try (cbn [fst snd]; split; [now apply positive_untagged_line|exact Hwf]).
  destruct (String.eqb tag "SEGMENT").
  - cbv zeta.
    destruct (PyStr.truthy (normalize_phrase p1) && (0 <? safe_int (PyStr.strip p2) 0)%Z)%bool
      eqn:E; [|now split].
    apply andb_true_iff in E. destruct E as [_ E]. apply Z.ltb_lt in E.
    cbn [fst snd]. split; [now apply positive_add_segment|exact Hwf].
  - destruct (String.eqb tag "USERVOTE").
    + cbv zeta.
      destruct (PyStr.truthy (PyStr.lower (PyStr.strip p1)) && PyStr.truthy (normalize_phrase p2))%bool;
        [|now split].
      cbn [fst snd]. split; [exact Hpos|now apply dict_wf_set].
    + cbn [fst snd]. split; [now apply positive_untagged_line|exact Hwf].
Qed.

Lemma fold_import_line_inv vc lines :
  forall acc,
    tallies_positive (fst acc) /\ dict_wf (snd acc) ->
    tallies_positive (fst (fold_left (import_line vc) lines acc))
    /\ dict_wf (snd (fold_left (import_line vc) lines acc)).
Proof.
  induction lines as [|raw lines IH]; intros acc Hacc; cbn [fold_left]; [exact Hacc|].
  apply IH. apply import_line_inv. exact Hacc.
Qed.

Lemma read_import_inv vc lines :
  tallies_positive (fst (read_import vc lines)) /\ dict_wf (snd (read_import vc lines)).
Proof.
  unfold read_import. apply fold_import_line_inv. split; constructor.
Qed.

Lemma NoDup_keys_filter {V : Type} (f : string * V -> bool) (d : dict V) :
  dict_wf d -> dict_wf (filter f d).
Proof.
  unfold dict_wf, dict_keys. induction d as [|e d IH]; simpl; [trivial|].
  intros H. inversion H as [|? ? Hnot Hnd]; subst.
  destruct (f e); simpl; [|now apply IH].
  constructor; [|now apply IH].
  intros Hin. apply Hnot. apply in_map_iff in Hin. destruct Hin as (e' & He' & Hin).
  apply filter_In in Hin. apply in_map_iff. exists e'. tauto.
Qed.

Lemma dict_get_filter {V : Type} (f : string * V -> bool) (d : dict V) k v :
  dict_wf d ->
  (dict_get (filter f d) k = Some v <-> dict_get d k = Some v /\ f (k, v) = true).
Proof.
  intros Hwf. split.
  - intros H. apply dict_get_In, filter_In in H. destruct H as [Hin Hf].
    split; [now apply In_dict_get|exact Hf].
  - intros [H Hf]. apply In_dict_get; [now apply NoDup_keys_filter|].
    apply filter_In. split; [now apply dict_get_In|exact Hf].
Qed.

(** The loop of lines 639-641 finds nothing to add when every phrase
    already has its entry. *)
Lemma materialize_id phrases (vc : dict Z) :
  (forall p, In p phrases -> dict_mem vc p = true) -> materialize phrases vc = vc.
Proof.
  unfold materialize. induction phrases as [|p phrases IH]; intros H; simpl; [reflexivity|].
  rewrite (H p) by now left. apply IH. intros q Hq. apply H. now right.
Qed.

Lemma keep_user_votes_values vc iuv p :
  In p (dict_values (keep_user_votes vc iuv)) -> dict_mem vc p = true.
Proof.
  unfold keep_user_votes, dict_values. intros H. apply in_map_iff in H.
  destruct H as ([u q] & <- & Hin). apply In_dict_of_items, filter_In in Hin.
  destruct Hin as [_ Hf]. simpl in Hf. apply andb_true_iff in Hf. tauto.
Qed.

Lemma import_segments_unfold lines st :
  import_segments lines st =
  refresh_table_from_votes
    (with_ledger
       (materialize
          (dict_values (keep_user_votes (fst (read_import (vote_counts st) lines))
                                        (snd (read_import (vote_counts st) lines))))
          (fst (read_import (vote_counts st) lines)))
       (keep_user_votes (fst (read_import (vote_counts st) lines))
                        (snd (read_import (vote_counts st) lines)))
       st).
Proof.
  unfold import_segments. now destruct (read_import (vote_counts st) lines).
Qed.

Lemma import_vote_counts lines st :
  vote_counts (import_segments lines st) = fst (read_import (vote_counts st) lines).
Proof.
  rewrite import_segments_unfold, refresh_vote_counts. cbn [with_ledger vote_counts].
  apply materialize_id. apply keep_user_votes_values.
Qed.

Lemma import_user_votes lines st :
  user_votes (import_segments lines st)
  = keep_user_votes (fst (read_import (vote_counts st) lines))
                    (snd (read_import (vote_counts st) lines)).
Proof. rewrite import_segments_unfold, refresh_user_votes. reflexivity. Qed.

Lemma tally_pos_mem (vc : dict Z) p :
  (dict_mem vc p && (0 <? dict_get_or vc p 0)%Z)%bool = true <-> (0 < tally vc p)%Z.
Proof.
  unfold dict_mem, tally, dict_get_or. destruct (dict_get vc p); simpl.
  - apply Z.ltb_lt.
  - split; [discriminate|lia].
Qed.

(** C1, as stated, fails: a file whose only line is a USERVOTE for a
    phrase with no SEGMENT line leaves both maps empty; the phrase is not
    created and the sender's vote is not kept. *)
Lemma import_drops_unsupported_vote :
  snd (read_import (vote_counts init) [uservote_line "alice" "cats"]) = [("alice", "cats")]
  /\ ~ (dict_get (vote_counts (import_segments [uservote_line "alice" "cats"] init)) "cats"
        = Some 1%Z
        /\ dict_get (user_votes (import_segments [uservote_line "alice" "cats"] init)) "alice"
           = Some "cats").
Proof.
  split; [reflexivity|].
  intros [H _]. vm_compute in H. discriminate.
Qed.

(** C1, amended.  After an import the tally map is the map of the merged
    imported segments, all with positive counts, and nothing else: no phrase
    is created for a sender vote.  The sender map holds exactly the imported
    sender votes whose normalized phrase is a key of that map; the other
    imported sender votes are dropped. *)
Theorem import_keeps_votes_for_imported_phrases (lines : list string) (st : App) :
  let imported := fst (read_import (vote_counts st) lines) in
  let imported_user_votes := snd (read_import (vote_counts st) lines) in
  let st' := import_segments lines st in
  vote_counts st' = imported
  /\ tallies_positive (vote_counts st')
  /\ (forall u p,
         dict_get (user_votes st') u = Some p
         <-> dict_get imported_user_votes u = Some p /\ dict_mem imported p = true)
  /\ (forall u p, In (u, p) (user_votes st') -> (0 < tally (vote_counts st') p)%Z).
Proof.
  cbv zeta.
  destruct (read_import_inv (vote_counts st) lines) as [Hpos Hwf].
  assert (Hkeep : forall u p,
             dict_get (user_votes (import_segments lines st)) u = Some p
             <-> dict_get (snd (read_import (vote_counts st) lines)) u = Some p
                 /\ (0 < tally (fst (read_import (vote_counts st) lines)) p)%Z).
  { intros u p. rewrite import_user_votes. unfold keep_user_votes.
    rewrite dict_of_items_id by now apply NoDup_keys_filter.
    rewrite dict_get_filter by exact Hwf. cbn [snd]. now rewrite tally_pos_mem. }
  assert (Hmem : forall p, dict_mem (fst (read_import (vote_counts st) lines)) p = true
                           <-> (0 < tally (fst (read_import (vote_counts st) lines)) p)%Z).
  { intros p. rewrite <- tally_pos_mem. split.
    - intros Hm. rewrite Hm. cbn [andb]. apply Z.ltb_lt.
      unfold dict_mem in Hm. unfold dict_get_or.
      destruct (dict_get (fst (read_import (vote_counts st) lines)) p) as [v|] eqn:E;
        [|discriminate].
      apply dict_get_In in E. unfold tallies_positive in Hpos.
      rewrite Forall_forall in Hpos. exact (Hpos _ E).
    - intros H. apply andb_true_iff in H. tauto. }
  rewrite import_vote_counts.
  split; [reflexivity|]. split; [exact Hpos|]. split.
  - intros u p. rewrite Hkeep, Hmem. reflexivity.
  - intros u p Hin.
    assert (Hg : dict_get (user_votes (import_segments lines st)) u = Some p).
    { apply In_dict_get; [|exact Hin].
      rewrite import_user_votes. unfold keep_user_votes. apply dict_wf_of_items. }
    apply Hkeep in Hg. apply Hg.
Qed.

(** ** Senders and tallies *)

Lemma tally_set (d : dict Z) k v q :
  tally (dict_set d k v) q = if String.eqb k q then v else tally d q.
Proof.
  unfold tally, dict_get_or. destruct (String.eqb_spec k q) as [->|Hne].
  - now rewrite dict_get_set_same.
  - now rewrite dict_get_set_other.
Qed.

Lemma tally_pop (d : dict Z) k q :
  dict_wf d -> tally (dict_pop d k) q = if String.eqb k q then 0%Z else tally d q.
Proof.
  intros Hwf. unfold tally, dict_get_or. destruct (String.eqb_spec k q) as [->|Hne].
  - now rewrite dict_get_pop_same.
  - now rewrite dict_get_pop_other.
Qed.

Lemma tally_mem (d : dict Z) k : (0 < tally d k)%Z -> dict_mem d k = true.
Proof.
  unfold tally, dict_get_or, dict_mem. destruct (dict_get d k); [reflexivity|lia].
Qed.

Lemma dict_wf_withdraw prev vc : dict_wf vc -> dict_wf (withdraw prev vc).
Proof.
  intros H. unfold withdraw. destruct prev as [p|]; [|exact H].
  destruct (PyStr.truthy p && dict_mem vc p)%bool; [|exact H].
  destruct (_ <=? 0)%Z; [apply dict_wf_pop|]; now apply dict_wf_set.
Qed.

Lemma tally_withdraw_other prev vc q :
  dict_wf vc -> prev <> Some q -> tally (withdraw prev vc) q = tally vc q.
Proof.
  intros Hwf Hne. unfold withdraw. destruct prev as [p|]; [|reflexivity].
  assert (Hpq : String.eqb p q = false) by (apply String.eqb_neq; congruence).
  destruct (PyStr.truthy p && dict_mem vc p)%bool; [|reflexivity].
  destruct (_ <=? 0)%Z.
  - rewrite tally_pop by now apply dict_wf_set. rewrite Hpq. now rewrite tally_set, Hpq.
  - now rewrite tally_set, Hpq.
Qed.

Lemma tally_withdraw_same vc p :
  dict_wf vc -> (tally vc p - 1 <= tally (withdraw (Some p) vc) p)%Z.
Proof.
  intros Hwf. unfold withdraw.
  destruct (PyStr.truthy p && dict_mem vc p)%bool; [|lia].
  fold (tally vc p). fold (tally (dict_set vc p (tally vc p - 1)%Z) p).
  rewrite tally_set, String.eqb_refl.
  destruct (tally vc p - 1 <=? 0)%Z eqn:E.
  - rewrite tally_pop by now apply dict_wf_set. rewrite String.eqb_refl.
    apply Z.leb_le in E. exact E.
  - rewrite tally_set, String.eqb_refl. lia.
Qed.

Lemma senders_set_absent uv u t q :
  dict_get uv u = None ->
  senders_of (dict_set uv u t) q = senders_of uv q + (if String.eqb t q then 1 else 0).
Proof.
  unfold senders_of. induction uv as [|[u' p'] uv IH]; simpl.
  - intros _. now destruct (String.eqb t q).
  - destruct (String.eqb_spec u' u) as [->|Hne]; [discriminate|].
    intros H. simpl. destruct (String.eqb p' q); simpl; rewrite IH by exact H; lia.
Qed.

Lemma senders_set_present uv u t q p0 :
  dict_get uv u = Some p0 ->
  senders_of (dict_set uv u t) q + (if String.eqb p0 q then 1 else 0)
  = senders_of uv q + (if String.eqb t q then 1 else 0).
Proof.
  unfold senders_of. induction uv as [|[u' p'] uv IH]; simpl; [discriminate|].
  destruct (String.eqb_spec u' u) as [->|Hne].
  - intros H. injection H as ->. simpl.
    destruct (String.eqb t q), (String.eqb p0 q); simpl; lia.
  - intros H. simpl. specialize (IH H). destruct (String.eqb p' q); simpl; lia.
Qed.

Lemma senders_pos uv u p : In (u, p) uv -> 1 <= senders_of uv p.
Proof.
  unfold senders_of. induction uv as [|[u' p'] uv IH]; simpl; [tauto|].
  intros [H|H].
  - injection H as -> ->. rewrite String.eqb_refl. simpl. lia.
  - specialize (IH H). destruct (String.eqb p' p); simpl; lia.
Qed.

Lemma supported_no_orphans vc uv : supported vc uv -> no_orphans vc uv.
Proof.
  intros H u p Hin. apply tally_mem.
  specialize (H p). apply senders_pos in Hin. lia.
Qed.

(** A vote that goes through keeps every phrase supported. *)
Lemma supported_move vc uv user target :
  dict_wf vc -> supported vc uv ->
  dict_get uv user <> Some target ->
  let vc1 := withdraw (dict_get uv user) vc in
  supported (dict_set vc1 target (dict_get_or vc1 target 0 + 1)%Z) (dict_set uv user target).
Proof.
  intros Hwf Hsup Hne vc1 q. fold (tally vc1 target). rewrite tally_set.
  specialize (Hsup q).
  destruct (dict_get uv user) as [p0|] eqn:Eprev.
  - pose proof (senders_set_present uv user target q p0 Eprev) as Hs.
    assert (Hq : (tally vc q - (if String.eqb p0 q then 1 else 0) <= tally vc1 q)%Z).
    { destruct (String.eqb_spec p0 q) as [->|Hpq].
      - subst vc1. apply tally_withdraw_same. exact Hwf.
      - subst vc1. rewrite tally_withdraw_other; [lia|exact Hwf|congruence]. }
    destruct (String.eqb_spec target q) as [->|Htne].
    + destruct (String.eqb_spec p0 q) as [->|Hpq]; [congruence|lia].
    + destruct (String.eqb p0 q); lia.
  - pose proof (senders_set_absent uv user target q Eprev) as Hs.
    subst vc1. unfold withdraw.
    destruct (String.eqb_spec target q) as [->|Htne]; lia.
Qed.

Lemma supported_consume_vote u m st :
  dict_wf (vote_counts st) -> supported (vote_counts st) (user_votes st) ->
  dict_wf (vote_counts (consume_vote u m st))
  /\ supported (vote_counts (consume_vote u m st)) (user_votes (consume_vote u m st)).
Proof.
  intros Hwf Hsup. rewrite consume_vote_unfold. cbv zeta.
  destruct (negb (voting_active st)); [now split|].
  destruct (negb (PyStr.truthy (PyStr.lower (PyStr.strip u)))); [now split|].
  destruct (negb (PyStr.truthy (normalize_phrase m))); [now split|].
  destruct (same_phrase _ _) eqn:Es; [now split|].
  rewrite refresh_vote_counts, refresh_user_votes. cbn [with_ledger vote_counts user_votes].
  split.
  - apply dict_wf_set. now apply dict_wf_withdraw.
  - apply supported_move; [exact Hwf|exact Hsup|]. now apply same_phrase_false.
Qed.

(** ** The other handlers leave the tallies positive as well *)

Lemma positive_import lines st :
  tallies_positive (vote_counts (import_segments lines st))
  /\ tallies_positive (tree (import_segments lines st)).
Proof.
  assert (H : tallies_positive (vote_counts (import_segments lines st))).
  { rewrite import_vote_counts. apply read_import_inv. }
  split; [exact H|].
  rewrite import_segments_unfold, refresh_tree. apply positive_sorted.
  rewrite import_segments_unfold, refresh_vote_counts in H. exact H.
Qed.

Lemma spin_tick_ledger st :
  vote_counts (update_spin_state st) = vote_counts st
  /\ user_votes (update_spin_state st) = user_votes st
  /\ tree (update_spin_state st) = tree st.
Proof.
  unfold update_spin_state.
  destruct (spinning st || Qlt_bool 0 (spin_velocity st))%bool;
    [destruct (Qlt_bool (spin_velocity st * (985 # 1000)) (5 # 100))|];
    repeat split.
Qed.

Lemma spin_wheel_ledger impulse st :
  vote_counts (fst (spin_wheel impulse st)) = vote_counts st
  /\ user_votes (fst (spin_wheel impulse st)) = user_votes st
  /\ tree (fst (spin_wheel impulse st)) = tree st.
Proof.
  unfold spin_wheel. destruct (negb _); repeat split.
Qed.

Lemma update_timer_ledger now st :
  vote_counts (update_timer now st) = vote_counts st
  /\ user_votes (update_timer now st) = user_votes st
  /\ tree (update_timer now st) = tree st.
Proof.
  unfold update_timer. destruct (voting_active st); [|repeat split].
  cbv zeta. destruct (_ <=? 0)%Z; repeat split.
Qed.

Lemma stop_vote_ledger st :
  vote_counts (stop_vote st) = vote_counts st
  /\ user_votes (stop_vote st) = user_votes st
  /\ tree (stop_vote st) = tree st.
Proof. unfold stop_vote. destruct (negb _); repeat split. Qed.

(** Every handler keeps the tallies, and the counts the table shows,
    positive. *)
Lemma positive_handle st e :
  tallies_positive (vote_counts st) -> tallies_positive (tree st) ->
  tallies_positive (vote_counts (handle st e)) /\ tallies_positive (tree (handle st e)).
Proof.
  intros Hvc Htree. destruct e; cbn [handle].
  - now apply positive_consume_vote.
  - now apply positive_add_or_update.
  - now apply positive_remove_selected.
  - now apply positive_save_edit.
  - apply positive_import.
  - unfold clear_vote. apply positive_refresh. constructor.
  - now split.
  - destruct (stop_vote_ledger st) as (-> & _ & ->). now split.
  - destruct (update_timer_ledger now st) as (-> & _ & ->). now split.
  - unfold set_max_phrases. now apply positive_refresh.
  - destruct (spin_wheel_ledger impulse st) as (-> & _ & ->). now split.
  - destruct (spin_tick_ledger st) as (-> & _ & ->). now split.
Qed.

(** ** Orphaned sender mappings *)

Lemma no_orphans_import lines st :
  no_orphans (vote_counts (import_segments lines st)) (user_votes (import_segments lines st)).
Proof.
  intros u p Hin. rewrite import_vote_counts. rewrite import_user_votes in Hin.
  apply (keep_user_votes_values _ (snd (read_import (vote_counts st) lines))).
  unfold dict_values. change p with (snd (u, p)). now apply in_map.
Qed.

Lemma no_orphans_clear st :
  no_orphans (vote_counts (clear_vote st)) (user_votes (clear_vote st)).
Proof. intros u p Hin. unfold clear_vote in Hin. rewrite refresh_user_votes in Hin. destruct Hin. Qed.

Lemma manual_edits_keep_senders st :
  (forall a b, user_votes (add_or_update_segment a b st) = user_votes st)
  /\ (forall sel, user_votes (remove_selected sel st) = user_votes st)
  /\ (forall item col text, user_votes (save_edit item col text st) = user_votes st).
Proof.
  split; [|split].
  - intros a b. rewrite add_or_update_unfold. cbv zeta.
    destruct (negb _); [reflexivity|].
    destruct (find_matching_phrase _ _ _) as [m|];
      [destruct (PyStr.truthy m && _)%bool|]; reflexivity.
  - intros sel. unfold remove_selected. destruct sel; reflexivity.
  - intros item col text. unfold save_edit.
    destruct (nth_error (tree st) item) as [[phrase_old votes_old]|]; [|reflexivity].
    cbv zeta. destruct col.
    + destruct (negb (PyStr.truthy _)); [reflexivity|].
      destruct (negb (String.eqb _ _)); reflexivity.
    + reflexivity.
Qed.

(** C2, as stated, fails: removing the selected row of a phrase some sender
    has voted for leaves the sender mapped to a phrase with no entry. *)
Lemma remove_selected_leaves_orphan :
  ledger_ok one_vote
  /\ user_votes (remove_selected [0] one_vote) = [("alice", "cats")]
  /\ vote_counts (remove_selected [0] one_vote) = []
  /\ ~ ledger_ok (remove_selected [0] one_vote).
Proof.
  split; [|split; [reflexivity|split; [reflexivity|]]].
  - split.
    + repeat constructor.
    + intros u p [H|[]]. injection H as <- <-. reflexivity.
  - intros [_ H]. specialize (H "alice" "cats" (or_introl eq_refl)). discriminate H.
Qed.

(** C2, amended.  From a state whose tallies (and the counts shown in the
    table) are positive, every handler, the six ledger-mutating ones
    included, leaves every stored tally positive.  [import_segments] and
    [clear_vote] leave no orphaned sender mapping.  [consume_vote] leaves
    none as long as every phrase has at least as many votes as senders, a
    condition it preserves.  [add_or_update_segment], [remove_selected] and
    the cell editor do not touch the sender map. *)
Theorem ledger_operations_invariant (st : App)
        (Hpos : tallies_positive (vote_counts st))
        (Htree : tallies_positive (tree st)) :
  (forall e, tallies_positive (vote_counts (handle st e))
             /\ tallies_positive (tree (handle st e)))
  /\ (forall lines,
         no_orphans (vote_counts (import_segments lines st))
                    (user_votes (import_segments lines st)))
  /\ no_orphans (vote_counts (clear_vote st)) (user_votes (clear_vote st))
  /\ (forall u m,
         dict_wf (vote_counts st) ->
         supported (vote_counts st) (user_votes st) ->
         dict_wf (vote_counts (consume_vote u m st))
         /\ supported (vote_counts (consume_vote u m st)) (user_votes (consume_vote u m st))
         /\ no_orphans (vote_counts (consume_vote u m st)) (user_votes (consume_vote u m st)))
  /\ (forall a b, user_votes (add_or_update_segment a b st) = user_votes st)
  /\ (forall sel, user_votes (remove_selected sel st) = user_votes st)
  /\ (forall item col text, user_votes (save_edit item col text st) = user_votes st).
Proof.
  split; [intros e; now apply positive_handle|].
  split; [intros lines; apply no_orphans_import|].
  split; [apply no_orphans_clear|].
  split; [|apply manual_edits_keep_senders].
  intros u m Hwf Hsup.
  destruct (supported_consume_vote u m st Hwf Hsup) as [Hwf' Hsup'].
  split; [exact Hwf'|]. split; [exact Hsup'|]. now apply supported_no_orphans.
Qed.

Lemma ledger_operations_invariant_witness :
  tallies_positive (vote_counts (consume_vote "bob" "dogs" one_vote))
  /\ tallies_positive (vote_counts (save_edit 0 ColVotes "-3" one_vote))
  /\ no_orphans (vote_counts (consume_vote "alice" "dogs" one_vote))
                (user_votes (consume_vote "alice" "dogs" one_vote)).
Proof.
  assert (Hpos : tallies_positive (vote_counts one_vote)) by (repeat constructor).
  assert (Htree : tallies_positive (tree one_vote)) by (repeat constructor).
  destruct (ledger_operations_invariant one_vote Hpos Htree) as (Hall & _ & _ & Hvote & _).
  split; [apply (Hall (Chat "bob" "dogs"))|].
  split; [apply (Hall (SaveEdit 0 ColVotes "-3"))|].
  apply Hvote.
  - change (dict_wf [("cats", 1%Z)]). unfold dict_wf. repeat constructor. simpl. tauto.
  - change (supported [("cats", 1%Z)] [("alice", "cats")]).
    intros p. unfold senders_of, tally, dict_get_or. cbn -[String.eqb].
    destruct (String.eqb "cats" p); simpl; lia.
Defined.

(** ** Conservation of votes *)

Lemma sum_values_set (d : dict Z) k v :
  sum_Z (dict_values (dict_set d k v)) = (sum_Z (dict_values d) - tally d k + v)%Z.
Proof.
  unfold tally, dict_get_or. induction d as [|[k' v'] d IH].
  - cbn. lia.
  - cbn [dict_set dict_get]. destruct (String.eqb k' k).
    + rewrite !sum_values_cons. lia.
    + rewrite !sum_values_cons, IH. lia.
Qed.

Lemma sum_values_pop (d : dict Z) k :
  sum_Z (dict_values (dict_pop d k)) = (sum_Z (dict_values d) - tally d k)%Z.
Proof.
  unfold tally, dict_get_or. induction d as [|[k' v'] d IH].
  - cbn. lia.
  - cbn [dict_pop dict_get]. destruct (String.eqb k' k).
    + rewrite !sum_values_cons. lia.
    + rewrite !sum_values_cons, IH. lia.
Qed.

Lemma length_set {V : Type} (d : dict V) k v :
  List.length (dict_set d k v) = List.length d + (if dict_mem d k then 0 else 1).
Proof.
  unfold dict_mem. induction d as [|[k' v'] d IH]; [reflexivity|].
  cbn [dict_set dict_get]. destruct (String.eqb k' k); cbn [List.length]; [lia|].
  rewrite IH. destruct (dict_get d k); lia.
Qed.

(** Giving up a vote that is counted takes one off the total. *)
Lemma sum_withdraw vc p :
  p <> "" -> (1 <= tally vc p)%Z ->
  sum_Z (dict_values (withdraw (Some p) vc)) = (sum_Z (dict_values vc) - 1)%Z.
Proof.
  intros Hp Ht. unfold withdraw.
  apply truthy_true in Hp. rewrite Hp. rewrite tally_mem by lia. cbn [andb].
  fold (tally vc p). fold (tally (dict_set vc p (tally vc p - 1)%Z) p).
  rewrite tally_set, String.eqb_refl.
  destruct (tally vc p - 1 <=? 0)%Z eqn:E.
  - apply Z.leb_le in E. rewrite sum_values_pop, sum_values_set, tally_set, String.eqb_refl. lia.
  - rewrite sum_values_set. lia.
Qed.

Lemma or_else_truthy matched phrase :
  PyStr.truthy phrase = true -> or_else matched phrase <> "".
Proof.
  intros H. apply truthy_true. unfold or_else. destruct matched as [m|]; [|exact H].
  destruct (PyStr.truthy m) eqn:E; [exact E|exact H].
Qed.

Lemma conserved_move vc uv user target :
  conserved vc uv -> target <> "" -> dict_get uv user <> Some target ->
  let vc1 := withdraw (dict_get uv user) vc in
  conserved (dict_set vc1 target (dict_get_or vc1 target 0 + 1)%Z) (dict_set uv user target).
Proof.
  intros (Hwf & Hwfu & Hsup & Hne & Hsum) Ht Hprev vc1.
  split; [apply dict_wf_set; now apply dict_wf_withdraw|].
  split; [now apply dict_wf_set|].
  split; [now apply supported_move|].
  split.
  { intros u Hin. apply In_dict_set in Hin. destruct Hin as [Hin|Heq].
    - now apply (Hne u).
    - injection Heq as _ Heq. congruence. }
  fold (tally vc1 target). rewrite sum_values_set, length_set.
  subst vc1. unfold dict_mem.
  destruct (dict_get uv user) as [p0|] eqn:Eprev.
  - assert (Hin : In (user, p0) uv) by now apply dict_get_In.
    assert (Hp0 : p0 <> "") by (intros ->; now apply (Hne user)).
    assert (Htally : (1 <= tally vc p0)%Z).
    { specialize (Hsup p0). apply senders_pos in Hin. lia. }
    rewrite sum_withdraw by assumption. lia.
  - unfold withdraw. lia.
Qed.

Lemma conserved_consume_vote u m st :
  conserved (vote_counts st) (user_votes st) ->
  conserved (vote_counts (consume_vote u m st)) (user_votes (consume_vote u m st)).
Proof.
  intros H. rewrite consume_vote_unfold. cbv zeta.
  destruct (negb (voting_active st)); [exact H|].
  destruct (negb (PyStr.truthy (PyStr.lower (PyStr.strip u)))); [exact H|].
  destruct (PyStr.truthy (normalize_phrase m)) eqn:Ep; cbn [negb]; [|exact H].
  destruct (same_phrase _ _) eqn:Es; [exact H|].
  rewrite refresh_vote_counts, refresh_user_votes. cbn [with_ledger vote_counts user_votes].
  apply conserved_move; [exact H|now apply or_else_truthy|now apply same_phrase_false].
Qed.

Lemma conserved_apply_votes votes :
  forall st, conserved (vote_counts st) (user_votes st) ->
             conserved (vote_counts (apply_votes votes st)) (user_votes (apply_votes votes st)).
Proof.
  unfold apply_votes. induction votes as [|[u m] votes IH]; intros st H; cbn [fold_left];
    [exact H|].
  apply IH. cbn [fst snd]. now apply conserved_consume_vote.
Qed.

(** C4.  Starting from an empty ledger, after any sequence of
    [consume_vote] calls the tallies add up to the number of distinct
    senders in the sender map. *)
Theorem votes_conserved (st0 : App) (votes : list (string * string))
        (Hvc : vote_counts st0 = []) (Huv : user_votes st0 = []) :
  let st := apply_votes votes st0 in
  sum_Z (dict_values (vote_counts st)) = Z.of_nat (distinct_senders (user_votes st)).
Proof.
  cbv zeta.
  assert (H0 : conserved (vote_counts st0) (user_votes st0)).
  { rewrite Hvc, Huv. repeat split; try constructor.
    - intros p. cbn. lia.
    - intros u []. }
  destruct (conserved_apply_votes votes st0 H0) as (_ & Hwfu & _ & _ & Hsum).
  rewrite Hsum. unfold distinct_senders.
  rewrite nodup_fixed_point by exact Hwfu.
  unfold dict_keys. now rewrite length_map.
Qed.

Lemma votes_conserved_witness :
  let st := apply_votes [("Alice", "Pizza!"); ("bob", "piza "); ("alice", "dogs");
                         ("carol", "dogs"); ("bob", "dogs"); ("bob", "dogs")]
                        (start_vote 0 init) in
  vote_counts st = [("dogs", 3%Z)]
  /\ sum_Z (dict_values (vote_counts st)) = Z.of_nat (distinct_senders (user_votes st)).
Proof.
  cbv zeta. split; [vm_compute; reflexivity|].
  apply (votes_conserved (start_vote 0 init)); reflexivity.
Defined.

(** ** The display follows the state *)










(** ** The spin engine *)

Lemma spin_fields_handle st e :
  match e with Spin _ | SpinTick => True
  | _ => spinning (handle st e) = spinning st
         /\ spin_velocity (handle st e) = spin_velocity st
         /\ rotation (handle st e) = rotation st
  end.
Proof.
  destruct e; cbn [handle]; trivial.
  - rewrite consume_vote_unfold. cbv zeta.
    destruct (negb (voting_active st)); [tauto|].
    destruct (negb (PyStr.truthy (PyStr.lower (PyStr.strip username)))); [tauto|].
    destruct (negb (PyStr.truthy (normalize_phrase message))); [tauto|].
    destruct (same_phrase _ _); repeat split.
  - rewrite add_or_update_unfold. cbv zeta.
    destruct (negb (PyStr.truthy (normalize_phrase new_phrase))); [tauto|].
    destruct (find_matching_phrase _ _ _) as [m|];
      [destruct (PyStr.truthy m && _)%bool|]; repeat split.
  - unfold remove_selected. destruct selection; repeat split.
  - unfold save_edit.
    destruct (nth_error (tree st) item) as [[phrase_old votes_old]|]; [|tauto].
    cbv zeta. destruct col; [|repeat split].
    destruct (negb (PyStr.truthy _)); [tauto|].
    destruct (negb (String.eqb _ _)); repeat split.
  - rewrite import_segments_unfold. repeat split.
  - repeat split.
  - repeat split.
  - unfold stop_vote. destruct (negb (voting_active st)); repeat split.
  - unfold update_timer. destruct (voting_active st); [|tauto].
    cbv zeta. destruct (_ <=? 0)%Z; repeat split.
  - repeat split.
Qed.

Lemma spin_ok_velocity_nonneg st : spin_ok st -> (0 <= spin_velocity st)%Q.
Proof. intros [(_ & H & _)|(_ & ->)]; lra. Qed.

Lemma spin_ok_spin impulse st :
  (18 <= impulse)%Q -> (impulse <= 28)%Q -> spin_ok st -> spin_ok (fst (spin_wheel impulse st)).
Proof.
  intros Hlo Hhi H. pose proof (spin_ok_velocity_nonneg st H) as Hv.
  unfold spin_wheel. destruct (negb _); [exact H|].
  cbv zeta. cbn [fst]. left. cbn [with_spin spinning spin_velocity].
  split; [reflexivity|]. unfold py_min.
  destruct (Qlt_bool 120 (spin_velocity st + impulse)) eqn:E.
  - split; lra.
  - apply Qlt_bool_false in E. split; lra.
Qed.

Lemma spin_ok_tick st : spin_ok st -> spin_ok (update_spin_state st).
Proof.
  intros H. unfold update_spin_state. destruct H as [(Hs & Hlo & Hhi)|(Hs & Hv)].
  - rewrite Hs. cbn [orb].
    destruct (Qlt_bool (spin_velocity st * (985 # 1000)) (5 # 100)) eqn:E.
    + right. split; reflexivity.
    + apply Qlt_bool_false in E. left.
      cbn [with_canvas with_spin spinning spin_velocity].
      split; [reflexivity|]. split; [exact E|lra].
  - rewrite Hs, Hv. cbn [orb].
    assert (E : Qlt_bool 0 0 = false) by reflexivity. rewrite E.
    right. cbn [with_canvas spinning spin_velocity]. now split.
Qed.

Lemma spin_ok_handle st e : impulse_ok e -> spin_ok st -> spin_ok (handle st e).
Proof.
  intros He H. pose proof (spin_fields_handle st e) as Hf.
  destruct e; try (destruct Hf as (Hs & Hv & _); unfold spin_ok; rewrite Hs, Hv; exact H).
  - cbn [handle]. destruct He. now apply spin_ok_spin.
  - cbn [handle]. now apply spin_ok_tick.
Qed.

(** X2.  Whatever the handlers do, as long as every spin impulse lies
    between 18 and 28, the wheel is either spinning with a velocity between
    0.05 and 120 or at rest with velocity 0; the velocity is never negative. *)
Theorem spin_engine_invariant (es : list event) (Himp : Forall impulse_ok es) :
  spin_ok (run es init) /\ (0 <= spin_velocity (run es init) <= 120)%Q.
Proof.
  assert (H : spin_ok (run es init)).
  { unfold run.
    assert (H0 : spin_ok init) by (right; split; reflexivity).
    revert H0. generalize init.
    induction Himp as [|e es He Hes IH]; intros st H; cbn [fold_left]; [exact H|].
    apply IH. now apply spin_ok_handle. }
  split; [exact H|].
  destruct H as [(_ & Hlo & Hhi)|(_ & ->)]; split; lra.
Qed.

Lemma spin_engine_invariant_witness :
  spin_ok (run [StartVote 0; Chat "alice" "cats"; Spin 20; SpinTick; Spin 28; SpinTick] init).
Proof.
  apply (spin_engine_invariant
           [StartVote 0; Chat "alice" "cats"; Spin 20; SpinTick; Spin 28; SpinTick]).
  repeat constructor; cbn; lra.
Defined.

Lemma decayed_le k v v' : (v <= v')%Q -> (decayed k v <= decayed k v')%Q.
Proof.
  intros H. induction k as [|k IH]; cbn [decayed]; [exact H|].
  apply Qmult_le_compat_r; [exact IH|discriminate].
Qed.

Lemma ticks_S n st : ticks (S n) st = update_spin_state (ticks n st).
Proof. reflexivity. Qed.

(** While the wheel keeps spinning, its velocity is the decayed one. *)
Lemma ticks_decay k st v0 :
  spin_ok st -> (spin_velocity st <= v0)%Q ->
  spin_ok (ticks k st)
  /\ (spinning (ticks k st) = true -> (spin_velocity (ticks k st) <= decayed k v0)%Q).
Proof.
  intros Hok Hv. induction k as [|k [IHok IHv]].
  - split; [exact Hok|]. intros _. exact Hv.
  - rewrite ticks_S. split; [now apply spin_ok_tick|].
    cbn [decayed]. unfold update_spin_state.
    destruct IHok as [(Hs & Hlo & Hhi)|(Hs & Hz)].
    + rewrite Hs. cbn [orb]. specialize (IHv Hs).
      destruct (Qlt_bool (spin_velocity (ticks k st) * (985 # 1000)) (5 # 100)).
      * cbn [with_canvas with_spin spinning]. discriminate.
      * cbn [with_canvas with_spin spinning spin_velocity]. intros _.
        apply Qmult_le_compat_r; [exact IHv|discriminate].
    + rewrite Hs, Hz. cbn [orb].
      assert (E : Qlt_bool 0 0 = false) by reflexivity. rewrite E.
      cbn [with_canvas spinning]. rewrite Hs. discriminate.
Qed.

Lemma rotation_tick st :
  spin_ok st -> (rotation st <= rotation (update_spin_state st))%Q.
Proof.
  intros H. pose proof (spin_ok_velocity_nonneg st H) as Hv.
  unfold update_spin_state.
  destruct (spinning st || Qlt_bool 0 (spin_velocity st))%bool;
    [destruct (Qlt_bool (spin_velocity st * (985 # 1000)) (5 # 100))|];
    cbn [with_canvas with_spin rotation]; lra.
Qed.

(** X3.  A spin always comes to rest: from a state of the spin engine, 516
    ticks without a new spin request leave the velocity at 0 and the
    spinning flag cleared; and no tick turns the wheel backwards. *)
Theorem spin_comes_to_rest (st : App) (Hok : spin_ok st) :
  spinning (ticks 516 st) = false
  /\ spin_velocity (ticks 516 st) = 0%Q
  /\ (rotation st <= rotation (update_spin_state st))%Q.
Proof.
  assert (Hv : (spin_velocity st <= 120)%Q).
  { destruct Hok as [(_ & _ & H)|(_ & ->)]; [exact H|discriminate]. }
  destruct (ticks_decay 516 st 120 Hok Hv) as [Hok' Hdec].
  assert (Hsmall : (decayed 516 120 < 5 # 100)%Q).
  { apply Qlt_bool_iff. vm_compute. reflexivity. }
  split; [|split; [|now apply rotation_tick]].
  - destruct Hok' as [(Hs & Hlo & _)|(Hs & _)]; [|exact Hs].
    specialize (Hdec Hs). lra.
  - destruct Hok' as [(Hs & Hlo & _)|(_ & Hz)]; [|exact Hz].
    specialize (Hdec Hs). lra.
Qed.

Lemma spin_comes_to_rest_witness :
  spinning (ticks 516 spun_once) = false /\ spin_velocity (ticks 516 spun_once) = 0%Q.
Proof.
  assert (Hok : spin_ok spun_once).
  { left. split; [reflexivity|]. split; vm_compute; discriminate. }
  destruct (spin_comes_to_rest spun_once Hok) as (H1 & H2 & _).
  split; assumption.
Defined.

(** ** The effect of one vote *)

Lemma mem_tally_pos (d : dict Z) q :
  tallies_positive d -> dict_mem d q = (0 <? tally d q)%Z.
Proof.
  intros H. unfold dict_mem, tally, dict_get_or.
  destruct (dict_get d q) as [v|] eqn:E; [|reflexivity].
  apply dict_get_In in E. unfold tallies_positive in H. rewrite Forall_forall in H.
  specialize (H _ E). cbn [snd] in H. symmetry. now apply Z.ltb_lt.
Qed.

Lemma tally_withdraw_exact vc p :
  dict_wf vc -> p <> "" -> (1 <= tally vc p)%Z ->
  tally (withdraw (Some p) vc) p = (tally vc p - 1)%Z.
Proof.
  intros Hwf Hp Ht. unfold withdraw.
  apply truthy_true in Hp. rewrite Hp. rewrite tally_mem by lia. cbn [andb].
  fold (tally vc p). fold (tally (dict_set vc p (tally vc p - 1)%Z) p).
  rewrite tally_set, String.eqb_refl.
  destruct (tally vc p - 1 <=? 0)%Z eqn:E.
  - apply Z.leb_le in E. rewrite tally_pop by now apply dict_wf_set.
    rewrite String.eqb_refl. lia.
  - now rewrite tally_set, String.eqb_refl.
Qed.

(** What [withdraw] does to each tally. *)
Lemma tally_withdraw prev vc q :
  dict_wf vc -> tallies_positive vc ->
  tally (withdraw prev vc) q = (tally vc q - (if gave_up prev vc q then 1 else 0))%Z.
Proof.
  intros Hwf Hpos. destruct prev as [p|]; [|unfold withdraw; cbn [gave_up]; lia].
  cbn [gave_up]. destruct (String.eqb_spec p q) as [->|Hne].
  - cbn [andb]. destruct (PyStr.truthy q && dict_mem vc q)%bool eqn:E.
    + apply andb_true_iff in E. destruct E as [Et Em].
      apply tally_withdraw_exact; [exact Hwf|now apply truthy_true|].
      rewrite mem_tally_pos in Em by exact Hpos. apply Z.ltb_lt in Em. lia.
    + unfold withdraw. rewrite E. lia.
  - cbn [andb]. rewrite tally_withdraw_other; [lia|exact Hwf|congruence].
Qed.

Lemma option_eq_dec_str (a b : option string) : {a = b} + {a <> b}.
Proof. decide equality. apply string_dec. Qed.

Lemma consume_vote_accepted u m st :
  voting_active st = true -> sender_of u <> "" -> normalize_phrase m <> "" ->
  dict_get (user_votes st) (sender_of u) <> Some (vote_target (vote_counts st) m) ->
  consume_vote u m st =
  refresh_table_from_votes
    (with_ledger
       (dict_set (withdraw (dict_get (user_votes st) (sender_of u)) (vote_counts st))
                 (vote_target (vote_counts st) m)
                 (tally (withdraw (dict_get (user_votes st) (sender_of u)) (vote_counts st))
                        (vote_target (vote_counts st) m) + 1)%Z)
       (dict_set (user_votes st) (sender_of u) (vote_target (vote_counts st) m))
       st).
Proof.
  intros Ha Hu Hm Hprev. rewrite consume_vote_unfold, Ha. cbn [negb]. cbv zeta.
  fold (sender_of u). apply truthy_true in Hu, Hm. rewrite Hu, Hm. cbn [negb].
  fold (vote_target (vote_counts st) m).
  destruct (same_phrase _ _) eqn:Es; [|reflexivity].
  apply same_phrase_true in Es. contradiction.
Qed.

Lemma consume_vote_repeated u m st :
  dict_get (user_votes st) (sender_of u) = Some (vote_target (vote_counts st) m) ->
  consume_vote u m st = st.
Proof.
  intros Hprev. rewrite consume_vote_unfold. cbv zeta.
  destruct (negb (voting_active st)); [reflexivity|].
  destruct (negb (PyStr.truthy (PyStr.lower (PyStr.strip u)))); [reflexivity|].
  destruct (negb (PyStr.truthy (normalize_phrase m))); [reflexivity|].
  fold (sender_of u). fold (vote_target (vote_counts st) m).
  apply same_phrase_true in Hprev. now rewrite Hprev.
Qed.

(** X4.  An accepted chat vote (window open, sender and phrase not empty)
    leaves the sender on the resolved target and touches no other sender.  If
    the sender was on the target already nothing changes; otherwise the
    target's tally goes up by one, the tally of the phrase the sender gives up
    goes down by one, every other tally stays, and a phrase has an entry
    afterwards exactly when its tally is positive (a phrase that reaches 0 is
    removed). *)
Theorem consume_vote_effect (st : App) (u m : string)
        (Hwf : dict_wf (vote_counts st))
        (Hpos : tallies_positive (vote_counts st))
        (Hactive : voting_active st = true)
        (Hu : sender_of u <> "")
        (Hm : normalize_phrase m <> "") :
  let user := sender_of u in
  let target := vote_target (vote_counts st) m in
  let prev := dict_get (user_votes st) user in
  let st' := consume_vote u m st in
  dict_get (user_votes st') user = Some target
  /\ (forall u', u' <> user -> dict_get (user_votes st') u' = dict_get (user_votes st) u')
  /\ (prev = Some target -> st' = st)
  /\ (prev <> Some target ->
      forall q, tally (vote_counts st') q
                = (tally (vote_counts st) q
                   + (if String.eqb target q then 1 else 0)
                   - (if gave_up prev (vote_counts st) q then 1 else 0))%Z)
  /\ (forall q, dict_mem (vote_counts st') q = (0 <? tally (vote_counts st') q)%Z).
Proof.
  cbv zeta.
  destruct (option_eq_dec_str (dict_get (user_votes st) (sender_of u))
                              (Some (vote_target (vote_counts st) m))) as [Heq|Hne].
  - rewrite (consume_vote_repeated u m st Heq).
    split; [exact Heq|]. split; [reflexivity|]. split; [reflexivity|].
    split; [contradiction|]. intros q. now apply mem_tally_pos.
  - rewrite (consume_vote_accepted u m st Hactive Hu Hm Hne).
    rewrite refresh_vote_counts, refresh_user_votes.
    cbn [with_ledger vote_counts user_votes].
    split; [apply dict_get_set_same|].
    split; [intros u' Hu'; apply dict_get_set_other; congruence|].
    split; [contradiction|].
    split.
    + intros _ q. rewrite tally_set.
      destruct (String.eqb_spec (vote_target (vote_counts st) m) q) as [->|Hq];
        rewrite tally_withdraw by assumption; lia.
    + intros q. apply mem_tally_pos. apply positive_set; [now apply positive_withdraw|].
      pose proof (tally_nonneg (withdraw (dict_get (user_votes st) (sender_of u))
                                         (vote_counts st))
                               (vote_target (vote_counts st) m)
                               (positive_withdraw _ _ Hpos)). lia.
Qed.

Lemma consume_vote_effect_witness :
  dict_get (user_votes (consume_vote " Alice " "Dogs!" one_vote)) "alice" = Some "dogs"
  /\ tally (vote_counts (consume_vote " Alice " "Dogs!" one_vote)) "cats" = 0%Z
  /\ dict_mem (vote_counts (consume_vote " Alice " "Dogs!" one_vote)) "cats" = false.
Proof.
  assert (Hwf : dict_wf (vote_counts one_vote)).
  { change (dict_wf [("cats", 1%Z)]). unfold dict_wf. repeat constructor. simpl. tauto. }
  assert (Hpos : tallies_positive (vote_counts one_vote)) by (repeat constructor).
  assert (Hact : voting_active one_vote = true) by reflexivity.
  assert (Hu : sender_of " Alice " <> "") by (vm_compute; discriminate).
  assert (Hm : normalize_phrase "Dogs!" <> "") by (vm_compute; discriminate).
  destruct (consume_vote_effect one_vote " Alice " "Dogs!" Hwf Hpos Hact Hu Hm)
    as (Huser & _ & _ & Htally & Hmem).
  split; [exact Huser|].
  assert (Hcats : tally (vote_counts (consume_vote " Alice " "Dogs!" one_vote)) "cats" = 0%Z).
  { rewrite Htally; [reflexivity|]. vm_compute. discriminate. }
  split; [exact Hcats|].
  rewrite Hmem, Hcats. reflexivity.
Defined.

(** ** Each tally counts its senders *)

Lemma exact_move vc uv user target :
  dict_wf vc -> tallies_positive vc -> (forall u, ~ In (u, "") uv) ->
  tallies_count_senders vc uv ->
  dict_get uv user <> Some target ->
  let vc1 := withdraw (dict_get uv user) vc in
  tallies_count_senders (dict_set vc1 target (dict_get_or vc1 target 0 + 1)%Z)
                        (dict_set uv user target).
Proof.
  intros Hwf Hpos Hne Hex Hprev vc1 q. fold (tally vc1 target). rewrite tally_set.
  subst vc1. rewrite !tally_withdraw by assumption.
  pose proof (Hex q) as Hq. pose proof (Hex target) as Ht.
  destruct (dict_get uv user) as [p0|] eqn:Eprev.
  - pose proof (senders_set_present uv user target q p0 Eprev) as Hs.
    assert (Hin : In (user, p0) uv) by now apply dict_get_In.
    assert (Hp0 : PyStr.truthy p0 = true).
    { apply truthy_true. intros ->. now apply (Hne user). }
    assert (Hmem : dict_mem vc p0 = true).
    { apply tally_mem. rewrite (Hex p0). apply senders_pos in Hin. lia. }
    cbn [gave_up]. rewrite Hp0, Hmem, !andb_true_r.
    assert (Hpt : String.eqb p0 target = false) by (apply String.eqb_neq; congruence).
    rewrite Hpt.
    destruct (String.eqb_spec target q) as [->|Htq].
    + rewrite Hpt in Hs. lia.
    + destruct (String.eqb p0 q); lia.
  - pose proof (senders_set_absent uv user target q Eprev) as Hs.
    cbn [gave_up]. destruct (String.eqb_spec target q) as [->|Htq]; lia.
Qed.

Lemma exact_consume_vote u m st :
  dict_wf (vote_counts st) /\ tallies_positive (vote_counts st)
  /\ (forall s, ~ In (s, "") (user_votes st))
  /\ tallies_count_senders (vote_counts st) (user_votes st) ->
  dict_wf (vote_counts (consume_vote u m st))
  /\ tallies_positive (vote_counts (consume_vote u m st))
  /\ (forall s, ~ In (s, "") (user_votes (consume_vote u m st)))
  /\ tallies_count_senders (vote_counts (consume_vote u m st))
                           (user_votes (consume_vote u m st)).
Proof.
  intros H. pose proof H as (Hwf & Hpos & Hne & Hex).
  rewrite consume_vote_unfold. cbv zeta.
  destruct (negb (voting_active st)); [exact H|].
  destruct (negb (PyStr.truthy (PyStr.lower (PyStr.strip u)))); [exact H|].
  destruct (PyStr.truthy (normalize_phrase m)) eqn:Ep; cbn [negb]; [|exact H].
  destruct (same_phrase _ _) eqn:Es; [exact H|].
  rewrite refresh_vote_counts, refresh_user_votes. cbn [with_ledger vote_counts user_votes].
  split; [apply dict_wf_set; now apply dict_wf_withdraw|].
  split.
  { apply positive_set; [now apply positive_withdraw|].
    match goal with |- (0 < dict_get_or ?d ?k 0 + 1)%Z =>
      pose proof (tally_nonneg d k (positive_withdraw _ _ Hpos)) as Hn end.
    unfold tally in Hn. lia. }
  split.
  { intros s Hin. apply In_dict_set in Hin. destruct Hin as [Hin|Heq].
    - now apply (Hne s).
    - apply (f_equal snd) in Heq. cbn [snd] in Heq. symmetry in Heq.
      exact (or_else_truthy _ _ Ep Heq). }
  apply exact_move; [exact Hwf|exact Hpos|exact Hne|exact Hex|].
  apply same_phrase_false. exact Es.
Qed.

(** X5.  Starting from an empty ledger, after any sequence of chat votes
    the tally of every phrase is the number of senders whose current vote is
    that phrase; so a phrase has an entry exactly when some sender is on it. *)
Theorem tallies_equal_senders (st0 : App) (votes : list (string * string))
        (Hvc : vote_counts st0 = []) (Huv : user_votes st0 = []) :
  let st := apply_votes votes st0 in
  forall p, tally (vote_counts st) p = Z.of_nat (senders_of (user_votes st) p)
            /\ (dict_mem (vote_counts st) p = true <-> exists u, In (u, p) (user_votes st)).
Proof.
  cbv zeta.
  assert (Hinv : dict_wf (vote_counts (apply_votes votes st0))
                 /\ tallies_positive (vote_counts (apply_votes votes st0))
                 /\ (forall s, ~ In (s, "") (user_votes (apply_votes votes st0)))
                 /\ tallies_count_senders (vote_counts (apply_votes votes st0))
                                          (user_votes (apply_votes votes st0))).
  { assert (H0 : dict_wf (vote_counts st0) /\ tallies_positive (vote_counts st0)
                 /\ (forall s, ~ In (s, "") (user_votes st0))
                 /\ tallies_count_senders (vote_counts st0) (user_votes st0)).
    { rewrite Hvc, Huv. repeat split; try constructor. intros s []. }
    clear Hvc Huv. revert H0. generalize st0. unfold apply_votes.
    induction votes as [|[u m] votes IH]; intros st H; cbn [fold_left]; [exact H|].
    apply IH. cbn [fst snd]. now apply exact_consume_vote. }
  destruct Hinv as (Hwf & Hpos & _ & Hex).
  intros p. split; [apply Hex|].
  rewrite mem_tally_pos by exact Hpos. rewrite Hex. split.
  - intros H. apply Z.ltb_lt in H. unfold senders_of in H.
    destruct (filter _ _) as [|[u q] l] eqn:E; [cbn in H; lia|].
    assert (Hin : In (u, q) (filter (fun e => String.eqb (snd e) p)
                                    (user_votes (apply_votes votes st0))))
      by (rewrite E; now left).
    apply filter_In in Hin. destruct Hin as [Hin Hq]. cbn [snd] in Hq.
    apply String.eqb_eq in Hq. subst q. now exists u.
  - intros [u Hin]. apply senders_pos in Hin. apply Z.ltb_lt. lia.
Qed.

Lemma tallies_equal_senders_witness :
  let st := apply_votes [("Alice", "Pizza!"); ("bob", "piza "); ("alice", "dogs")]
                        (start_vote 0 init) in
  tally (vote_counts st) "pizza" = Z.of_nat (senders_of (user_votes st) "pizza")
  /\ tally (vote_counts st) "pizza" = 1%Z.
Proof.
  cbv zeta. split; [|reflexivity].
  apply (tallies_equal_senders (start_vote 0 init)); reflexivity.
Defined.

(** ** What the view leaves out *)

Lemma StronglySorted_app_le {A : Type} (R : A -> A -> Prop) (l1 l2 : list A) :
  StronglySorted R (l1 ++ l2) -> forall a b, In a l1 -> In b l2 -> R a b.
Proof.
  induction l1 as [|x l1 IH]; cbn [app]; intros Hs a b Ha Hb; [destruct Ha|].
  inversion Hs as [|? ? Hs' Hall]; subst. destruct Ha as [<-|Ha].
  - rewrite Forall_forall in Hall. apply Hall. apply in_or_app. now right.
  - now apply IH.
Qed.

(** X6.  The top-K view of a tally map has min(K, number of phrases)
    entries, each of them an entry of the map, and it leaves out only phrases
    that come later in the order: a phrase outside the view never has more
    votes than a phrase inside it. *)
Theorem top_votes_keeps_the_largest (vc : dict Z) (k : Z)
        (Hwf : dict_wf vc) (Hk : (1 <= k)%Z) :
  List.length (top_votes vc k) = Nat.min (Z.to_nat k) (List.length vc)
  /\ (forall e, In e (top_votes vc k) -> In e vc)
  /\ (forall e e', In e (top_votes vc k) -> In e' vc -> ~ In e' (top_votes vc k) ->
                   key_le e e' /\ (snd e' <= snd e)%Z).
Proof.
  rewrite top_votes_firstn by (assumption || lia).
  split.
  { rewrite length_firstn. f_equal. apply Permutation_length, sorted_by_perm. }
  split.
  { intros e He. apply In_firstn in He.
    eapply Permutation_in; [apply sorted_by_perm|exact He]. }
  intros e e' He He' Hout.
  assert (Hs : StronglySorted key_le (sorted_by key_leb vc)).
  { apply StronglySorted_key_le, sorted_by_sorted;
      [exact key_leb_total|exact key_leb_trans]. }
  rewrite <- (firstn_skipn (Z.to_nat k) (sorted_by key_leb vc)) in Hs.
  assert (Hin : In e' (firstn (Z.to_nat k) (sorted_by key_leb vc)
                       ++ skipn (Z.to_nat k) (sorted_by key_leb vc))).
  { rewrite firstn_skipn. eapply Permutation_in; [|exact He'].
    apply Permutation_sym, sorted_by_perm. }
  apply in_app_or in Hin. destruct Hin as [Hin|Hin]; [contradiction|].
  assert (Hle : key_le e e') by (eapply StronglySorted_app_le; eassumption).
  split; [exact Hle|]. destruct Hle as [Hlt|[Heq _]]; lia.
Qed.

Lemma top_votes_keeps_the_largest_witness :
  List.length (top_votes [("c", 1%Z); ("b", 3%Z); ("a", 3%Z)] 2) = 2
  /\ (1 <= 3)%Z.
Proof.
  assert (Hwf : dict_wf [("c", 1%Z); ("b", 3%Z); ("a", 3%Z)]).
  { unfold dict_wf. simpl. repeat constructor; simpl; intuition discriminate. }
  assert (Hk : (1 <= 2)%Z) by lia.
  destruct (top_votes_keeps_the_largest [("c", 1%Z); ("b", 3%Z); ("a", 3%Z)] 2 Hwf Hk)
    as (Hlen & _ & Hdom).
  split; [exact Hlen|].
  apply (Hdom ("b", 3%Z) ("c", 1%Z)).
  - vm_compute. tauto.
  - now left.
  - vm_compute. intuition discriminate.
Defined.

(** ** When the voting window closes *)

Lemma Qtrunc_pos_iff x : (0 < Qtrunc x)%Z <-> (1 <= x)%Q.
Proof.
  unfold Qtrunc. destruct (Qle_bool 0 x) eqn:E.
  - apply Qle_bool_iff in E. split; intros H.
    + pose proof (Qfloor_le x) as Hf.
      assert (H1 : (1 <= Qfloor x)%Z) by lia.
      rewrite Zle_Qle in H1. change (inject_Z 1) with 1%Q in H1. lra.
    + apply Qfloor_resp_le in H. change (Qfloor 1) with 1%Z in H. lia.
  - apply Qle_bool_false in E. split; intros H.
    + assert (Hn : (0 <= Qfloor (- x))%Z) by (apply Qfloor_nonneg; lra). lia.
    + lra.
Qed.

(** X7.  The window [start_vote] opens at time t0 is still open after a
    timer tick at time t1 exactly when t1 <= t0 + 119: the remaining time is
    truncated to whole seconds, so the tick closes the window as soon as less
    than one second is left. *)
Theorem voting_window_boundary (st : App) (t0 t1 : Q) :
  voting_active (update_timer t1 (start_vote t0 st)) = true <-> (t1 <= t0 + 119)%Q.
Proof.
  unfold update_timer. cbn [start_vote with_voting voting_active vote_end_at].
  pose proof (Qtrunc_pos_iff (t0 + VOTE_DURATION_SECONDS - t1)) as Ht.
  unfold VOTE_DURATION_SECONDS in *.
  destruct (Z.max 0 (Qtrunc (t0 + 120 - t1)) <=? 0)%Z eqn:E.
  - apply Z.leb_le in E. cbn [voting_active]. split; [discriminate|].
    intros H. assert (H1 : (1 <= t0 + 120 - t1)%Q) by lra. apply Ht in H1. lia.
  - apply Z.leb_gt in E. cbn [voting_active]. split; [|reflexivity].
    intros _. assert (H0 : (0 < Qtrunc (t0 + 120 - t1))%Z) by lia.
    apply Ht in H0. lra.
Qed.

(** ** Manual edits *)

Lemma tally_set_or_pop (d : dict Z) k v q :
  dict_wf d ->
  tally (if (dict_get_or (dict_set d k v) k 0 <=? 0)%Z
         then dict_pop (dict_set d k v) k else dict_set d k v) q
  = if String.eqb k q then Z.max 0 v else tally d q.
Proof.
  intros Hwf. unfold dict_get_or at 1. rewrite dict_get_set_same.
  destruct (v <=? 0)%Z eqn:E.
  - apply Z.leb_le in E. rewrite tally_pop by now apply dict_wf_set.
    destruct (String.eqb_spec k q) as [->|Hne]; [lia|].
    rewrite tally_set. now destruct (String.eqb_spec k q).
  - apply Z.leb_gt in E. rewrite tally_set.
    destruct (String.eqb k q); [lia|reflexivity].
Qed.

Lemma add_or_update_vote_counts a b st :
  normalize_phrase a <> "" ->
  vote_counts (add_or_update_segment a b st) =
  let vc := vote_counts st in
  let target := segment_target vc (normalize_phrase a) in
  let count := segment_count vc (normalize_phrase a) (safe_int b 1) in
  if (dict_get_or (dict_set vc target count) target 0 <=? 0)%Z
  then dict_pop (dict_set vc target count) target else dict_set vc target count.
Proof.
  intros Hp. rewrite add_or_update_unfold. cbv zeta.
  apply truthy_true in Hp. rewrite Hp. cbn [negb].
  unfold segment_target, segment_count, tally.
  destruct (find_matching_phrase (vote_counts st) (normalize_phrase a) "") as [m|];
    [destruct (PyStr.truthy m && negb (String.eqb m (normalize_phrase a)))%bool|];
    rewrite refresh_vote_counts; reflexivity.
Qed.

(** X8.  [add_or_update_segment] with a non-empty phrase changes the tally
    of one phrase only: the first fuzzy match if it differs from the typed
    phrase, to which the votes are added, and otherwise the typed phrase,
    whose count is overwritten.  The result is floored at 0 and a phrase left
    at 0 loses its entry; an empty phrase changes nothing; the sender map is
    never touched. *)
Theorem add_or_update_effect (st : App) (a b : string)
        (Hwf : dict_wf (vote_counts st)) :
  let phrase := normalize_phrase a in
  let target := segment_target (vote_counts st) phrase in
  let count := segment_count (vote_counts st) phrase (safe_int b 1) in
  let st' := add_or_update_segment a b st in
  (phrase = "" -> st' = st)
  /\ (phrase <> "" ->
      (forall q, tally (vote_counts st') q
                 = if String.eqb target q then count else tally (vote_counts st) q)
      /\ dict_mem (vote_counts st') target = (0 <? count)%Z
      /\ (0 <= count)%Z)
  /\ user_votes st' = user_votes st.
Proof.
  cbv zeta. split; [|split].
  - intros Hp. rewrite add_or_update_unfold. cbv zeta. now rewrite Hp.
  - intros Hp.
    assert (Hc : (0 <= segment_count (vote_counts st) (normalize_phrase a) (safe_int b 1))%Z).
    { unfold segment_count. destruct (find_matching_phrase _ _ _) as [m|];
        [destruct (PyStr.truthy m && _)%bool|]; lia. }
    assert (Ht : forall q,
               tally (vote_counts (add_or_update_segment a b st)) q
               = if String.eqb (segment_target (vote_counts st) (normalize_phrase a)) q
                 then segment_count (vote_counts st) (normalize_phrase a) (safe_int b 1)
                 else tally (vote_counts st) q).
    { intros q. rewrite add_or_update_vote_counts by exact Hp. cbv zeta.
      rewrite tally_set_or_pop by exact Hwf.
      destruct (String.eqb _ q); [lia|reflexivity]. }
    split; [exact Ht|]. split; [|exact Hc].
    rewrite add_or_update_vote_counts by exact Hp. cbv zeta.
    unfold dict_get_or at 1. rewrite dict_get_set_same.
    destruct (segment_count (vote_counts st) (normalize_phrase a) (safe_int b 1) <=? 0)%Z eqn:E.
    + apply Z.leb_le in E. unfold dict_mem.
      rewrite dict_get_pop_same by now apply dict_wf_set.
      symmetry. apply Z.ltb_ge. exact E.
    + apply Z.leb_gt in E. unfold dict_mem. rewrite dict_get_set_same.
      symmetry. apply Z.ltb_lt. exact E.
  - apply manual_edits_keep_senders.
Qed.

Lemma add_or_update_effect_witness :
  tally (vote_counts (add_or_update_segment "Cat" "4" one_vote)) "cats" = 5%Z
  /\ tally (vote_counts (add_or_update_segment "cats" "4" one_vote)) "cats" = 4%Z
  /\ dict_mem (vote_counts (add_or_update_segment "cats" "-4" one_vote)) "cats" = false.
Proof.
  assert (Hwf : dict_wf (vote_counts one_vote)).
  { change (dict_wf [("cats", 1%Z)]). unfold dict_wf. repeat constructor. simpl. tauto. }
  destruct (add_or_update_effect one_vote "Cat" "4" Hwf) as (_ & H1 & _).
  destruct (add_or_update_effect one_vote "cats" "4" Hwf) as (_ & H2 & _).
  destruct (add_or_update_effect one_vote "cats" "-4" Hwf) as (_ & H3 & _).
  split; [|split].
  - destruct H1 as (H1 & _); [vm_compute; discriminate|]. rewrite H1. reflexivity.
  - destruct H2 as (H2 & _); [vm_compute; discriminate|]. rewrite H2. reflexivity.
  - destruct H3 as (_ & H3 & _); [vm_compute; discriminate|]. exact H3.
Defined.

Lemma tally_fold_pop (rows : list (string * Z)) (sel : list nat) :
  forall (vc : dict Z) q,
    dict_wf vc ->
    let vc' := fold_left (fun vc item =>
                            match nth_error rows item with
                            | Some row => dict_pop vc (fst row)
                            | None => vc
                            end) sel vc in
    dict_wf vc' /\ tally vc' q = if selected rows sel q then 0%Z else tally vc q.
Proof.
  induction sel as [|item sel IH]; intros vc q Hwf; cbn [fold_left selected existsb].
  - now split.
  - cbv zeta in IH.
    destruct (nth_error rows item) as [row|] eqn:Erow.
    + destruct (IH (dict_pop vc (fst row)) q (dict_wf_pop _ _ Hwf)) as [Hwf' Ht].
      split; [exact Hwf'|]. rewrite Ht. fold (selected rows sel q).
      rewrite tally_pop by exact Hwf.
      destruct (String.eqb (fst row) q); cbn [orb]; [now destruct (selected rows sel q)|].
      reflexivity.
    + cbn [orb]. apply IH. exact Hwf.
Qed.

(** X9.  [remove_selected] deletes the entries of the phrases in the
    selected rows and nothing else: their tallies become 0, every other tally
    and the whole sender map stay as they were; with nothing selected the
    state is unchanged. *)
Theorem remove_selected_effect (st : App) (selection : list nat)
        (Hwf : dict_wf (vote_counts st)) :
  let st' := remove_selected selection st in
  (selection = [] -> st' = st)
  /\ (forall q, tally (vote_counts st') q
                = if selected (tree st) selection q then 0%Z else tally (vote_counts st) q)
  /\ dict_wf (vote_counts st')
  /\ user_votes st' = user_votes st.
Proof.
  cbv zeta. split; [intros ->; reflexivity|].
  assert (H : forall q,
             dict_wf (vote_counts (remove_selected selection st))
             /\ tally (vote_counts (remove_selected selection st)) q
                = if selected (tree st) selection q then 0%Z else tally (vote_counts st) q).
  { intros q. unfold remove_selected. destruct selection as [|i sel]; [now split|].
    rewrite refresh_vote_counts. cbn [with_ledger vote_counts].
    apply (tally_fold_pop (tree st) (i :: sel) (vote_counts st) q Hwf). }
  split; [intros q; apply H|]. split; [apply (H "")|].
  apply manual_edits_keep_senders.
Qed.

Lemma remove_selected_effect_witness :
  tally (vote_counts (remove_selected [0] one_vote)) "cats" = 0%Z
  /\ user_votes (remove_selected [0] one_vote) = user_votes one_vote.
Proof.
  assert (Hwf : dict_wf (vote_counts one_vote)).
  { change (dict_wf [("cats", 1%Z)]). unfold dict_wf. repeat constructor. simpl. tauto. }
  destruct (remove_selected_effect one_vote [0] Hwf) as (_ & Ht & _ & Hu).
  split; [|exact Hu]. rewrite Ht. reflexivity.
Defined.

(** ** The cell editor *)

(** A row of an up-to-date table is an entry of the tally map. *)
Lemma sync_row st item p v :
  dict_wf (vote_counts st) -> display_in_sync st ->
  nth_error (tree st) item = Some (p, v) -> dict_get (vote_counts st) p = Some v.
Proof.
  intros Hwf (Htree & _) Hrow. apply nth_error_In in Hrow. rewrite Htree in Hrow.
  apply In_dict_of_items in Hrow. apply In_dict_get; [exact Hwf|].
  eapply Permutation_in; [apply sorted_by_perm|exact Hrow].
Qed.

Lemma find_matching_phrase_is_key vc phrase ignore_phrase e :
  find_matching_phrase vc phrase ignore_phrase = Some e -> In e (dict_keys vc).
Proof.
  unfold find_matching_phrase. destruct (negb (PyStr.truthy phrase)); [discriminate|].
  intros H. pose proof (first_match_spec phrase ignore_phrase (dict_keys vc)) as Hs.
  rewrite H in Hs. destruct Hs as (before & after & -> & _).
  apply in_or_app. right. now left.
Qed.

Lemma rename_target_not_old vc phrase_old text :
  dict_wf vc -> normalize_phrase (PyStr.strip text) <> phrase_old ->
  rename_target vc phrase_old text <> phrase_old.
Proof.
  intros Hwf Hne. unfold rename_target. cbv zeta. unfold or_else.
  destruct (find_matching_phrase _ _ _) as [e|] eqn:E; [|exact Hne].
  destruct (PyStr.truthy e); [|exact Hne].
  apply find_matching_phrase_is_key in E. rewrite dict_keys_pop in E.
  intros ->. revert E. now apply remove_first_not_In.
Qed.

Lemma save_edit_rename st item text phrase_old votes_old :
  nth_error (tree st) item = Some (phrase_old, votes_old) ->
  normalize_phrase (PyStr.strip text) <> "" ->
  normalize_phrase (PyStr.strip text) <> phrase_old ->
  vote_counts (save_edit item ColPhrase text st)
  = dict_set (dict_pop (vote_counts st) phrase_old)
             (rename_target (vote_counts st) phrase_old text)
             (tally (dict_pop (vote_counts st) phrase_old)
                    (rename_target (vote_counts st) phrase_old text) + votes_old)%Z.
Proof.
  intros Hrow Hne Hold. unfold save_edit. rewrite Hrow. cbv zeta.
  apply truthy_true in Hne. rewrite Hne. cbn [negb].
  apply String.eqb_neq in Hold. rewrite Hold. cbn [negb].
  rewrite refresh_vote_counts. reflexivity.
Qed.

Lemma save_edit_rename_same st item text :
  (forall phrase_old votes_old,
      nth_error (tree st) item = Some (phrase_old, votes_old) ->
      normalize_phrase (PyStr.strip text) = "" \/
      normalize_phrase (PyStr.strip text) = phrase_old) ->
  vote_counts (save_edit item ColPhrase text st) = vote_counts st.
Proof.
  intros H. unfold save_edit.
  destruct (nth_error (tree st) item) as [[phrase_old votes_old]|]; [|reflexivity].
  cbv zeta. destruct (H phrase_old votes_old eq_refl) as [He|He].
  - rewrite He. reflexivity.
  - destruct (negb (PyStr.truthy _)); [reflexivity|].
    apply String.eqb_eq in He. rewrite He. reflexivity.
Qed.

(** X10.  Renaming a segment in the table, when the table is up to date,
    never loses or creates votes: the sum of the tallies is the same before
    and after.  The old phrase loses its entry and its count is added to the
    phrase the new text resolves to (a fuzzy match among the other phrases, or
    the new text itself); every other tally and the sender map are unchanged. *)
Theorem rename_conserves_votes (st : App) (item : nat) (text : string)
        (Hwf : dict_wf (vote_counts st)) (Hsync : display_in_sync st) :
  let st' := save_edit item ColPhrase text st in
  sum_Z (dict_values (vote_counts st')) = sum_Z (dict_values (vote_counts st))
  /\ user_votes st' = user_votes st
  /\ (forall phrase_old votes_old,
         nth_error (tree st) item = Some (phrase_old, votes_old) ->
         normalize_phrase (PyStr.strip text) <> "" ->
         normalize_phrase (PyStr.strip text) <> phrase_old ->
         let target := rename_target (vote_counts st) phrase_old text in
         target <> phrase_old
         /\ dict_mem (vote_counts st') phrase_old = false
         /\ tally (vote_counts st') target
            = (tally (vote_counts st) target + tally (vote_counts st) phrase_old)%Z
         /\ (forall q, q <> phrase_old -> q <> target ->
                       tally (vote_counts st') q = tally (vote_counts st) q)).
Proof.
  cbv zeta.
  assert (Hmove : forall phrase_old votes_old,
             nth_error (tree st) item = Some (phrase_old, votes_old) ->
             normalize_phrase (PyStr.strip text) <> "" ->
             normalize_phrase (PyStr.strip text) <> phrase_old ->
             tally (vote_counts st) phrase_old = votes_old
             /\ rename_target (vote_counts st) phrase_old text <> phrase_old
             /\ vote_counts (save_edit item ColPhrase text st)
                = dict_set (dict_pop (vote_counts st) phrase_old)
                           (rename_target (vote_counts st) phrase_old text)
                           (tally (vote_counts st)
                                  (rename_target (vote_counts st) phrase_old text)
                            + votes_old)%Z).
  { intros phrase_old votes_old Hrow Hne Hold.
    pose proof (rename_target_not_old (vote_counts st) phrase_old text Hwf Hold) as Ht.
    split; [|split; [exact Ht|]].
    - unfold tally, dict_get_or. now rewrite (sync_row st item phrase_old votes_old).
    - rewrite (save_edit_rename st item text phrase_old votes_old) by assumption.
      rewrite tally_pop by exact Hwf.
      destruct (String.eqb_spec phrase_old (rename_target (vote_counts st) phrase_old text));
        [congruence|reflexivity]. }
  split; [|split; [apply manual_edits_keep_senders|]].
  - destruct (nth_error (tree st) item) as [[phrase_old votes_old]|] eqn:Erow.
    + destruct (string_dec (normalize_phrase (PyStr.strip text)) "") as [He|Hne].
      { rewrite save_edit_rename_same; [reflexivity|]. intros; now left. }
      destruct (string_dec (normalize_phrase (PyStr.strip text)) phrase_old) as [He|Hold].
      { rewrite save_edit_rename_same; [reflexivity|].
        intros p v Hp. rewrite Erow in Hp. injection Hp as <- _. now right. }
      destruct (Hmove phrase_old votes_old eq_refl Hne Hold) as (Hv & Ht & ->).
      rewrite sum_values_set, sum_values_pop, tally_pop by exact Hwf.
      destruct (String.eqb_spec phrase_old (rename_target (vote_counts st) phrase_old text));
        [congruence|lia].
    + rewrite save_edit_rename_same; [reflexivity|]. intros p v Hp. congruence.
  - intros phrase_old votes_old Hrow Hne Hold.
    destruct (Hmove phrase_old votes_old Hrow Hne Hold) as (Hv & Ht & ->).
    split; [exact Ht|]. split; [|split].
    + unfold dict_mem. rewrite dict_get_set_other by exact Ht.
      now rewrite dict_get_pop_same.
    + rewrite tally_set, String.eqb_refl. lia.
    + intros q Hq1 Hq2. rewrite tally_set, tally_pop by exact Hwf.
      destruct (String.eqb_spec (rename_target (vote_counts st) phrase_old text) q);
        [congruence|].
      destruct (String.eqb_spec phrase_old q); [congruence|reflexivity].
Qed.

Lemma dict_set_same_value {V : Type} (d : dict V) k v :
  dict_get d k = Some v -> dict_set d k v = d.
Proof.
  induction d as [|[k' v'] d IH]; cbn [dict_get dict_set]; [discriminate|].
  destruct (String.eqb k' k); intros H; [congruence|]. now rewrite IH.
Qed.

(** X11.  Editing the votes cell of a row, when the table is up to date,
    changes the tally of that row's phrase only: to the number typed when it
    is positive, to nothing (the entry is removed) when it is zero or
    negative; text that is not a number leaves the tally map as it is. *)
Theorem votes_edit_effect (st : App) (item : nat) (text phrase_old : string) (votes_old : Z)
        (Hwf : dict_wf (vote_counts st)) (Hsync : display_in_sync st)
        (Hrow : nth_error (tree st) item = Some (phrase_old, votes_old)) :
  let st' := save_edit item ColVotes text st in
  let votes_new := safe_int (PyStr.strip text) (tally (vote_counts st) phrase_old) in
  (forall q, tally (vote_counts st') q
             = if String.eqb phrase_old q then Z.max 0 votes_new
               else tally (vote_counts st) q)
  /\ dict_mem (vote_counts st') phrase_old = (0 <? votes_new)%Z
  /\ (PyStr.int_of_str (PyStr.strip text) = None ->
      tallies_positive (vote_counts st) ->
      vote_counts st' = vote_counts st)
  /\ user_votes st' = user_votes st.
Proof.
  cbv zeta.
  pose proof (sync_row st item phrase_old votes_old Hwf Hsync Hrow) as Hget.
  assert (Hold : tally (vote_counts st) phrase_old = votes_old).
  { unfold tally, dict_get_or. now rewrite Hget. }
  assert (Hvc : vote_counts (save_edit item ColVotes text st)
                = if (safe_int (PyStr.strip text) votes_old <=? 0)%Z
                  then dict_pop (vote_counts st) phrase_old
                  else dict_set (vote_counts st) phrase_old
                                (safe_int (PyStr.strip text) votes_old)).
  { unfold save_edit. rewrite Hrow. cbv zeta. rewrite refresh_vote_counts.
    cbn [with_ledger vote_counts]. unfold dict_mem. now rewrite Hget. }
  rewrite Hvc, Hold.
  split; [|split; [|split; [|apply manual_edits_keep_senders]]].
  - intros q. destruct (safe_int (PyStr.strip text) votes_old <=? 0)%Z eqn:E.
    + apply Z.leb_le in E. rewrite tally_pop by exact Hwf.
      destruct (String.eqb phrase_old q); [lia|reflexivity].
    + apply Z.leb_gt in E. rewrite tally_set.
      destruct (String.eqb phrase_old q); [lia|reflexivity].
  - destruct (safe_int (PyStr.strip text) votes_old <=? 0)%Z eqn:E.
    + apply Z.leb_le in E. unfold dict_mem. rewrite dict_get_pop_same by exact Hwf.
      symmetry. now apply Z.ltb_ge.
    + apply Z.leb_gt in E. unfold dict_mem. rewrite dict_get_set_same.
      symmetry. now apply Z.ltb_lt.
  - intros Hnone Hpos. unfold safe_int. rewrite Hnone.
    assert (Hp : (0 < votes_old)%Z).
    { apply dict_get_In in Hget. unfold tallies_positive in Hpos.
      rewrite Forall_forall in Hpos. exact (Hpos _ Hget). }
    destruct (votes_old <=? 0)%Z eqn:E; [apply Z.leb_le in E; lia|].
    now apply dict_set_same_value.
Qed.

Lemma three_votes_ready : dict_wf (vote_counts three_votes) /\ display_in_sync three_votes.
Proof.
  split.
  - unfold dict_wf. vm_compute. repeat constructor; simpl; intuition discriminate.
  - split; [vm_compute; reflexivity|]. split; vm_compute; reflexivity.
Qed.

Lemma rename_conserves_votes_witness :
  sum_Z (dict_values (vote_counts (save_edit 1 ColPhrase "Dog" three_votes)))
  = sum_Z (dict_values (vote_counts three_votes))
  /\ dict_mem (vote_counts (save_edit 1 ColPhrase "Dog" three_votes)) "cats" = false.
Proof.
  destruct three_votes_ready as [Hwf Hsync].
  destruct (rename_conserves_votes three_votes 1 "Dog" Hwf Hsync) as (Hsum & _ & Hmove).
  split; [exact Hsum|].
  destruct (Hmove "cats" 1%Z) as (_ & Hgone & _).
  - vm_compute. reflexivity.
  - vm_compute. discriminate.
  - vm_compute. discriminate.
  - exact Hgone.
Defined.

Lemma votes_edit_effect_witness :
  dict_mem (vote_counts (save_edit 0 ColVotes " 7 " three_votes)) "dogs"
  = (0 <? safe_int (PyStr.strip " 7 ") (tally (vote_counts three_votes) "dogs"))%Z
  /\ vote_counts (save_edit 0 ColVotes "many" three_votes) = vote_counts three_votes.
Proof.
  destruct three_votes_ready as [Hwf Hsync].
  assert (Hrow : nth_error (tree three_votes) 0 = Some ("dogs", 2%Z))
    by (vm_compute; reflexivity).
  destruct (votes_edit_effect three_votes 0 " 7 " "dogs" 2%Z Hwf Hsync Hrow) as (_ & H7 & _).
  destruct (votes_edit_effect three_votes 0 "many" "dogs" 2%Z Hwf Hsync Hrow)
    as (_ & _ & Hnan & _).
  split.
  - exact H7.
  - apply Hnan; [vm_compute; reflexivity|].
    unfold tallies_positive. vm_compute. repeat constructor.
Defined.

(** ** Normalized phrases *)

Lemma chars_str l : PyStr.chars (PyStr.str l) = l.
Proof. apply list_ascii_of_string_of_list_ascii. Qed.

Lemma str_chars s : PyStr.str (PyStr.chars s) = s.
Proof. apply string_of_list_ascii_of_string. Qed.

Lemma chars_append a b : PyStr.chars (a ++ b)%string = PyStr.chars a ++ PyStr.chars b.
Proof. induction a as [|c a IH]; cbn; [reflexivity|]. now rewrite <- IH. Qed.

Lemma dropwhile_split p l :
  exists d, l = d ++ PyStr.dropwhile p l /\ Forall (fun c => p c = true) d.
Proof.
  induction l as [|c l (d & Hd & Hall)]; cbn.
  - exists []. split; [reflexivity|constructor].
  - destruct (p c) eqn:E.
    + exists (c :: d). split; [cbn; now rewrite <- Hd|now constructor].
    + exists []. split; [reflexivity|constructor].
Qed.

Lemma dropwhile_head p l :
  PyStr.dropwhile p l = l <-> match l with [] => True | c :: _ => p c = false end.
Proof.
  destruct l as [|c l]; cbn; [tauto|]. destruct (p c) eqn:E.
  - split; [|discriminate]. intros H.
    destruct (dropwhile_split p l) as (d & Hd & _).
    assert (Hlen : List.length (PyStr.dropwhile p l) = S (List.length l)) by now rewrite H.
    apply (f_equal (@List.length ascii)) in Hd. rewrite length_app in Hd. lia.
  - tauto.
Qed.

Lemma dropwhile_idem p l : PyStr.dropwhile p (PyStr.dropwhile p l) = PyStr.dropwhile p l.
Proof.
  induction l as [|c l IH]; cbn; [reflexivity|].
  destruct (p c) eqn:E; [exact IH|]. cbn. now rewrite E.
Qed.

Lemma Forall_dropwhile (P : ascii -> Prop) p l : Forall P l -> Forall P (PyStr.dropwhile p l).
Proof.
  induction 1 as [|c l Hc Hl IH]; cbn; [constructor|].
  destruct (p c); [exact IH|now constructor].
Qed.

Lemma Forall_strip_chars (P : ascii -> Prop) p l :
  Forall P l -> Forall P (PyStr.strip_chars p l).
Proof.
  intros H. unfold PyStr.strip_chars.
  apply Forall_rev, Forall_dropwhile, Forall_rev, Forall_dropwhile, H.
Qed.

(** What [strip] returns has no character of the stripped kind at its ends. *)
Lemma strip_chars_ends p l :
  PyStr.dropwhile p (PyStr.strip_chars p l) = PyStr.strip_chars p l
  /\ PyStr.dropwhile p (rev (PyStr.strip_chars p l)) = rev (PyStr.strip_chars p l).
Proof.
  unfold PyStr.strip_chars. set (l1 := PyStr.dropwhile p l).
  split.
  - destruct (dropwhile_split p (rev l1)) as (d & Hd & Hall).
    set (l2 := PyStr.dropwhile p (rev l1)) in *.
    apply dropwhile_head.
    assert (Hl1 : l1 = rev l2 ++ rev d).
    { rewrite <- rev_app_distr, <- Hd. now rewrite rev_involutive. }
    assert (Hhead : PyStr.dropwhile p l1 = l1) by apply dropwhile_idem.
    apply dropwhile_head in Hhead.
    destruct (rev l2) as [|c r]; [trivial|]. rewrite Hl1 in Hhead. exact Hhead.
  - rewrite rev_involutive. apply dropwhile_idem.
Qed.

Lemma strip_chars_idem p l :
  PyStr.strip_chars p (PyStr.strip_chars p l) = PyStr.strip_chars p l.
Proof.
  destruct (strip_chars_ends p l) as [H1 H2].
  unfold PyStr.strip_chars at 1. rewrite H1, H2. apply rev_involutive.
Qed.

Lemma words_no_space l :
  forall cur,
    Forall (fun c => PyStr.isspace c = false) cur ->
    Forall (fun w => Forall (fun c => PyStr.isspace c = false) (PyStr.chars w))
           (PyStr.words cur l).
Proof.
  induction l as [|c l IH]; intros cur Hcur; cbn [PyStr.words].
  - destruct cur; constructor; [|constructor].
    rewrite chars_str. now apply Forall_rev.
  - destruct (PyStr.isspace c) eqn:E.
    + destruct cur.
      * apply IH. constructor.
      * constructor; [rewrite chars_str; now apply Forall_rev|]. apply IH. constructor.
    + apply IH. now constructor.
Qed.

Lemma join_space_chars ws :
  Forall (fun w => Forall (fun c => PyStr.isspace c = false) (PyStr.chars w)) ws ->
  Forall (fun c => PyStr.isspace c = false \/ c = " "%char)
         (PyStr.chars (PyStr.join " " ws)).
Proof.
  unfold PyStr.join. induction 1 as [|w ws Hw Hws IH]; cbn [String.concat]; [constructor|].
  assert (Hw' : Forall (fun c => PyStr.isspace c = false \/ c = " "%char) (PyStr.chars w)).
  { eapply Forall_impl; [|exact Hw]. intros c Hc. now left. }
  destruct ws as [|w' ws]; [exact Hw'|].
  rewrite !chars_append. apply Forall_app. split; [exact Hw'|].
  apply Forall_app. split; [repeat constructor; now right|exact IH].
Qed.

Lemma normalize_phrase_chars text :
  Forall (fun c => phrase_char c = true) (PyStr.chars (normalize_phrase text)).
Proof.
  unfold normalize_phrase. cbv zeta. unfold PyStr.strip at 1.
  rewrite !chars_str.
  set (lowered := PyStr.chars (PyStr.join " " (PyStr.split_ws (PyStr.lower (PyStr.strip text))))).
  apply Forall_strip_chars. apply Forall_forall. intros c Hc.
  apply filter_In in Hc. destruct Hc as [Hin Hkeep].
  assert (Hsp : PyStr.isspace c = false \/ c = " "%char).
  { pose proof (join_space_chars (PyStr.split_ws (PyStr.lower (PyStr.strip text)))
                  (words_no_space _ [] (Forall_nil _))) as Hall.
    rewrite Forall_forall in Hall. now apply Hall. }
  unfold phrase_char. destruct Hsp as [Hsp| ->]; [|reflexivity].
  rewrite Hsp, orb_false_r in Hkeep. now rewrite Hkeep.
Qed.

Lemma normalize_phrase_trimmed text : trimmed (PyStr.chars (normalize_phrase text)).
Proof.
  unfold normalize_phrase. cbv zeta. unfold PyStr.strip at 1.
  rewrite !chars_str. apply strip_chars_ends.
Qed.

(** X12.  A normalized phrase is made of lower-case letters, digits and
    single-byte spaces only, and has no space at either end: normalizing never
    yields a phrase that [strip] would change. *)
Theorem normalize_phrase_shape (text : string) :
  Forall (fun c => phrase_char c = true) (PyStr.chars (normalize_phrase text))
  /\ trimmed (PyStr.chars (normalize_phrase text))
  /\ PyStr.strip (normalize_phrase text) = normalize_phrase text.
Proof.
  split; [apply normalize_phrase_chars|]. split; [apply normalize_phrase_trimmed|].
  destruct (normalize_phrase_trimmed text) as [H1 H2].
  unfold PyStr.strip, PyStr.strip_chars. rewrite H1, H2, rev_involutive.
  apply str_chars.
Qed.

(** ** Upper and lower case *)

Lemma isspace_lower_char c : PyStr.isspace (PyStr.lower_char c) = PyStr.isspace c.
Proof. destruct c as [[] [] [] [] [] [] [] []]; reflexivity. Qed.

Lemma lower_char_idem c : PyStr.lower_char (PyStr.lower_char c) = PyStr.lower_char c.
Proof. destruct c as [[] [] [] [] [] [] [] []]; reflexivity. Qed.

Lemma dropwhile_map_lower l :
  PyStr.dropwhile PyStr.isspace (map PyStr.lower_char l)
  = map PyStr.lower_char (PyStr.dropwhile PyStr.isspace l).
Proof.
  induction l as [|c l IH]; cbn; [reflexivity|].
  rewrite isspace_lower_char. destruct (PyStr.isspace c); [exact IH|reflexivity].
Qed.

Lemma strip_lower s : PyStr.strip (PyStr.lower s) = PyStr.lower (PyStr.strip s).
Proof.
  unfold PyStr.strip, PyStr.lower, PyStr.strip_chars. rewrite !chars_str. f_equal.
  now rewrite dropwhile_map_lower, <- map_rev, dropwhile_map_lower, map_rev.
Qed.

Lemma lower_idem s : PyStr.lower (PyStr.lower s) = PyStr.lower s.
Proof.
  unfold PyStr.lower. rewrite chars_str, map_map. f_equal.
  apply map_ext. apply lower_char_idem.
Qed.

Lemma normalize_phrase_lower s : normalize_phrase (PyStr.lower s) = normalize_phrase s.
Proof. unfold normalize_phrase. now rewrite strip_lower, lower_idem. Qed.

Lemma sender_of_lower u : sender_of (PyStr.lower u) = sender_of u.
Proof. unfold sender_of. now rewrite strip_lower, lower_idem. Qed.

(** X13.  Votes do not depend on letter case: lower-casing the sender name
    or the message before the call gives the same sender key, the same phrase
    and the same state after [consume_vote]. *)
Theorem votes_ignore_case (st : App) (username message : string) :
  sender_of (PyStr.lower username) = sender_of username
  /\ normalize_phrase (PyStr.lower message) = normalize_phrase message
  /\ consume_vote (PyStr.lower username) (PyStr.lower message) st
     = consume_vote username message st.
Proof.
  split; [apply sender_of_lower|]. split; [apply normalize_phrase_lower|].
  rewrite !consume_vote_unfold. cbv zeta.
  fold (sender_of (PyStr.lower username)). fold (sender_of username).
  now rewrite sender_of_lower, normalize_phrase_lower.
Qed.

(** ** The voter under the pointer *)


Lemma length_sorted_by {A : Type} (leb : A -> A -> bool) (l : list A) :
  List.length (sorted_by leb l) = List.length l.
Proof. apply Permutation_length, sorted_by_perm. Qed.





(** ** Reading numbers *)

Lemma int_of_str_cases s :
  PyStr.int_of_str s =
  if Nat.ltb PyStr.int_max_str_digits
             (PyStr.count_digits (PyStr.strip_chars PyStr.int_space (PyStr.chars s)))
  then None
  else
    match PyStr.strip_chars PyStr.int_space (PyStr.chars s) with
    | [] => None
    | h :: t =>
        if Ascii.eqb h "-" then option_map Z.opp (PyStr.digits_val 0 false t)
        else if Ascii.eqb h "+" then PyStr.digits_val 0 false t
             else PyStr.digits_val 0 false (h :: t)
    end.
Proof.
  unfold PyStr.int_of_str. cbv zeta.
  destruct (Nat.ltb _ _); [reflexivity|].
  destruct (PyStr.strip_chars PyStr.int_space (PyStr.chars s)) as [|h t]; [reflexivity|].
  destruct h as [[] [] [] [] [] [] [] []]; reflexivity.
Qed.

Lemma digits_val_bad c l :
  In c l -> PyStr.is_digit c = false -> c <> "_"%char ->
  forall acc b, PyStr.digits_val acc b l = None.
Proof.
  intros Hin Hd Hu. induction l as [|x l IH]; intros acc b; [destruct Hin|].
  cbn [PyStr.digits_val]. destruct Hin as [->|Hin].
  - rewrite Hd. apply Ascii.eqb_neq in Hu. now rewrite Hu.
  - destruct (PyStr.is_digit x); [now apply IH|].
    destruct (Ascii.eqb x "_" && b)%bool; [now apply IH|reflexivity].
Qed.

Lemma In_dropwhile p c l : In c l -> p c = false -> In c (PyStr.dropwhile p l).
Proof.
  intros Hin Hp. destruct (dropwhile_split p l) as (d & Hd & Hall).
  rewrite Hd in Hin. apply in_app_or in Hin. destruct Hin as [Hin|Hin]; [|exact Hin].
  rewrite Forall_forall in Hall. specialize (Hall _ Hin). congruence.
Qed.

Lemma In_strip_chars p c l : In c l -> p c = false -> In c (PyStr.strip_chars p l).
Proof.
  intros Hin Hp. unfold PyStr.strip_chars.
  apply -> in_rev. apply In_dropwhile; [|exact Hp].
  apply -> in_rev. now apply In_dropwhile.
Qed.

Lemma digits_val_uint d :
  forall acc b,
    d <> Decimal.Nil \/ b = true ->
    PyStr.digits_val (Z.of_nat acc) b (PyStr.chars (NilEmpty.string_of_uint d))
    = Some (Z.of_nat (Nat.of_uint_acc d acc)).
Proof.
  induction d as [|d IH|d IH|d IH|d IH|d IH|d IH|d IH|d IH|d IH|d IH]; intros acc b Hb;
    [destruct Hb as [Hb| ->]; [congruence|reflexivity]|..];
    cbn [NilEmpty.string_of_uint PyStr.chars list_ascii_of_string PyStr.digits_val
         Nat.of_uint_acc];
    change (list_ascii_of_string (NilEmpty.string_of_uint d))
      with (PyStr.chars (NilEmpty.string_of_uint d));
    match goal with
    | |- (if PyStr.is_digit ?c then _ else _) = _ =>
        change (PyStr.is_digit c) with true; cbv iota;
        change (Z.of_N (PyStr.code c - 48)) with (Z.of_N (PyStr.code c - 48))
    end;
    rewrite <- (IH _ true (or_intror eq_refl)); f_equal;
    rewrite ?Nat.tail_mul_spec; cbn [PyStr.code]; 
    match goal with |- (10 * _ + Z.of_N ?k)%Z = _ =>
      let v := eval vm_compute in (Z.of_N k) in change (Z.of_N k) with v end;
    lia.
Qed.

Lemma to_uint_not_nil n : Nat.to_uint n <> Decimal.Nil.
Proof.
  intros H. pose proof (DecimalNat.Unsigned.of_to n) as Hn. rewrite H in Hn.
  cbn in Hn. subst n. discriminate H.
Qed.

Lemma uint_digits d :
  Forall (fun c => PyStr.is_digit c = true) (PyStr.chars (NilEmpty.string_of_uint d)).
Proof.
  induction d; cbn [NilEmpty.string_of_uint PyStr.chars list_ascii_of_string];
    constructor; try reflexivity; exact IHd.
Qed.

Lemma digit_not_space c : PyStr.is_digit c = true -> PyStr.int_space c = false.
Proof. destruct c as [[] [] [] [] [] [] [] []]; cbn; congruence. Qed.

Lemma digit_not_sign c :
  PyStr.is_digit c = true -> Ascii.eqb c "-" = false /\ Ascii.eqb c "+" = false.
Proof. destruct c as [[] [] [] [] [] [] [] []]; cbn; intros H; try discriminate H; now split. Qed.

Lemma strip_digits l :
  Forall (fun c => PyStr.is_digit c = true) l -> PyStr.strip_chars PyStr.int_space l = l.
Proof.
  intros H. unfold PyStr.strip_chars.
  assert (H1 : PyStr.dropwhile PyStr.int_space l = l).
  { apply dropwhile_head. destruct H as [|c l Hc _]; [trivial|now apply digit_not_space]. }
  rewrite H1.
  assert (H2 : PyStr.dropwhile PyStr.int_space (rev l) = rev l).
  { apply dropwhile_head. apply Forall_rev in H.
    destruct H as [|c r Hc _]; [trivial|now apply digit_not_space]. }
  rewrite H2. apply rev_involutive.
Qed.

Lemma length_chars s : List.length (PyStr.chars s) = String.length s.
Proof. induction s as [|c s IH]; cbn; [reflexivity|now rewrite IH]. Qed.

Lemma count_all_digits l :
  Forall (fun c => PyStr.is_digit c = true) l -> PyStr.count_digits l = List.length l.
Proof.
  unfold PyStr.count_digits. induction 1 as [|c l Hc Hl IH]; [reflexivity|].
  cbn [filter]. rewrite Hc. cbn [List.length]. now rewrite IH.
Qed.

(** The digits of the numeral of a natural number are its characters. *)
Lemma count_digits_str_of_nat n :
  PyStr.count_digits (PyStr.chars (PyStr.str_of_nat n)) = String.length (PyStr.str_of_nat n).
Proof.
  rewrite count_all_digits, length_chars; [reflexivity|]. apply uint_digits.
Qed.

Lemma int_of_str_str_of_nat n :
  PyStr.int_of_str (PyStr.str_of_nat n)
  = if Nat.ltb PyStr.int_max_str_digits (String.length (PyStr.str_of_nat n))
    then None else Some (Z.of_nat n).
Proof.
  rewrite int_of_str_cases. unfold PyStr.str_of_nat at 1 2.
  pose proof (uint_digits (Nat.to_uint n)) as Hd.
  rewrite strip_digits by exact Hd.
  fold (PyStr.str_of_nat n). rewrite count_digits_str_of_nat.
  destruct (Nat.ltb _ _); [reflexivity|]. unfold PyStr.str_of_nat.
  pose proof (digits_val_uint (Nat.to_uint n) 0 false (or_introl (to_uint_not_nil n))) as Hv.
  destruct (PyStr.chars (NilEmpty.string_of_uint (Nat.to_uint n))) as [|h t] eqn:E.
  - cbn in Hv. discriminate Hv.
  - inversion Hd as [|? ? Hh _]; subst.
    destruct (digit_not_sign h Hh) as [-> ->].
    change (Z.of_nat 0) with 0%Z in Hv. rewrite Hv.
    fold (Nat.of_uint (Nat.to_uint n)). now rewrite DecimalNat.Unsigned.of_to.
Qed.

Lemma safe_int_str_of_nat n default :
  String.length (PyStr.str_of_nat n) <= PyStr.int_max_str_digits ->
  safe_int (PyStr.str_of_nat n) default = Z.of_nat n.
Proof.
  intros H. unfold safe_int. rewrite int_of_str_str_of_nat.
  apply Nat.ltb_ge in H. now rewrite H.
Qed.

(** X15.  [safe_int] reads the decimal numeral of a natural number back as
    that number, whatever the default, when the numeral has no more digits
    than the interpreter converts (4300); for a longer numeral, and for any
    text that holds a character other than a digit, an underscore, a sign or
    surrounding whitespace, it returns the default. *)
Theorem safe_int_reads_numerals (default : Z) :
  (forall n, String.length (PyStr.str_of_nat n) <= PyStr.int_max_str_digits ->
             safe_int (PyStr.str_of_nat n) default = Z.of_nat n)
  /\ (forall n, PyStr.int_max_str_digits < String.length (PyStr.str_of_nat n) ->
                safe_int (PyStr.str_of_nat n) default = default)
  /\ (forall text c,
         In c (PyStr.chars text) ->
         PyStr.is_digit c = false -> PyStr.int_space c = false ->
         c <> "_"%char -> c <> "-"%char -> c <> "+"%char ->
         safe_int text default = default).
Proof.
  split; [|split].
  - intros n H. now apply safe_int_str_of_nat.
  - intros n H. unfold safe_int. rewrite int_of_str_str_of_nat.
    apply Nat.ltb_lt in H. now rewrite H.
  - intros text c Hin Hd Hs Hu Hm Hp. unfold safe_int. rewrite int_of_str_cases.
    destruct (Nat.ltb _ _); [reflexivity|].
    pose proof (In_strip_chars PyStr.int_space c _ Hin Hs) as Hin'.
    destruct (PyStr.strip_chars PyStr.int_space (PyStr.chars text)) as [|h t];
      [reflexivity|].
    destruct (Ascii.eqb_spec h "-") as [->|Hh1].
    + destruct Hin' as [Heq|Hin']; [congruence|].
      now rewrite (digits_val_bad c t Hin' Hd Hu).
    + destruct (Ascii.eqb_spec h "+") as [->|Hh2].
      * destruct Hin' as [Heq|Hin']; [congruence|].
        now rewrite (digits_val_bad c t Hin' Hd Hu).
      * now rewrite (digits_val_bad c (h :: t) Hin' Hd Hu).
Qed.

Lemma safe_int_reads_numerals_witness :
  safe_int (PyStr.str_of_nat 1204) 1 = 1204%Z /\ safe_int "12 votes" 1 = 1%Z.
Proof.
  destruct (safe_int_reads_numerals 1) as (Hnum & _ & Hbad).
  split; [apply Hnum, Nat.leb_le; vm_compute; reflexivity|].
  apply (Hbad "12 votes" "v"%char).
  - vm_compute. tauto.
  - reflexivity.
  - reflexivity.
  - discriminate.
  - discriminate.
  - discriminate.
Defined.

(** ** Chat lines *)

Lemma append_assoc (a b c : string) : ((a ++ b) ++ c = a ++ (b ++ c))%string.
Proof. induction a as [|x a IH]; cbn; [reflexivity|now rewrite IH]. Qed.

Lemma prefix_append (s b : string) : String.prefix s (s ++ b) = true.
Proof. apply prefix_spec. now exists b. Qed.

Lemma drop_append (s b : string) : drop (String.length s) (s ++ b) = b.
Proof. induction s as [|x s IH]; cbn; [now destruct b|exact IH]. Qed.

Lemma chars_cons c s : PyStr.chars (String c s) = c :: PyStr.chars s.
Proof. reflexivity. Qed.

Lemma split_first_unfold sep s :
  split_first sep s =
  if String.prefix sep s then Some (EmptyString, drop (String.length sep) s)
  else match s with
       | EmptyString => None
       | String c s' =>
           match split_first sep s' with
           | Some (a, b) => Some (String c a, b)
           | None => None
           end
       end.
Proof. destruct s; reflexivity. Qed.

(** The first occurrence of a separator whose first character does not
    occur before it. *)
Lemma split_first_at (c0 : ascii) (sep' a b : string) :
  lacks c0 a ->
  split_first (String c0 sep') (a ++ String c0 sep' ++ b) = Some (a, b).
Proof.
  unfold lacks. induction a as [|x a IH]; intros Hnot.
  - change (("" ++ String c0 sep' ++ b)%string) with ((String c0 sep' ++ b)%string).
    rewrite split_first_unfold, prefix_append, drop_append. reflexivity.
  - rewrite chars_cons in Hnot.
    assert (Hx : c0 <> x) by (intros ->; apply Hnot; now left).
    assert (Ha : ~ In c0 (PyStr.chars a)) by (intros H; apply Hnot; now right).
    change ((String x a ++ String c0 sep' ++ b)%string)
      with (String x (a ++ String c0 sep' ++ b)%string).
    rewrite split_first_unfold. cbn [String.prefix].
    destruct (ascii_dec c0 x) as [Heq|_]; [contradiction|].
    now rewrite (IH Ha).
Qed.

Lemma strip_chars_none p l :
  Forall (fun c => p c = false) l -> PyStr.strip_chars p l = l.
Proof.
  intros H. unfold PyStr.strip_chars.
  assert (H1 : PyStr.dropwhile p l = l).
  { apply dropwhile_head. destruct H as [|c l Hc _]; [trivial|exact Hc]. }
  rewrite H1.
  assert (H2 : PyStr.dropwhile p (rev l) = rev l).
  { apply dropwhile_head. apply Forall_rev in H.
    destruct H as [|c r Hc _]; [trivial|exact Hc]. }
  rewrite H2. apply rev_involutive.
Qed.

Lemma lacks_append c a b : lacks c a -> lacks c b -> lacks c (a ++ b)%string.
Proof.
  unfold lacks. rewrite chars_append. intros Ha Hb H. apply in_app_or in H. tauto.
Qed.

Lemma lacks_cons c x s : c <> x -> lacks c s -> lacks c (String x s).
Proof. unfold lacks. rewrite chars_cons. intros Hx Hs [H|H]; [congruence|tauto]. Qed.

(** X16.  A chat line of the usual shape,
    [:nick!host PRIVMSG channel :message], with a nick free of whitespace,
    "!" and ":" and with no space in host or channel, is parsed into the nick
    and the message with its surrounding whitespace removed; the reader
    forwards it as a chat event when both are non-empty.  A line without
    "PRIVMSG" or without "!" gives two empty strings. *)
Theorem parse_privmsg_well_formed (nick host channel message : string)
        (Hnick : Forall (fun c => PyStr.isspace c = false /\ c <> "!"%char /\ c <> ":"%char)
                        (PyStr.chars nick))
        (Hhost : lacks " " host) (Hchannel : lacks " " channel) :
  let line := (":" ++ nick ++ "!" ++ host ++ " PRIVMSG " ++ channel ++ " :" ++ message)%string in
  parse_privmsg line = (nick, PyStr.strip message)
  /\ (nick <> "" -> PyStr.strip message <> "" ->
      handle_line line = OnChat nick (PyStr.strip message))
  /\ (forall raw, PyStr.contains "PRIVMSG" raw = false \/ PyStr.contains "!" raw = false ->
                  parse_privmsg raw = ("", "")).
Proof.
  cbv zeta.
  set (rest := (host ++ " PRIVMSG " ++ channel ++ " :" ++ message)%string).
  set (line := (":" ++ nick ++ "!" ++ rest)%string).
  assert (Hnick_bang : lacks "!" nick).
  { unfold lacks. intros H. rewrite Forall_forall in Hnick.
    destruct (Hnick _ H) as (_ & Hb & _). congruence. }
  assert (Hnick_space : lacks " " nick).
  { unfold lacks. intros H. rewrite Forall_forall in Hnick.
    destruct (Hnick _ H) as (Hs & _). discriminate Hs. }
  assert (Hc1 : PyStr.contains "PRIVMSG" line = true).
  { apply contains_spec. exists (":" ++ nick ++ "!" ++ host ++ " ")%string.
    exists (" " ++ channel ++ " :" ++ message)%string.
    unfold line, rest. rewrite !append_assoc. reflexivity. }
  assert (Hc2 : PyStr.contains "!" line = true).
  { apply contains_spec. exists (":" ++ nick)%string, rest.
    unfold line. rewrite !append_assoc. reflexivity. }
  assert (Hs1 : split_first "!" line = Some ((":" ++ nick)%string, rest)).
  { unfold line. rewrite <- (split_first_at "!" "" (":" ++ nick) rest).
    - now rewrite !append_assoc.
    - apply lacks_cons; [discriminate|exact Hnick_bang]. }
  assert (Hs2 : split_first " PRIVMSG " line
                = Some ((":" ++ nick ++ "!" ++ host)%string,
                        (channel ++ " :" ++ message)%string)).
  { unfold line, rest.
    rewrite <- (split_first_at " " "PRIVMSG " (":" ++ nick ++ "!" ++ host)
                               (channel ++ " :" ++ message)).
    - now rewrite !append_assoc.
    - apply lacks_cons; [discriminate|].
      apply lacks_append; [exact Hnick_space|].
      apply lacks_cons; [discriminate|exact Hhost]. }
  assert (Hs3 : split_first " :" (channel ++ " :" ++ message)%string
                = Some (channel, message)).
  { apply (split_first_at " " ":" channel message Hchannel). }
  assert (Huser : PyStr.strip (lstrip_colons (":" ++ nick)) = nick).
  { unfold lstrip_colons. change (PyStr.chars (":" ++ nick))
      with (":"%char :: PyStr.chars nick).
    cbn [PyStr.dropwhile Ascii.eqb Bool.eqb].
    assert (Hd : PyStr.dropwhile (fun c => Ascii.eqb c ":") (PyStr.chars nick)
                 = PyStr.chars nick).
    { apply dropwhile_head. destruct Hnick as [|c l (_ & _ & Hc) _]; [trivial|].
      now apply Ascii.eqb_neq. }
    rewrite Hd, str_chars. unfold PyStr.strip.
    rewrite strip_chars_none; [apply str_chars|].
    eapply Forall_impl; [|exact Hnick]. intros c Hc. apply Hc. }
  assert (Hparse : parse_privmsg line = (nick, PyStr.strip message)).
  { unfold parse_privmsg. rewrite Hc1, Hc2. cbn [negb orb].
    rewrite Hs1, Hs2, Hs3. cbv zeta. now rewrite Huser. }
  split; [exact Hparse|]. split.
  - intros Hn Hm. unfold handle_line.
    assert (Hline : PyStr.truthy line = true) by reflexivity.
    rewrite Hline. cbn [negb].
    assert (Hping : PyStr.startswith "PING" line = false) by reflexivity.
    rewrite Hping, Hc1, Hparse.
    apply truthy_true in Hn, Hm. now rewrite Hn, Hm.
  - intros raw [H|H]; unfold parse_privmsg; rewrite H; cbn [negb orb];
      [reflexivity|now rewrite orb_true_r].
Qed.

Lemma parse_privmsg_well_formed_witness :
  parse_privmsg ":alice!alice@alice.tmi.twitch.tv PRIVMSG #wheel : Pizza! "
  = ("alice", PyStr.strip " Pizza! ").
Proof.
  apply (parse_privmsg_well_formed "alice" "alice@alice.tmi.twitch.tv" "#wheel" " Pizza! ").
  - repeat constructor; discriminate.
  - unfold lacks. vm_compute. intuition discriminate.
  - unfold lacks. vm_compute. intuition discriminate.
Defined.

(** ** Comment lines in an import file *)

Lemma import_line_noise vc acc raw :
  PyStr.strip raw = "" \/ PyStr.startswith "#" (PyStr.strip raw) = true ->
  import_line vc acc raw = acc.
Proof.
  intros H. unfold import_line. destruct acc as [imported iuv].
  destruct H as [H|H]; rewrite H; [reflexivity|].
  now rewrite orb_true_r.
Qed.

(** X17.  Blank lines and lines that start with "#" (after trimming) do not
    count: wherever such a line stands in the file, the import gives the same
    state as without it. *)
Theorem import_ignores_comments (st : App) (before after : list string) (raw : string)
        (Hnoise : PyStr.strip raw = "" \/ PyStr.startswith "#" (PyStr.strip raw) = true) :
  read_import (vote_counts st) (before ++ raw :: after)
  = read_import (vote_counts st) (before ++ after)
  /\ import_segments (before ++ raw :: after) st = import_segments (before ++ after) st.
Proof.
  assert (H : read_import (vote_counts st) (before ++ raw :: after)
              = read_import (vote_counts st) (before ++ after)).
  { unfold read_import. rewrite !fold_left_app. cbn [fold_left].
    now rewrite import_line_noise. }
  split; [exact H|]. rewrite !import_segments_unfold. now rewrite H.
Qed.

Lemma import_ignores_comments_witness :
  import_segments [segment_line "cats" "2"; "  # TWITCH_WHEEL_EXPORT_V2"; segment_line "dogs" "1"]
                  init
  = import_segments [segment_line "cats" "2"; segment_line "dogs" "1"] init.
Proof.
  apply (import_ignores_comments init [segment_line "cats" "2"]
                                 [segment_line "dogs" "1"] "  # TWITCH_WHEEL_EXPORT_V2").
  right. reflexivity.
Defined.

(** ** Two votes that merge *)

Lemma first_vote st a m :
  voting_active st = true -> vote_counts st = [] -> user_votes st = [] ->
  sender_of a <> "" -> normalize_phrase m <> "" ->
  vote_counts (consume_vote a m st) = [(normalize_phrase m, 1%Z)]
  /\ user_votes (consume_vote a m st) = [(sender_of a, normalize_phrase m)]
  /\ voting_active (consume_vote a m st) = true.
Proof.
  intros Hact Hvc Huv Ha Hm.
  assert (Ht : vote_target (vote_counts st) m = normalize_phrase m).
  { unfold vote_target, find_matching_phrase. rewrite Hvc.
    apply truthy_true in Hm. rewrite Hm. reflexivity. }
  rewrite consume_vote_accepted; try assumption.
  - rewrite refresh_vote_counts, refresh_user_votes, refresh_voting.
    cbn [with_ledger vote_counts user_votes voting_active].
    rewrite Ht, Hvc, Huv. unfold withdraw. cbn [dict_get]. repeat split. exact Hact.
  - rewrite Huv. discriminate.
Qed.

(** X18.  Fuzzy merge: when, in an empty ledger with the window open, one
    sender votes a phrase and a different sender then votes a phrase that
    equals it, contains it, is contained in it or is similar to it (ratio at
    least 0.86), both votes are counted on the first phrase: the ledger holds
    that phrase alone, with tally 2, and both senders are mapped to it. *)
Theorem similar_votes_merge (st : App) (a b m1 m2 : string)
        (Hactive : voting_active st = true)
        (Hvc : vote_counts st = []) (Huv : user_votes st = [])
        (Ha : sender_of a <> "") (Hb : sender_of b <> "")
        (Hab : sender_of a <> sender_of b)
        (Hm1 : normalize_phrase m1 <> "") (Hm2 : normalize_phrase m2 <> "")
        (Hsim : matches_phrase (normalize_phrase m2) (normalize_phrase m1)) :
  let st' := consume_vote b m2 (consume_vote a m1 st) in
  vote_counts st' = [(normalize_phrase m1, 2%Z)]
  /\ user_votes st' = [(sender_of a, normalize_phrase m1); (sender_of b, normalize_phrase m1)].
Proof.
  cbv zeta.
  destruct (first_vote st a m1 Hactive Hvc Huv Ha Hm1) as (Hvc1 & Huv1 & Hact1).
  set (st1 := consume_vote a m1 st) in *.
  assert (Ht : vote_target (vote_counts st1) m2 = normalize_phrase m1).
  { unfold vote_target, find_matching_phrase. rewrite Hvc1.
    apply truthy_true in Hm2. rewrite Hm2. cbn [negb dict_keys map fst].
    rewrite first_match_step. cbn [PyStr.truthy andb].
    apply qualifies_spec in Hsim. rewrite Hsim. unfold or_else.
    apply truthy_true in Hm1. now rewrite Hm1. }
  assert (Hne : String.eqb (sender_of a) (sender_of b) = false) by now apply String.eqb_neq.
  rewrite consume_vote_accepted; try assumption.
  - rewrite refresh_vote_counts, refresh_user_votes.
    cbn [with_ledger vote_counts user_votes].
    rewrite Ht, Hvc1, Huv1. cbn [dict_get]. rewrite Hne. unfold withdraw.
    unfold tally, dict_get_or. cbn [dict_get dict_set].
    rewrite String.eqb_refl, Hne. split; reflexivity.
  - rewrite Huv1. cbn [dict_get]. rewrite Hne. discriminate.
Qed.

Lemma similar_votes_merge_witness :
  vote_counts (consume_vote "bob" "piza " (consume_vote "Alice" "Pizza!" (start_vote 0 init)))
  = [(normalize_phrase "Pizza!", 2%Z)].
Proof.
  apply (similar_votes_merge (start_vote 0 init) "Alice" "bob" "Pizza!" "piza ").
  - reflexivity.
  - reflexivity.
  - reflexivity.
  - vm_compute. discriminate.
  - vm_compute. discriminate.
  - vm_compute. discriminate.
  - vm_compute. discriminate.
  - vm_compute. discriminate.
  - apply qualifies_spec. vm_compute. reflexivity.
Defined.

(** ** Export and import *)

Lemma phrase_char_plain c :
  phrase_char c = true -> c <> tab /\ c <> newline /\ c <> carriage_return.
Proof.
  destruct c as [[] [] [] [] [] [] [] []]; cbn; intros H; try discriminate H;
    repeat split; discriminate.
Qed.

Lemma digit_plain c :
  PyStr.is_digit c = true ->
  PyStr.isspace c = false /\ c <> tab /\ c <> newline /\ c <> carriage_return.
Proof.
  destruct c as [[] [] [] [] [] [] [] []]; cbn; intros H; try discriminate H;
    repeat split; discriminate.
Qed.

Lemma lacks_Forall c s : Forall (fun x => x <> c) (PyStr.chars s) -> lacks c s.
Proof.
  unfold lacks. intros H Hin. rewrite Forall_forall in H. now apply (H c Hin).
Qed.

Lemma normalized_plain p : normalize_phrase p = p -> plain p.
Proof.
  intros Hp. pose proof (normalize_phrase_chars p) as Hc. rewrite Hp in Hc.
  repeat split; apply lacks_Forall; (eapply Forall_impl; [|exact Hc]);
    intros c Hpc; apply (phrase_char_plain c Hpc).
Qed.

Lemma numeral_pos v : (0 < v)%Z -> numeral v = PyStr.str_of_nat (Z.to_nat v).
Proof. destruct v; [lia|reflexivity|lia]. Qed.

Lemma printable_pos v :
  (0 < v)%Z -> printable v ->
  String.length (PyStr.str_of_nat (Z.to_nat v)) <= PyStr.int_max_str_digits.
Proof.
  intros Hv H. unfold printable, digits_of in H.
  now rewrite (numeral_pos v Hv), count_digits_str_of_nat in H.
Qed.

Lemma str_of_nat_digits n :
  Forall (fun c => PyStr.is_digit c = true) (PyStr.chars (PyStr.str_of_nat n)).
Proof. apply uint_digits. Qed.

Lemma str_of_nat_not_empty n : PyStr.str_of_nat n <> "".
Proof.
  unfold PyStr.str_of_nat. pose proof (to_uint_not_nil n) as H.
  destruct (Nat.to_uint n); [congruence|discriminate..].
Qed.

Lemma str_of_nat_plain n : plain (PyStr.str_of_nat n).
Proof.
  repeat split; apply lacks_Forall;
    (eapply Forall_impl; [|exact (str_of_nat_digits n)]);
    intros c Hc; apply (digit_plain c Hc).
Qed.

Lemma strip_str_of_nat n : PyStr.strip (PyStr.str_of_nat n) = PyStr.str_of_nat n.
Proof.
  unfold PyStr.strip. rewrite strip_chars_none; [apply str_chars|].
  eapply Forall_impl; [|exact (str_of_nat_digits n)].
  intros c Hc. apply (digit_plain c Hc).
Qed.

(** A line that starts and ends with something else than whitespace comes
    back from [strip] without its newline. *)
Lemma strip_write_line line :
  trimmed (PyStr.chars line) -> PyStr.strip (write_line line) = line.
Proof.
  intros [H1 H2]. unfold PyStr.strip, write_line. rewrite chars_append.
  change (PyStr.chars (String newline "")) with [newline].
  unfold PyStr.strip_chars.
  assert (Hd : PyStr.dropwhile PyStr.isspace (PyStr.chars line ++ [newline])
               = match PyStr.chars line with [] => [] | _ => PyStr.chars line ++ [newline] end).
  { apply dropwhile_head in H1. destruct (PyStr.chars line) as [|c l]; [reflexivity|].
    cbn [app PyStr.dropwhile]. now rewrite H1. }
  rewrite Hd. destruct (PyStr.chars line) as [|c l] eqn:E.
  - cbn. rewrite <- (str_chars line), E. reflexivity.
  - rewrite rev_app_distr. cbn [rev app].
    change (PyStr.dropwhile PyStr.isspace (newline :: (rev l ++ [c])))
      with (PyStr.dropwhile PyStr.isspace (rev l ++ [c])).
    cbn [rev] in H2. rewrite H2, rev_app_distr, rev_involutive. cbn [rev app].
    rewrite <- E. apply str_chars.
Qed.

Lemma trimmed_fields (x : ascii) (s b : string) :
  PyStr.isspace x = false -> b <> "" ->
  PyStr.dropwhile PyStr.isspace (rev (PyStr.chars b)) = rev (PyStr.chars b) ->
  trimmed (PyStr.chars (String x s ++ b)).
Proof.
  intros Hx Hb Hend. split.
  - apply dropwhile_head. cbn. exact Hx.
  - apply dropwhile_head. rewrite chars_append, rev_app_distr.
    apply dropwhile_head in Hend.
    destruct b as [|c b]; [congruence|]. rewrite chars_cons in *.
    destruct (rev (c :: PyStr.chars b)) as [|d r] eqn:E.
    + apply (f_equal (@List.length ascii)) in E. rewrite length_rev in E. discriminate E.
    + exact Hend.
Qed.

Lemma digits_end n :
  PyStr.dropwhile PyStr.isspace (rev (PyStr.chars (PyStr.str_of_nat n)))
  = rev (PyStr.chars (PyStr.str_of_nat n)).
Proof.
  apply dropwhile_head. pose proof (Forall_rev (str_of_nat_digits n)) as H.
  destruct H as [|c r Hc _]; [trivial|]. apply (digit_plain c Hc).
Qed.

Lemma split_on_lacks sep s : lacks sep s -> PyStr.split_on sep s = [s].
Proof.
  unfold lacks. induction s as [|x s IH]; intros H; [reflexivity|].
  rewrite chars_cons in H. cbn [PyStr.split_on].
  assert (Hx : x <> sep) by (intros ->; apply H; now left).
  apply Ascii.eqb_neq in Hx. rewrite Hx, IH; [reflexivity|].
  intros Hin. apply H. now right.
Qed.

Lemma split_on_append sep a r :
  lacks sep a -> PyStr.split_on sep (a ++ String sep r) = a :: PyStr.split_on sep r.
Proof.
  unfold lacks. induction a as [|x a IH]; intros H.
  - cbn [String.append PyStr.split_on]. now rewrite Ascii.eqb_refl.
  - rewrite chars_cons in H. cbn [String.append PyStr.split_on].
    assert (Hx : x <> sep) by (intros ->; apply H; now left).
    apply Ascii.eqb_neq in Hx. rewrite Hx, IH; [reflexivity|].
    intros Hin. apply H. now right.
Qed.

Lemma split_on_fields sep a b c :
  lacks sep a -> lacks sep b -> lacks sep c ->
  PyStr.split_on sep (a ++ String sep (b ++ String sep c)) = [a; b; c].
Proof.
  intros Ha Hb Hc.
  now rewrite (split_on_append sep a _ Ha), (split_on_append sep b _ Hb), (split_on_lacks sep c Hc).
Qed.

Lemma segment_line_ends p n :
  segment_line p n = (String "S" ("EGMENT" ++ String tab (p ++ String tab "")) ++ n)%string.
Proof.
  unfold segment_line. cbn [String.append]. now rewrite append_assoc.
Qed.

Lemma uservote_line_ends u p :
  uservote_line u p = (String "U" ("SERVOTE" ++ String tab (u ++ String tab "")) ++ p)%string.
Proof.
  unfold uservote_line. cbn [String.append]. now rewrite append_assoc.
Qed.

Lemma dict_set_fresh {V : Type} (d : dict V) k v :
  ~ In k (dict_keys d) -> dict_set d k v = d ++ [(k, v)].
Proof.
  induction d as [|[k' v'] d IH]; intros H; [reflexivity|].
  cbn [dict_set app]. cbn [dict_keys map fst] in H.
  destruct (String.eqb_spec k' k) as [->|Hne]; [exfalso; apply H; now left|].
  rewrite IH; [reflexivity|]. intros Hin. apply H. now right.
Qed.

(** What the import does with a SEGMENT line the export wrote. *)
Lemma import_segment_line vc p v imported iuv :
  normalize_phrase p = p -> p <> "" -> (0 < v)%Z -> printable v ->
  import_line vc (imported, iuv) (write_line (segment_line p (numeral v)))
  = (add_segment vc p v imported, iuv).
Proof.
  intros Hp Hne Hv Hlim. apply (printable_pos v Hv) in Hlim. rewrite (numeral_pos v Hv).
  set (n := PyStr.str_of_nat (Z.to_nat v)).
  unfold import_line.
  rewrite strip_write_line.
  2:{ rewrite segment_line_ends.
      apply trimmed_fields; [reflexivity|apply str_of_nat_not_empty|apply digits_end]. }
  assert (Ht : PyStr.truthy (segment_line p n) = true) by reflexivity.
  assert (Hs : PyStr.startswith "#" (segment_line p n) = false) by reflexivity.
  rewrite Ht, Hs. cbn [negb orb].
  unfold segment_line at 1.
  rewrite split_on_fields.
  - rewrite String.eqb_refl. cbv zeta. rewrite Hp.
    unfold n. rewrite strip_str_of_nat, (safe_int_str_of_nat _ _ Hlim).
    apply truthy_true in Hne. rewrite Hne.
    rewrite Z2Nat.id by lia.
    assert (Hpos : (0 <? v)%Z = true) by now apply Z.ltb_lt.
    rewrite Hpos. reflexivity.
  - unfold lacks. cbn. intuition discriminate.
  - apply (normalized_plain p Hp).
  - apply (str_of_nat_plain (Z.to_nat v)).
Qed.

(** What the import does with a USERVOTE line the export wrote. *)
Lemma import_uservote_line vc u p imported iuv :
  sender_of u = u -> u <> "" -> lacks tab u ->
  normalize_phrase p = p -> p <> "" ->
  import_line vc (imported, iuv) (write_line (uservote_line u p))
  = (imported, dict_set iuv u p).
Proof.
  intros Hu Hune Htab Hp Hne.
  unfold import_line.
  rewrite strip_write_line.
  2:{ rewrite uservote_line_ends.
      apply trimmed_fields; [reflexivity|exact Hne|].
      pose proof (normalize_phrase_trimmed p) as Ht. rewrite Hp in Ht. apply Ht. }
  assert (Ht : PyStr.truthy (uservote_line u p) = true) by reflexivity.
  assert (Hs : PyStr.startswith "#" (uservote_line u p) = false) by reflexivity.
  rewrite Ht, Hs. cbn [negb orb].
  unfold uservote_line at 1.
  rewrite split_on_fields.
  - assert (E1 : String.eqb "USERVOTE" "SEGMENT" = false) by reflexivity.
    rewrite E1, String.eqb_refl. cbv zeta. rewrite Hp.
    fold (sender_of u). rewrite Hu.
    apply truthy_true in Hne, Hune. rewrite Hne, Hune. reflexivity.
  - unfold lacks. cbn. intuition discriminate.
  - exact Htab.
  - apply (normalized_plain p Hp).
Qed.

Lemma add_segment_fresh vc p v (imported : dict Z) :
  or_else (find_matching_phrase vc p "") p = p ->
  ~ In p (dict_keys imported) ->
  add_segment vc p v imported = imported ++ [(p, v)].
Proof.
  intros Hres Hfresh. unfold add_segment. cbv zeta. rewrite Hres.
  unfold dict_get_or. apply dict_get_None in Hfresh. rewrite Hfresh.
  apply dict_get_None in Hfresh. rewrite Z.add_0_l. now apply dict_set_fresh.
Qed.

Lemma NoDup_keys_snoc {V : Type} (acc : dict V) e l :
  NoDup (dict_keys (acc ++ e :: l)) ->
  ~ In (fst e) (dict_keys acc) /\ NoDup (dict_keys ((acc ++ [e]) ++ l)).
Proof.
  intros H. split.
  - unfold dict_keys in *. rewrite map_app in H. cbn [map] in H.
    apply NoDup_remove_2 in H. intros Hin. apply H. apply in_or_app. now left.
  - now rewrite <- app_assoc.
Qed.

Lemma import_segment_lines vc (l : dict Z) :
  forall (acc : dict Z) (iuv : dict string),
    Forall (fun e => normalize_phrase (fst e) = fst e /\ fst e <> ""
                     /\ (0 < snd e)%Z /\ printable (snd e)
                     /\ or_else (find_matching_phrase vc (fst e) "") (fst e) = fst e) l ->
    NoDup (dict_keys (acc ++ l)) ->
    fold_left (import_line vc)
              (map (fun e => write_line (segment_line (fst e) (numeral (snd e)))) l)
              (acc, iuv)
    = (acc ++ l, iuv).
Proof.
  induction l as [|[p v] l IH]; intros acc iuv Hall Hnd.
  - cbn [map fold_left]. now rewrite app_nil_r.
  - inversion Hall as [|? ? (Hp & Hne & Hv & Hlim & Hres) Hall']; subst.
    cbn [fst snd] in *.
    destruct (NoDup_keys_snoc acc (p, v) l Hnd) as [Hfresh Hnd'].
    cbn [fst] in Hfresh.
    cbn [map fold_left fst snd].
    rewrite (import_segment_line vc p v acc iuv Hp Hne Hv Hlim).
    rewrite (add_segment_fresh vc p v acc Hres Hfresh).
    rewrite (IH _ iuv Hall' Hnd'). now rewrite <- app_assoc.
Qed.

Lemma import_uservote_lines vc (l : dict string) :
  forall (imported : dict Z) (acc : dict string),
    Forall (fun e => sender_of (fst e) = fst e /\ fst e <> "" /\ lacks tab (fst e)
                     /\ normalize_phrase (snd e) = snd e /\ snd e <> "") l ->
    NoDup (dict_keys (acc ++ l)) ->
    fold_left (import_line vc)
              (map (fun e => write_line (uservote_line (fst e) (snd e))) l)
              (imported, acc)
    = (imported, acc ++ l).
Proof.
  induction l as [|[u p] l IH]; intros imported acc Hall Hnd.
  - cbn [map fold_left]. now rewrite app_nil_r.
  - inversion Hall as [|? ? (Hu & Hune & Htab & Hp & Hne) Hall']; subst.
    cbn [fst snd] in *.
    destruct (NoDup_keys_snoc acc (u, p) l Hnd) as [Hfresh Hnd'].
    cbn [fst] in Hfresh.
    cbn [map fold_left fst snd].
    rewrite (import_uservote_line vc u p imported acc Hu Hune Htab Hp Hne).
    rewrite (dict_set_fresh acc u p Hfresh).
    rewrite (IH imported _ Hall' Hnd'). now rewrite <- app_assoc.
Qed.

(** *** Reading back what was written *)

Lemma read_text_plain l r :
  ~ In carriage_return l -> ~ In newline l ->
  read_text false (l ++ newline :: r) = l ++ newline :: read_text false r.
Proof.
  induction l as [|c l IH]; intros Hcr Hnl.
  - reflexivity.
  - cbn [app read_text].
    assert (H1 : c <> carriage_return) by (intros ->; apply Hcr; now left).
    apply Ascii.eqb_neq in H1. rewrite H1, andb_false_r.
    rewrite IH; [reflexivity| |]; intros Hin; [apply Hcr|apply Hnl]; now right.
Qed.

Lemma lines_of_line l r :
  forall cur,
    ~ In newline l ->
    lines_of cur (l ++ newline :: r)
    = PyStr.str (rev cur ++ l ++ [newline]) :: lines_of [] r.
Proof.
  induction l as [|c l IH]; intros cur Hnl.
  - cbn [app lines_of]. rewrite Ascii.eqb_refl. reflexivity.
  - cbn [app lines_of].
    assert (H1 : c <> newline) by (intros ->; apply Hnl; now left).
    apply Ascii.eqb_neq in H1. rewrite H1.
    rewrite IH by (intros Hin; apply Hnl; now right).
    cbn [rev]. now rewrite <- app_assoc.
Qed.

(** Lines without line breaks, each written with its newline, are read back
    one by one. *)
Lemma file_lines_written (lines : list string) :
  Forall (fun l => lacks newline l /\ lacks carriage_return l) lines ->
  file_lines (written (map write_line lines)) = map write_line lines.
Proof.
  unfold file_lines. induction 1 as [|l ls [Hnl Hcr] Hls IH]; [reflexivity|].
  cbn [map written fold_right].
  unfold write_line at 1. rewrite append_assoc, chars_append.
  change (String newline "" ++ fold_right String.append "" (map write_line ls))%string
    with (String newline (written (map write_line ls))).
  rewrite chars_cons.
  rewrite (read_text_plain _ _ Hcr Hnl), (lines_of_line _ _ [] Hnl), IH.
  cbn [rev app]. f_equal.
  unfold write_line. rewrite <- (str_chars (l ++ String newline "")), chars_append.
  reflexivity.
Qed.

Lemma plain_segment_line p n :
  plain p -> plain n ->
  lacks newline (segment_line p n) /\ lacks carriage_return (segment_line p n).
Proof.
  intros (_ & Hp1 & Hp2) (_ & Hn1 & Hn2). unfold segment_line.
  split; (apply lacks_append; [unfold lacks; cbn; intuition discriminate|]);
    (apply lacks_cons; [discriminate|]);
    (apply lacks_append; [assumption|]);
    (apply lacks_cons; [discriminate|assumption]).
Qed.

Lemma plain_uservote_line u p :
  plain u -> plain p ->
  lacks newline (uservote_line u p) /\ lacks carriage_return (uservote_line u p).
Proof.
  intros (_ & Hp1 & Hp2) (_ & Hn1 & Hn2). unfold uservote_line.
  split; (apply lacks_append; [unfold lacks; cbn; intuition discriminate|]);
    (apply lacks_cons; [discriminate|]);
    (apply lacks_append; [assumption|]);
    (apply lacks_cons; [discriminate|assumption]).
Qed.

Lemma dict_wf_perm {V : Type} (d d' : dict V) :
  Permutation d d' -> dict_wf d -> dict_wf d'.
Proof.
  unfold dict_wf, dict_keys. intros Hp. apply Permutation_NoDup. now apply Permutation_map.
Qed.

Lemma filter_all {A : Type} (f : A -> bool) (l : list A) :
  (forall x, In x l -> f x = true) -> filter f l = l.
Proof.
  induction l as [|x l IH]; intros H; [reflexivity|]. cbn [filter].
  rewrite (H x (or_introl eq_refl)). f_equal. apply IH. intros y Hy. apply H. now right.
Qed.

Lemma StronglySorted_firstn {A : Type} (R : A -> A -> Prop) n (l : list A) :
  StronglySorted R l -> StronglySorted R (firstn n l).
Proof.
  intros H. revert n. induction H as [|a l Hs IH Ha]; intros [|n]; cbn [firstn];
    try constructor.
  - apply IH.
  - apply Forall_forall. intros x Hx. rewrite Forall_forall in Ha. apply Ha.
    revert Hx. apply In_firstn.
Qed.

(** *** The round trip *)

Lemma get_top_votes_firstn st :
  dict_wf (vote_counts st) ->
  get_top_votes st
  = firstn (Z.to_nat (max_phrases st)) (sorted_by key_leb (vote_counts st)).
Proof.
  intros Hwf. unfold get_top_votes. apply top_votes_firstn; [exact Hwf|].
  pose proof (max_phrases_ge_1 st). lia.
Qed.

(** The view is already in the order the export sorts it into. *)
Lemma sorted_top_votes st :
  dict_wf (vote_counts st) -> sorted_by key_leb (get_top_votes st) = get_top_votes st.
Proof.
  intros Hwf. rewrite (get_top_votes_firstn st Hwf).
  apply (sorted_unique key_leb key_leb_antisym).
  - apply sorted_by_sorted; [exact key_leb_total|exact key_leb_trans].
  - apply StronglySorted_firstn, sorted_by_sorted; [exact key_leb_total|exact key_leb_trans].
  - apply sorted_by_perm.
Qed.

Lemma numeral_plain v : (0 < v)%Z -> plain (numeral v).
Proof. intros Hv. rewrite (numeral_pos v Hv). apply str_of_nat_plain. Qed.

(** *** What the export writes *)

Lemma write_segments_printable rows :
  Forall (fun e => printable (snd e)) rows ->
  write_segments rows
  = (map (fun e => write_line (segment_line (fst e) (numeral (snd e)))) rows, true).
Proof.
  induction 1 as [|[p v] rows Hv Hrows IH]; [reflexivity|].
  cbn [write_segments map fst snd]. cbn [snd] in Hv. unfold str_of_Z.
  unfold printable in Hv. apply Nat.ltb_ge in Hv. rewrite Hv, IH. reflexivity.
Qed.

Lemma write_segments_stops rows phrase votes :
  In (phrase, votes) rows -> ~ printable votes -> snd (write_segments rows) = false.
Proof.
  intros Hin Hbig. induction rows as [|[p v] rows IH]; [destruct Hin|].
  cbn [write_segments]. unfold str_of_Z.
  destruct (Nat.ltb PyStr.int_max_str_digits (digits_of v)) eqn:E; [reflexivity|].
  destruct Hin as [Heq|Hin].
  - inversion Heq; subst. exfalso. apply Hbig. unfold printable. now apply Nat.ltb_ge.
  - specialize (IH Hin). destruct (write_segments rows) as [ws ok]. exact IH.
Qed.

Section RoundTrip.
Variable st : App.
Hypothesis Hst : exportable st.

Lemma top_phrases_normalized e :
  In e (get_top_votes st) -> normalize_phrase (fst e) = fst e /\ fst e <> "" /\ (0 < snd e)%Z.
Proof.
  destruct Hst as (Hwf & _ & Hpos & _ & Hph & _). intros He.
  apply In_top_votes in He.
  unfold tallies_positive in Hpos. rewrite Forall_forall in Hpos, Hph.
  destruct (Hph (fst e)) as [H1 H2]; [apply in_map; exact He|].
  repeat split; [exact H1|exact H2|now apply Hpos].
Qed.

Lemma top_counts_printable e : In e (get_top_votes st) -> printable (snd e).
Proof.
  destruct Hst as (_ & _ & _ & Hlim & _). intros He. apply In_top_votes in He.
  rewrite Forall_forall in Hlim. apply Hlim. unfold dict_values. now apply in_map.
Qed.

(** Every count of the view can be formatted: the export runs to its end. *)
Lemma export_completes :
  export_segments st
  = (write_line "# TWITCH_WHEEL_EXPORT_V2"
     :: map (fun e => write_line (segment_line (fst e) (numeral (snd e))))
            (sorted_by key_leb (get_top_votes st))
     ++ map (fun e => write_line (uservote_line (fst e) (snd e)))
            (exported_user_votes st),
     true).
Proof.
  unfold export_segments. cbv zeta.
  rewrite write_segments_printable; [reflexivity|].
  apply Forall_forall. intros e He. apply top_counts_printable.
  eapply Permutation_in; [apply sorted_by_perm|exact He].
Qed.

Lemma kept_senders e :
  In e (exported_user_votes st) ->
  In e (user_votes st) /\ In (snd e) (dict_keys (get_top_votes st))
  /\ sender_of (fst e) = fst e /\ fst e <> "" /\ plain (fst e).
Proof.
  destruct Hst as (_ & _ & _ & _ & _ & Hus). intros He.
  unfold exported_user_votes in He. apply filter_In in He. destruct He as [He Hmem].
  assert (Hin : In e (user_votes st))
    by (eapply Permutation_in; [apply sorted_by_perm|exact He]).
  rewrite Forall_forall in Hus.
  split; [exact Hin|]. split; [now apply dict_mem_In|].
  apply Hus. now apply in_map.
Qed.

Lemma kept_wf : dict_wf (exported_user_votes st).
Proof.
  destruct Hst as (_ & Hwfu & _). unfold exported_user_votes. apply NoDup_keys_filter.
  apply (dict_wf_perm (user_votes st)); [|exact Hwfu].
  apply Permutation_sym, sorted_by_perm.
Qed.

Lemma export_read_back :
  file_lines (written (fst (export_segments st))) = fst (export_segments st).
Proof.
  assert (Heq : fst (export_segments st)
                = map write_line
                      ("# TWITCH_WHEEL_EXPORT_V2"
                       :: map (fun e => segment_line (fst e) (numeral (snd e)))
                              (sorted_by key_leb (get_top_votes st))
                       ++ map (fun e => uservote_line (fst e) (snd e))
                              (exported_user_votes st))).
  { rewrite export_completes. cbn [fst map]. now rewrite map_app, !map_map. }
  rewrite Heq. apply file_lines_written. constructor.
  - split; unfold lacks; vm_compute; intuition discriminate.
  - apply Forall_app. split; apply Forall_forall; intros x Hx;
      apply in_map_iff in Hx; destruct Hx as (e & <- & He).
    + assert (He' : In e (get_top_votes st))
        by (eapply Permutation_in; [apply sorted_by_perm|exact He]).
      destruct (top_phrases_normalized e He') as (Hp & _ & Hv).
      apply plain_segment_line; [now apply normalized_plain|now apply numeral_plain].
    + destruct (kept_senders e He) as (_ & Hk & _ & _ & Hpl).
      apply in_map_iff in Hk. destruct Hk as (e' & Hfst & He').
      destruct (top_phrases_normalized e' He') as (Hp & _ & _).
      rewrite Hfst in Hp.
      apply plain_uservote_line; [exact Hpl|now apply normalized_plain].
Qed.

Lemma export_read_import vc :
  resolve_to_themselves vc (dict_keys (get_top_votes st)) ->
  read_import vc (fst (export_segments st))
  = (get_top_votes st, exported_user_votes st).
Proof.
  intros Hres. destruct Hst as (Hwf & _).
  assert (Hsorted : sorted_by key_leb (get_top_votes st) = get_top_votes st) by now apply sorted_top_votes.
  rewrite export_completes. cbn [fst]. unfold read_import.
  rewrite Hsorted. cbn [fold_left].
  rewrite import_line_noise by (right; vm_compute; reflexivity).
  rewrite fold_left_app.
  match goal with
  | |- fold_left _ _ ?x = _ => assert (Hsegments : x = (get_top_votes st, []))
  end.
  2:{ rewrite Hsegments. apply (import_uservote_lines vc (exported_user_votes st) (get_top_votes st) []).
      + apply Forall_forall. intros e He.
        destruct (kept_senders e He) as (_ & Hk & Hu & Hune & Htab & _).
        apply in_map_iff in Hk. destruct Hk as (e' & Hfst & He').
        destruct (top_phrases_normalized e' He') as (Hp & Hne & _).
        rewrite Hfst in Hp, Hne. repeat split; assumption.
      + cbn [app]. apply kept_wf. }
  apply (import_segment_lines vc (get_top_votes st) [] []).
  - apply Forall_forall. intros e He.
    destruct (top_phrases_normalized e He) as (Hp & Hne & Hv).
    pose proof (top_counts_printable e He) as Hlim.
    repeat split; try assumption.
    unfold resolve_to_themselves in Hres. rewrite Forall_forall in Hres.
    apply Hres. now apply in_map.
  - cbn [app]. unfold get_top_votes, top_votes. apply dict_wf_of_items.
Qed.

Lemma keep_kept : keep_user_votes (get_top_votes st) (exported_user_votes st) = exported_user_votes st.
Proof.
  unfold keep_user_votes. rewrite filter_all.
  - apply dict_of_items_id, kept_wf.
  - intros e He. destruct (kept_senders e He) as (_ & Hk & _).
    apply in_map_iff in Hk. destruct Hk as (e' & Hfst & He').
    destruct (top_phrases_normalized e' He') as (_ & _ & Hv).
    apply tally_pos_mem. unfold tally, dict_get_or.
    assert (Hwf : dict_wf (get_top_votes st))
      by (unfold get_top_votes, top_votes; apply dict_wf_of_items).
    destruct e' as [p v]. cbn [fst snd] in *. subst p.
    now rewrite (In_dict_get (get_top_votes st) (snd e) v Hwf He').
Qed.

Lemma top_is_all :
  (Z.of_nat (List.length (vote_counts st)) <= max_phrases st)%Z ->
  Permutation (get_top_votes st) (vote_counts st).
Proof.
  intros Hroom. destruct Hst as (Hwf & _).
  rewrite (get_top_votes_firstn st Hwf), firstn_all2.
  - apply sorted_by_perm.
  - rewrite length_sorted_by. lia.
Qed.

Lemma kept_is_all :
  (Z.of_nat (List.length (vote_counts st)) <= max_phrases st)%Z ->
  no_orphans (vote_counts st) (user_votes st) ->
  Permutation (exported_user_votes st) (user_votes st).
Proof.
  intros Hroom Horph. unfold exported_user_votes. rewrite filter_all; [apply sorted_by_perm|].
  intros [u p] He. cbn [snd].
  assert (Hin : In (u, p) (user_votes st))
    by (eapply Permutation_in; [apply sorted_by_perm|exact He]).
  apply Horph in Hin. apply dict_mem_In. apply dict_mem_In in Hin.
  unfold dict_keys in *.
  eapply Permutation_in; [|exact Hin].
  apply Permutation_map, Permutation_sym, top_is_all, Hroom.
Qed.

End RoundTrip.

(** X19.  Export, then import: for a ledger with distinct keys, positive
    tallies of no more digits than the interpreter writes (4300), phrases
    that normalizing leaves alone and sender names in stored form without
    tabs or line breaks, the export runs to its end, and importing the file
    into an application whose tally map matches each exported phrase to
    itself or to nothing (an empty one, for instance) gives exactly the
    exported view as the tally map, in the view's order, and as sender votes
    those whose phrase is in the view, in sender order.  When the view shows
    every phrase and no sender vote names a missing phrase, both maps come
    back with the same entries as before.  An export of a view that holds a
    count of more digits does not run to its end. *)
Theorem export_import_round_trip (st st2 : App)
        (Hst : exportable st)
        (Hres : resolve_to_themselves (vote_counts st2) (dict_keys (get_top_votes st))) :
  let st' := import_segments (file_lines (written (fst (export_segments st)))) st2 in
  snd (export_segments st) = true
  /\ vote_counts st' = get_top_votes st
  /\ user_votes st' = exported_user_votes st
  /\ ((Z.of_nat (List.length (vote_counts st)) <= max_phrases st)%Z ->
      no_orphans (vote_counts st) (user_votes st) ->
      Permutation (vote_counts st') (vote_counts st)
      /\ Permutation (user_votes st') (user_votes st))
  /\ (forall st0 phrase votes,
         In (phrase, votes) (get_top_votes st0) -> ~ printable votes ->
         snd (export_segments st0) = false).
Proof.
  cbv zeta. rewrite (export_read_back st Hst).
  rewrite import_vote_counts, import_user_votes.
  rewrite (export_read_import st Hst (vote_counts st2) Hres). cbn [fst snd].
  rewrite (keep_kept st Hst).
  split; [now rewrite (export_completes st Hst)|].
  split; [reflexivity|]. split; [reflexivity|]. split.
  - intros Hroom Horph. split.
    + apply (top_is_all st Hst Hroom).
    + apply (kept_is_all st Hst Hroom Horph).
  - intros st0 phrase votes Hin Hbig. unfold export_segments. cbv zeta.
    assert (Hstop : snd (write_segments (sorted_by key_leb (get_top_votes st0))) = false).
    { apply (write_segments_stops _ phrase votes); [|exact Hbig].
      eapply Permutation_in; [apply Permutation_sym, sorted_by_perm|exact Hin]. }
    destruct (write_segments (sorted_by key_leb (get_top_votes st0))) as [ws ok].
    cbn [snd] in Hstop. now rewrite Hstop.
Qed.

Lemma export_import_round_trip_witness :
  vote_counts (import_segments (file_lines (written (fst (export_segments three_votes)))) init)
  = get_top_votes three_votes.
Proof.
  apply (export_import_round_trip three_votes init).
  - unfold exportable, plain, lacks, dict_wf, tallies_positive, printable.
    split; [|split; [|split; [|split; [|split]]]]; closed_fact.
  - unfold resolve_to_themselves. closed_fact.
Defined.

(** ** The reader's buffer *)

Lemma length_append_str a b :
  String.length (a ++ b) = String.length a + String.length b.
Proof. induction a as [|c a IH]; cbn; [reflexivity|now rewrite IH]. Qed.

Lemma prefix_append_false sep s t :
  String.prefix sep s = false -> String.length sep <= String.length s ->
  String.prefix sep (s ++ t) = false.
Proof.
  revert s. induction sep as [|x sep IH]; intros s Hp Hlen.
  - destruct s; discriminate Hp.
  - destruct s as [|y s]; [cbn in Hlen; lia|].
    cbn [String.append String.prefix] in *.
    destruct (ascii_dec x y); [|reflexivity].
    apply IH; [exact Hp|cbn in Hlen; lia].
Qed.

Lemma prefix_drop sep s :
  String.prefix sep s = true -> s = (sep ++ drop (String.length sep) s)%string.
Proof.
  intros E. apply prefix_spec in E. destruct E as [post ->]. now rewrite drop_append.
Qed.

Lemma prefix_drop_append sep s t :
  String.prefix sep s = true ->
  String.prefix sep (s ++ t) = true
  /\ drop (String.length sep) (s ++ t) = (drop (String.length sep) s ++ t)%string.
Proof.
  intros E. apply prefix_spec in E. destruct E as [post ->].
  now rewrite append_assoc, prefix_append, !drop_append.
Qed.

(** [split_first] cuts the text at the separator... *)
Lemma split_first_spec sep s :
  forall a b, split_first sep s = Some (a, b) -> s = (a ++ sep ++ b)%string.
Proof.
  induction s as [|c s IH]; intros a b; rewrite split_first_unfold;
    destruct (String.prefix sep _) eqn:E.
  - intros H. inversion H; subst. now apply prefix_drop.
  - discriminate.
  - intros H. inversion H; subst. now apply prefix_drop.
  - destruct (split_first sep s) as [[a' b']|]; [|discriminate].
    intros H. inversion H; subst. cbn [String.append]. now rewrite <- (IH a' b).
Qed.

(** ... at its first occurrence: there is none in the part before. *)
Lemma split_first_first c0 sep' s :
  forall a b, split_first (String c0 sep') s = Some (a, b) ->
              PyStr.contains (String c0 sep') a = false.
Proof.
  induction s as [|c s IH]; intros a b; rewrite split_first_unfold;
    destruct (String.prefix (String c0 sep') _) eqn:E.
  - intros H. inversion H; subst. reflexivity.
  - discriminate.
  - intros H. inversion H; subst. reflexivity.
  - destruct (split_first (String c0 sep') s) as [[a' b']|] eqn:Es; [|discriminate].
    intros H. inversion H; subst.
    cbn [PyStr.contains]. rewrite (IH a' b eq_refl), orb_false_r.
    destruct (String.prefix (String c0 sep') (String c a')) eqn:Ea; [|reflexivity].
    apply split_first_spec in Es. apply prefix_spec in Ea. destruct Ea as [post Ea].
    assert (Hp : String.prefix (String c0 sep') (String c s) = true).
    { apply prefix_spec. exists (post ++ String c0 sep' ++ b)%string.
      rewrite Es. change (String c (a' ++ String c0 sep' ++ b))%string
        with (String c a' ++ String c0 sep' ++ b)%string.
      rewrite Ea. now rewrite !append_assoc. }
    congruence.
Qed.

Lemma contains_split_first sep s :
  PyStr.contains sep s = true -> exists a b, split_first sep s = Some (a, b).
Proof.
  induction s as [|c s IH]; rewrite split_first_unfold; cbn [PyStr.contains];
    destruct (String.prefix sep _) eqn:E; cbn [orb]; intros H; eauto; try discriminate H.
  destruct (IH H) as (a & b & Hs). rewrite Hs. eauto.
Qed.

Lemma contains_append sep s t :
  PyStr.contains sep s = true -> PyStr.contains sep (s ++ t) = true.
Proof.
  rewrite !contains_spec. intros (pre & post & H). exists pre, (post ++ t)%string.
  rewrite H. now rewrite !append_assoc.
Qed.

Lemma split_first_append sep s t :
  forall a b, split_first sep s = Some (a, b) ->
              split_first sep (s ++ t) = Some (a, (b ++ t)%string).
Proof.
  induction s as [|c s IH]; intros a b H; rewrite split_first_unfold in H;
    destruct (String.prefix sep _) eqn:E in H.
  - inversion H; subst. destruct (prefix_drop_append sep "" t E) as [E1 E2].
    now rewrite split_first_unfold, E1, E2.
  - discriminate H.
  - inversion H; subst. destruct (prefix_drop_append sep (String c s) t E) as [E1 E2].
    now rewrite split_first_unfold, E1, E2.
  - destruct (split_first sep s) as [[a' b']|] eqn:Es; [|discriminate H].
    inversion H; subst.
    rewrite split_first_unfold, prefix_append_false.
    + cbn [String.append]. now rewrite (IH a' b eq_refl).
    + exact E.
    + apply split_first_spec in Es. rewrite Es. cbn [String.length].
      rewrite !length_append_str. lia.
Qed.

Lemma append_empty_r s : (s ++ "")%string = s.
Proof. induction s as [|c s IH]; cbn; [reflexivity|now rewrite IH]. Qed.

Lemma drain_unfold fuel s :
  drain (S fuel) s =
  if PyStr.contains crlf s
  then match split_first crlf s with
       | Some (line, rest) =>
           let '(lines, buffer) := drain fuel rest in (line :: lines, buffer)
       | None => ([], s)
       end
  else ([], s).
Proof. reflexivity. Qed.

(** Every turn of the loop shortens the buffer. *)
Lemma split_shorter s line rest :
  split_first crlf s = Some (line, rest) ->
  String.length s = String.length line + 2 + String.length rest.
Proof.
  intros H. apply split_first_spec in H. rewrite H at 1.
  rewrite !length_append_str. change (String.length crlf) with 2. lia.
Qed.

(** With a turn for every character the loop ends by itself: more fuel
    changes nothing. *)
Lemma drain_enough :
  forall f1 f2 s,
    String.length s <= f1 -> String.length s <= f2 -> drain f1 s = drain f2 s.
Proof.
  induction f1 as [|f1 IH]; intros f2 s H1 H2.
  - destruct s; [|cbn in H1; lia]. destruct f2; reflexivity.
  - destruct f2 as [|f2].
    + destruct s; [|cbn in H2; lia]. reflexivity.
    + rewrite !drain_unfold. destruct (PyStr.contains crlf s); [|reflexivity].
      destruct (split_first crlf s) as [[line rest]|] eqn:E; [|reflexivity].
      apply split_shorter in E. rewrite (IH f2 rest); [reflexivity|lia|lia].
Qed.

Lemma take_lines_step s line rest :
  PyStr.contains crlf s = true -> split_first crlf s = Some (line, rest) ->
  take_lines s = (line :: fst (take_lines rest), snd (take_lines rest)).
Proof.
  intros Hc Hs. pose proof (split_shorter s line rest Hs) as Hlen.
  unfold take_lines at 1. destruct (String.length s) as [|n] eqn:En; [lia|].
  rewrite drain_unfold, Hc, Hs.
  rewrite (drain_enough n (String.length rest) rest) by lia.
  fold (take_lines rest). now destruct (take_lines rest).
Qed.

Lemma take_lines_none s : PyStr.contains crlf s = false -> take_lines s = ([], s).
Proof.
  intros Hc. unfold take_lines. destruct (String.length s); [reflexivity|].
  now rewrite drain_unfold, Hc.
Qed.

Lemma take_lines_spec :
  forall n s,
    String.length s <= n ->
    unsplit (fst (take_lines s)) (snd (take_lines s)) = s
    /\ PyStr.contains crlf (snd (take_lines s)) = false
    /\ Forall (fun line => PyStr.contains crlf line = false) (fst (take_lines s)).
Proof.
  induction n as [|n IH]; intros s Hn; destruct (PyStr.contains crlf s) eqn:Hc;
    try (rewrite (take_lines_none s Hc); cbn [fst snd unsplit fold_right];
         split; [reflexivity|split; [exact Hc|constructor]]);
    destruct (contains_split_first _ _ Hc) as (line & rest & Hs);
    pose proof (split_shorter s line rest Hs) as Hlen; [lia|].
  rewrite (take_lines_step s line rest Hc Hs). cbn [fst snd unsplit fold_right].
  destruct (IH rest) as (H1 & H2 & H3); [lia|].
  split; [|split; [exact H2|]].
  - fold (unsplit (fst (take_lines rest)) (snd (take_lines rest))). rewrite H1.
    symmetry. now apply split_first_spec.
  - constructor; [|exact H3].
    apply (split_first_first carriage_return (String newline "") s line rest Hs).
Qed.

(** Draining a buffer and then what is left of it with more text appended
    takes the same lines as draining all of it at once. *)
Lemma take_lines_append :
  forall n s t,
    String.length s <= n ->
    take_lines (s ++ t)
    = (fst (take_lines s) ++ fst (take_lines (snd (take_lines s) ++ t)),
       snd (take_lines (snd (take_lines s) ++ t))).
Proof.
  induction n as [|n IH]; intros s t Hn; destruct (PyStr.contains crlf s) eqn:Hc;
    try (rewrite (take_lines_none s Hc); cbn [fst snd app];
         now destruct (take_lines (s ++ t)));
    destruct (contains_split_first _ _ Hc) as (line & rest & Hs);
    pose proof (split_shorter s line rest Hs) as Hlen; [lia|].
  rewrite (take_lines_step s line rest Hc Hs). cbn [fst snd].
  rewrite (take_lines_step (s ++ t) line (rest ++ t)
             (contains_append _ _ _ Hc) (split_first_append _ _ _ _ _ Hs)).
  rewrite (IH rest t) by lia. reflexivity.
Qed.

Lemma receive_spec (decode : list Byte.byte -> string) :
  forall packets read_buffer,
    Forall (fun data => data <> []) packets ->
    PyStr.contains crlf read_buffer = false ->
    receive decode read_buffer packets
    = take_lines (read_buffer ++ written (map decode packets)).
Proof.
  induction packets as [|data packets IH]; intros b Hne Hb.
  - cbn [receive map]. change (written []) with "". rewrite append_empty_r.
    symmetry. now apply take_lines_none.
  - inversion Hne as [|? ? Hd Hne']; subst. cbn [receive map].
    destruct data as [|byte data]; [congruence|].
    set (text := decode (byte :: data)).
    change (written (text :: map decode packets))
      with (text ++ written (map decode packets))%string.
    rewrite <- append_assoc.
    rewrite (take_lines_append _ (b ++ text) (written (map decode packets)) (le_n _)).
    destruct (take_lines_spec _ (b ++ text) (le_n _)) as (_ & Hleft & _).
    destruct (take_lines (b ++ text)) as [lines buffer]. cbn [fst snd] in *.
    rewrite (IH buffer Hne' Hleft).
    now destruct (take_lines (buffer ++ written (map decode packets))).
Qed.

Lemma ascii_text_app a b : ascii_text (a ++ b) = (ascii_text a ++ ascii_text b)%string.
Proof.
  unfold ascii_text, string_of_list_byte. rewrite map_app.
  induction (map ascii_of_byte a) as [|x l IH]; [reflexivity|].
  cbn [app string_of_list_ascii String.append]. now rewrite IH.
Qed.

(** Packets of ASCII decode, one by one, to the text of the whole stream. *)
Lemma ascii_packets decode packets :
  decodes_ascii decode ->
  Forall (fun data => forallb is_ascii data = true) packets ->
  written (map decode packets) = ascii_text (List.concat packets).
Proof.
  intros Hdec. induction 1 as [|data packets Hd Hp IH]; [reflexivity|].
  cbn [map List.concat]. rewrite ascii_text_app, <- IH, (Hdec data Hd). reflexivity.
Qed.

(** X20.  The reader puts chat lines together again from the packets as
    they decode: whatever the decoder, with non-empty packets and an empty
    buffer at the start, the lines handled are those one pass over the texts
    of the packets, put end to end, takes; each is free of the line end, the
    buffer left over is free of it too, and the lines with their line ends
    followed by that buffer are these texts, so that nothing of them is lost,
    doubled or reordered; two sequences of packets that decode to the same
    text give the same lines and the same buffer.  For packets of ASCII, which
    decode to themselves, the text is the stream that was sent, however the
    network cut it. *)
Theorem reader_reassembles_lines (decode : list Byte.byte -> string)
        (packets : list (list Byte.byte))
        (Hpackets : Forall (fun data => data <> []) packets) :
  let text := written (map decode packets) in
  receive decode "" packets = take_lines text
  /\ unsplit (fst (receive decode "" packets)) (snd (receive decode "" packets)) = text
  /\ Forall (fun line => PyStr.contains crlf line = false) (fst (receive decode "" packets))
  /\ PyStr.contains crlf (snd (receive decode "" packets)) = false
  /\ (forall packets',
         Forall (fun data => data <> []) packets' ->
         written (map decode packets') = text ->
         receive decode "" packets' = receive decode "" packets)
  /\ (decodes_ascii decode ->
      Forall (fun data => forallb is_ascii data = true) packets ->
      text = ascii_text (List.concat packets)).
Proof.
  cbv zeta.
  assert (Hall : forall ps, Forall (fun data => data <> []) ps ->
                            receive decode "" ps = take_lines (written (map decode ps))).
  { intros ps Hps. now rewrite (receive_spec decode ps "" Hps eq_refl). }
  rewrite (Hall packets Hpackets).
  destruct (take_lines_spec _ (written (map decode packets)) (le_n _)) as (H1 & H2 & H3).
  repeat split; try assumption.
  - intros packets' Hne Heq. now rewrite (Hall packets' Hne), Heq.
  - apply ascii_packets.
Qed.

Lemma reader_reassembles_lines_witness :
  receive ascii_only "" three_packets
  = take_lines (written (map ascii_only three_packets)).
Proof.
  assert (H : Forall (fun data => data <> []) three_packets)
    by (unfold three_packets; repeat constructor; discriminate).
  exact (proj1 (reader_reassembles_lines ascii_only three_packets H)).
Defined.

(** ** Segment lines without a tag *)

Lemma split_on_not_nil sep s : PyStr.split_on sep s <> [].
Proof.
  destruct s as [|c s]; cbn [PyStr.split_on]; [discriminate|].
  destruct (Ascii.eqb c sep); [discriminate|].
  destruct (PyStr.split_on sep s); discriminate.
Qed.

Lemma split_on_snoc sep a b :
  lacks sep b ->
  PyStr.split_on sep (a ++ String sep b) = PyStr.split_on sep a ++ [b].
Proof.
  intros Hb. induction a as [|x a IH].
  - cbn [String.append PyStr.split_on app]. rewrite Ascii.eqb_refl.
    now rewrite (split_on_lacks sep b Hb).
  - cbn [String.append PyStr.split_on]. rewrite IH.
    destruct (Ascii.eqb x sep); [reflexivity|].
    pose proof (split_on_not_nil sep a) as Hne.
    destruct (PyStr.split_on sep a) as [|h t]; [congruence|reflexivity].
Qed.

(** [sep.join(s.split(sep))] is [s]. *)
Lemma join_split_on sep s : PyStr.join (String sep "") (PyStr.split_on sep s) = s.
Proof.
  unfold PyStr.join. induction s as [|x s IH]; [reflexivity|].
  cbn [PyStr.split_on]. pose proof (split_on_not_nil sep s) as Hne.
  destruct (Ascii.eqb_spec x sep) as [->|Hx].
  - destruct (PyStr.split_on sep s) as [|h t]; [congruence|].
    cbn [String.concat String.append] in *. now rewrite IH.
  - destruct (PyStr.split_on sep s) as [|h t]; [congruence|].
    destruct t; cbn [String.concat String.append] in *; now rewrite IH.
Qed.

(** [rsplit] cuts at the last separator. *)
Lemma rsplit1_spec sep a b :
  lacks sep b -> PyStr.rsplit1 sep (a ++ String sep b) = [a; b].
Proof.
  intros Hb. unfold PyStr.rsplit1. rewrite (split_on_snoc sep a b Hb).
  pose proof (split_on_not_nil sep a) as Hne.
  pose proof (join_split_on sep a) as Hjoin.
  destruct (PyStr.split_on sep a) as [|h t]; [congruence|].
  assert (Hparts : match (h :: t) ++ [b] with
                   | [] | [_] => False
                   | _ => True
                   end) by (destruct t; exact I).
  destruct ((h :: t) ++ [b]) as [|p1 [|p2 ps]] eqn:E; try contradiction.
  rewrite <- E, removelast_last, last_last, Hjoin. reflexivity.
Qed.

Lemma lacks_contains c s : lacks c s -> PyStr.contains (String c "") s = false.
Proof.
  unfold lacks. induction s as [|x s IH]; intros H; [reflexivity|].
  rewrite chars_cons in H. cbn [PyStr.contains String.prefix].
  destruct (ascii_dec c x) as [->|_]; [exfalso; apply H; now left|].
  cbn [orb]. apply IH. intros Hin. apply H. now right.
Qed.

Lemma phrase_char_not_hash c : phrase_char c = true -> c <> "#"%char.
Proof. destruct c as [[] [] [] [] [] [] [] []]; cbn; intros H; congruence. Qed.

Lemma trimmed_append (a mid b : string) :
  a <> "" -> b <> "" ->
  PyStr.dropwhile PyStr.isspace (PyStr.chars a) = PyStr.chars a ->
  PyStr.dropwhile PyStr.isspace (rev (PyStr.chars b)) = rev (PyStr.chars b) ->
  trimmed (PyStr.chars (a ++ mid ++ b)).
Proof.
  intros Ha Hb Hstart Hend.
  destruct a as [|x a]; [congruence|].
  apply dropwhile_head in Hstart. rewrite chars_cons in Hstart.
  rewrite <- append_assoc.
  change ((String x a ++ mid) ++ b)%string with (String x (a ++ mid) ++ b)%string.
  now apply trimmed_fields.
Qed.

Section Untagged.
Variables (vc : dict Z) (p : string) (v : Z) (imported : dict Z) (iuv : dict string).
Hypothesis Hp : normalize_phrase p = p.
Hypothesis Hne : p <> "".
Hypothesis Hv : (0 < v)%Z.
Hypothesis Hlim : printable v.

Lemma untagged_trimmed sep : trimmed (PyStr.chars (p ++ String sep (numeral v))).
Proof.
  rewrite (numeral_pos v Hv).
  apply (trimmed_append p (String sep "") (PyStr.str_of_nat (Z.to_nat v))).
  - exact Hne.
  - apply str_of_nat_not_empty.
  - pose proof (normalize_phrase_trimmed p) as Ht. rewrite Hp in Ht. apply Ht.
  - apply digits_end.
Qed.

Lemma untagged_not_comment sep :
  (negb (PyStr.truthy (p ++ String sep (numeral v)))
   || PyStr.startswith "#" (p ++ String sep (numeral v)))%bool = false.
Proof.
  pose proof (normalize_phrase_chars p) as Hc. rewrite Hp in Hc.
  destruct p as [|x s]; [congruence|].
  rewrite chars_cons in Hc. inversion Hc as [|? ? Hx _]; subst.
  apply phrase_char_not_hash in Hx.
  cbn [String.append PyStr.truthy negb orb PyStr.startswith String.prefix].
  destruct (ascii_dec "#" x) as [Heq|_]; [congruence|reflexivity].
Qed.

Lemma untagged_counted sep :
  lacks sep (numeral v) ->
  PyStr.rsplit1 sep (p ++ String sep (numeral v)) = [p; numeral v]
  /\ (negb (PyStr.truthy (normalize_phrase p))
      || (safe_int (PyStr.strip (numeral v)) 0 <=? 0)%Z)%bool = false.
Proof.
  intros Hsep. split; [now apply rsplit1_spec|].
  rewrite Hp. apply truthy_true in Hne. rewrite Hne. cbn [negb orb].
  rewrite (numeral_pos v Hv), strip_str_of_nat,
    (safe_int_str_of_nat _ _ (printable_pos v Hv Hlim)).
  apply Z.leb_gt. lia.
Qed.

Lemma import_space_line :
  import_line vc (imported, iuv) (write_line (p ++ String " " (numeral v)))
  = (add_segment vc p v imported, iuv).
Proof.
  assert (Hdigits : plain (numeral v)) by now apply numeral_plain.
  assert (Hspace : lacks " " (numeral v)).
  { rewrite (numeral_pos v Hv). apply lacks_Forall.
    eapply Forall_impl; [|exact (str_of_nat_digits (Z.to_nat v))].
    intros c Hc ->. discriminate Hc. }
  assert (Htab : lacks tab (p ++ String " " (numeral v))).
  { apply lacks_append; [apply (normalized_plain p Hp)|].
    apply lacks_cons; [discriminate|apply Hdigits]. }
  unfold import_line.
  rewrite (strip_write_line _ (untagged_trimmed " ")), untagged_not_comment.
  rewrite (split_on_lacks tab _ Htab).
  unfold untagged_line. rewrite (lacks_contains tab _ Htab).
  destruct (untagged_counted " " Hspace) as [-> ->].
  rewrite Hp, (numeral_pos v Hv), strip_str_of_nat,
    (safe_int_str_of_nat _ _ (printable_pos v Hv Hlim)).
  now rewrite Z2Nat.id by lia.
Qed.

Lemma import_tab_line :
  import_line vc (imported, iuv) (write_line (p ++ String tab (numeral v)))
  = (add_segment vc p v imported, iuv).
Proof.
  assert (Hdigits : lacks tab (numeral v)) by now apply numeral_plain.
  assert (Hphrase : lacks tab p) by apply (normalized_plain p Hp).
  assert (Htab : PyStr.contains (String tab "") (p ++ String tab (numeral v)) = true).
  { apply contains_spec. exists p, (numeral v). reflexivity. }
  unfold import_line.
  rewrite (strip_write_line _ (untagged_trimmed tab)), untagged_not_comment.
  rewrite (split_on_append tab p _ Hphrase), (split_on_lacks tab _ Hdigits).
  unfold untagged_line. rewrite Htab.
  destruct (untagged_counted tab Hdigits) as [-> ->].
  rewrite Hp, (numeral_pos v Hv), strip_str_of_nat,
    (safe_int_str_of_nat _ _ (printable_pos v Hv Hlim)).
  now rewrite Z2Nat.id by lia.
Qed.

End Untagged.

(** X21.  A segment can be spelled in three ways in an import file, the
    tagged line the export writes, [phrase<TAB>count] and [phrase count];
    for a phrase that normalizing leaves alone (it may hold spaces) and a
    positive count written in decimal with no more digits than the
    interpreter reads (4300), all three are read alike: the count is added to
    the tally of the phrase the ledger's matching resolves it to, every other
    imported tally and the imported sender votes staying as they are. *)
Theorem import_reads_three_spellings
        (vc : dict Z) (p : string) (v : Z) (imported : dict Z) (iuv : dict string)
        (Hp : normalize_phrase p = p) (Hne : p <> "") (Hv : (0 < v)%Z)
        (Hlim : printable v) :
  let target := or_else (find_matching_phrase vc p "") p in
  let counted := (add_segment vc p v imported, iuv) in
  import_line vc (imported, iuv) (write_line (segment_line p (numeral v))) = counted
  /\ import_line vc (imported, iuv) (write_line (p ++ String tab (numeral v))) = counted
  /\ import_line vc (imported, iuv) (write_line (p ++ String " " (numeral v))) = counted
  /\ tally (add_segment vc p v imported) target = (tally imported target + v)%Z
  /\ (forall q, q <> target -> tally (add_segment vc p v imported) q = tally imported q).
Proof.
  cbv zeta. split; [now apply import_segment_line|].
  split; [now apply import_tab_line|].
  split; [now apply import_space_line|].
  unfold add_segment. cbv zeta. split.
  - rewrite tally_set, String.eqb_refl. reflexivity.
  - intros q Hq. rewrite tally_set. apply not_eq_sym in Hq.
    apply String.eqb_neq in Hq. now rewrite Hq.
Qed.

Lemma import_reads_three_spellings_witness :
  import_line [] ([], []) (write_line ("cats and dogs" ++ String " " (numeral 3)))
  = (add_segment [] "cats and dogs" 3 [], []).
Proof.
  assert (Hp : normalize_phrase "cats and dogs" = "cats and dogs") by (vm_compute; reflexivity).
  assert (Hne : "cats and dogs" <> "") by discriminate.
  assert (Hv : (0 < 3)%Z) by lia.
  assert (Hlim : printable 3) by (apply Nat.leb_le; vm_compute; reflexivity).
  exact (proj1 (proj2 (proj2
           (import_reads_three_spellings [] "cats and dogs" 3 [] [] Hp Hne Hv Hlim)))).
Defined.

(** ** The wheel as it is drawn *)










